(** * A shallow embedding of generate-csv-column.js

    The batch execution engine of the CSV column generator: the Template
    Filler ([fillPromptTemplate]), the Model Invoker ([callOpenRouterAPI]),
    the Response Distributor (the second half of [processRow]), the Batch
    Retry Controller ([processBatch]), the Column Driver ([processColumn])
    and the Run Orchestrator ([main]), together with the earlier revision of
    the Batch Retry Controller that retries whole batches.

    Conventions of the embedding.
    - A JavaScript string is a [string]: a sequence of code units, of which
      the model covers those below 256.
    - A JavaScript number that counts (row indices, retry counts, delays in
      milliseconds) is a [nat]; a number that comes from the API (token
      counts, cost) or from decoded JSON is a binary64 [float].
    - A JavaScript object is the list of its own properties in insertion
      order, and a property read sees own properties only.  That is what
      JavaScript does for the keys of everyday data.  For three kinds of
      keys it is not, and the properties that depend on them say so in a
      hypothesis: the read of a name that every object inherits and the
      object does not have itself ([inherited_name]); an assignment to
      [__proto__]; and the place, among the keys, of a key made of digits
      ([numeric_name]).
    - Effects are explicit: the row set, the outside world and the
      chronological trace of HTTP posts, sleeps, CSV writes and
      console.warn / console.error output are threaded through a state and
      error monad.  console.log status output is not traced.
    - The JavaScript built-ins the program calls (JSON.parse, JSON.stringify,
      String conversion) and the outside world (axios.post, the CSV writer)
      are the fields of the class [Platform]. *)

From Stdlib Require Import Floats String Ascii Lia.
From stdpp Require Import base list strings option pretty.

Set Warnings "-register-all".

(** ** Characters and strings *)

(** The class [\w] of a regular expression without the unicode flag. *)
Definition is_word (c : ascii) : bool :=
  let n := nat_of_ascii c in
  (((48 <=? n) && (n <=? 57)) || ((65 <=? n) && (n <=? 90))
   || ((97 <=? n) && (n <=? 122)) || (n =? 95))%nat.

(** The class [\s], which is also what [trim] strips: tab, line feed,
    vertical tab, form feed, carriage return, space and no-break space. *)
Definition is_space (c : ascii) : bool :=
  let n := nat_of_ascii c in
  (((9 <=? n) && (n <=? 13)) || (n =? 32) || (n =? 160))%nat.

Definition chars (s : string) : list ascii := list_ascii_of_string s.
Definition text (l : list ascii) : string := string_of_list_ascii l.

Definition ascii_eqb (a b : ascii) : bool := Ascii.eqb a b.

Fixpoint drop_spaces (l : list ascii) : list ascii :=
  match l with
  | c :: t => if is_space c then drop_spaces t else l
  | [] => []
  end.

(** [String.prototype.trim]. *)
Definition trim_chars (l : list ascii) : list ascii :=
  rev (drop_spaces (rev (drop_spaces l))).

Definition trim (s : string) : string := text (trim_chars (chars s)).

Fixpoint starts_with (p l : list ascii) : bool :=
  match p, l with
  | [], _ => true
  | a :: p', b :: l' => ascii_eqb a b && starts_with p' l'
  | _ :: _, [] => false
  end.

(** [String.prototype.startsWith]. *)
Definition startsWith (s p : string) : bool := starts_with (chars p) (chars s).

(** [s.substring(0, n)]. *)
Definition substring0 (n : nat) (s : string) : string := text (take n (chars s)).

(** ** JavaScript values *)

Inductive value : Type :=
| VUndefined
| VNull
| VBool (b : bool)
| VNum (n : float)
| VStr (s : string)
| VArr (items : list value)
| VObj (props : list (string * value)).

(** An object, and so a row, is the list of its own properties in insertion
    order. *)
Definition Row : Type := list (string * value).

(** The own property [k] of [r], if there is one. *)
Fixpoint row_get (r : Row) (k : string) : option value :=
  match r with
  | [] => None
  | (k', v) :: r' => if String.eqb k' k then Some v else row_get r' k
  end.

(** [row[k] = v], for a key other than [__proto__]: an existing property
    keeps its place, a new one goes last. *)
Fixpoint row_set (r : Row) (k : string) (v : value) : Row :=
  match r with
  | [] => [(k, v)]
  | (k', v') :: r' =>
      if String.eqb k' k then (k', v) :: r' else (k', v') :: row_set r' k v
  end.

(** [Object.keys]: the own keys in insertion order, which is the order of
    JavaScript when no key is an array index (those JavaScript lists first,
    in ascending order). *)
Definition Object_keys (r : Row) : list string := map fst r.

(** The names of the properties of [Object.prototype].  An object that has
    no own property of such a name still answers a read of it, with the
    function (or, for [__proto__], the prototype) it inherits; and an
    assignment to [__proto__] sets the prototype or does nothing, it never
    creates a property.  The embedding keeps own properties only: what it
    says of a read of an absent property is what the program does for the
    names that are not inherited, and what it says of an assignment is what
    the program does for the names other than [__proto__]. *)
Definition Object_prototype_names : list string :=
  ["constructor"; "__defineGetter__"; "__defineSetter__"; "hasOwnProperty";
   "__lookupGetter__"; "__lookupSetter__"; "isPrototypeOf";
   "propertyIsEnumerable"; "toString"; "valueOf"; "__proto__";
   "toLocaleString"].

Definition inherited_name (k : string) : bool :=
  existsb (String.eqb k) Object_prototype_names.

Definition is_digit (c : ascii) : bool :=
  let n := nat_of_ascii c in ((48 <=? n) && (n <=? 57))%nat.

(** A key made of decimal digits only.  The array indices are among these
    keys; JavaScript lists them in ascending order before the other keys,
    whatever the order of insertion. *)
Definition numeric_name (k : string) : bool :=
  negb (String.eqb k "") && forallb is_digit (chars k).

(** Truthiness of a number: zero of either sign and NaN are falsy. *)
Definition num_truthy (n : float) : bool :=
  negb (PrimFloat.eqb n 0%float || PrimFloat.is_nan n).

Definition truthy (v : value) : bool :=
  match v with
  | VUndefined | VNull => false
  | VBool b => b
  | VNum n => num_truthy n
  | VStr s => negb (String.eqb s "")
  | VArr _ | VObj _ => true
  end.

(** [a || b]. *)
Definition js_or (a b : value) : value := if truthy a then a else b.

Definition float_of_nat (n : nat) : float :=
  PrimFloat.of_uint63 (Uint63.of_Z (Z.of_nat n)).

(** The index a property key denotes in an array or string of length [len]:
    the key must be the canonical decimal numeral of an index in range. *)
Definition index_of_key (k : string) (len : nat) : option nat :=
  snd <$> list_find (fun i => bool_decide (pretty i = k)) (seq 0 len).

(** [v[k]] for a value that is neither [undefined] nor [null], as far as
    the own properties of [v] go: what [v] inherits is not in the model. *)
Definition own_property (v : value) (k : string) : value :=
  match v with
  | VObj props => default VUndefined (row_get props k)
  | VArr items =>
      if String.eqb k "length" then VNum (float_of_nat (length items))
      else default VUndefined (i ← index_of_key k (length items); items !! i)
  | VStr s =>
      if String.eqb k "length" then VNum (float_of_nat (String.length s))
      else default VUndefined
             (i ← index_of_key k (String.length s);
              c ← chars s !! i; Some (VStr (text [c])))
  | _ => VUndefined
  end.

(** ** Errors *)

(** The HTTP response axios attaches to a rejected request. *)
Record error_response : Type := { status : nat; data : value }.

Inductive js_error : Type :=
| AxiosError (message : string) (response : option error_response)
| TypeError (message : string)
| Error (message : string).

Definition error_message (e : js_error) : string :=
  match e with
  | AxiosError m _ | TypeError m | Error m => m
  end.

(** [error.response]: only an axios error may carry one. *)
Definition error_resp (e : js_error) : option error_response :=
  match e with
  | AxiosError _ r => r
  | _ => None
  end.

Definition cannot_read (of_what k : string) : js_error :=
  TypeError ("Cannot read properties of " +:+ of_what +:+ " (reading '"
             +:+ k +:+ "')").

Definition cannot_set (k : string) : js_error :=
  TypeError ("Cannot set properties of undefined (setting '" +:+ k +:+ "')").

(** [v[k]], which throws when [v] is [null] or [undefined]. *)
Definition Get (v : value) (k : string) : js_error + value :=
  match v with
  | VUndefined => inl (cannot_read "undefined" k)
  | VNull => inl (cannot_read "null" k)
  | _ => inr (own_property v k)
  end.

(** [v?.k]. *)
Definition Get_opt (v : value) (k : string) : value :=
  match v with
  | VUndefined | VNull => VUndefined
  | _ => own_property v k
  end.

(** ** The platform: JavaScript built-ins and the outside world *)

(** The request body [callOpenRouterAPI] posts.  [plugins] and
    [web_search_options] are present only when the caller supplied them. *)
Record request : Type := {
  req_model : string;
  req_content : string;
  req_plugins : option value;
  req_web_search_options : option value
}.

(** [response.data.usage], each field as the API may or may not send it. *)
Record usage_t : Type := {
  prompt_tokens : option float;
  completion_tokens : option float;
  total_tokens : option float;
  usage_cost : option float
}.

(** What [callOpenRouterAPI] reads of a successful response:
    [response.data.choices[0].message.content] and [response.data.usage]. *)
Record completion : Type := {
  content : string;
  usage : option usage_t
}.

(** How one [await axios.post(...)] followed by the read of the completion
    text ends: with a completion, or with an error (a transport error, a
    non-success status, the timeout, or the TypeError of reading a body that
    has no completion in it). *)
Inductive http_outcome : Type :=
| HttpOk (body : completion)
| HttpFailed (err : js_error).

Inductive parse_result : Type :=
| Parsed (v : value)
| SyntaxError (message : string).

Class Platform : Type := {
  (** [JSON.parse]. *)
  JSON_parse : string -> parse_result;
  (** [JSON.stringify]. *)
  JSON_stringify : value -> string;
  (** [String(v)] for a value that is not a string. *)
  String_of_other : value -> string;
  (** The state of everything outside the process. *)
  World : Type;
  (** One request to the model API, in the order the requests are issued. *)
  axios_post : request -> World -> http_outcome * World;
  (** One [csvWriter.writeRecords] to a path; [Some e] is a failed write. *)
  writeRecords :
    string -> list Row -> list string -> World -> option js_error * World
}.

(** ** Template Filler *)

(** Where the scan of a placeholder's name stands: right after the opening
    braces or a whitespace run a word character is due ([NeedWord] allows no
    whitespace, [InSpace] allows more of it); inside a word the name may
    end. *)
Inductive scan_state : Type := NeedWord | InWord | InSpace.

(** The placeholder expression of [fillPromptTemplate] reads: two opening
    braces; the captured name, which is one or more words (runs of [\w])
    separated by runs of whitespace ([\s]); two closing braces.  [scan_name]
    is the part after the opening braces and returns the name and what
    follows the closing braces.  Word characters, whitespace and the brace
    are disjoint classes, so the expression matches in at most one way from
    a given position. *)
Fixpoint scan_name (st : scan_state) (s : list ascii)
  : option (list ascii * list ascii) :=
  match s with
  | [] => None
  | c :: t =>
      if is_word c then
        '(n, r) ← scan_name InWord t; Some (c :: n, r)
      else if is_space c then
        match st with
        | NeedWord => None
        | InWord | InSpace => '(n, r) ← scan_name InSpace t; Some (c :: n, r)
        end
      else
        match st, t with
        | InWord, c' :: r =>
            if ascii_eqb c "}" && ascii_eqb c' "}" then Some ([], r) else None
        | _, _ => None
        end
  end.

(** A match of the placeholder expression at the head of [s]. *)
Definition match_placeholder (s : list ascii)
  : option (list ascii * list ascii) :=
  match s with
  | a :: b :: t =>
      if ascii_eqb a "{" && ascii_eqb b "{" then scan_name NeedWord t else None
  | _ => None
  end.

Definition placeholder (name : list ascii) : list ascii :=
  chars "{{" ++ name ++ chars "}}".

(** [s.replace(/.../g, callback)]: the matches are found left to right, each
    search resuming after the previous match; what the callback returns is
    not scanned again.  A callback that throws ends the replacement.  Every
    step consumes a character, so [length s] is fuel enough. *)
Fixpoint replace_placeholders (fuel : nat)
    (callback : list ascii -> js_error + list ascii) (s : list ascii)
  : js_error + list ascii :=
  match fuel, s with
  | 0, _ => inr s
  | _, [] => inr []
  | S fuel', c :: t =>
      match match_placeholder s with
      | Some (name, rest) =>
          match callback name with
          | inl e => inl e
          | inr replacement =>
              match replace_placeholders fuel' callback rest with
              | inl e => inl e
              | inr out => inr (replacement ++ out)
              end
          end
      | None =>
          match replace_placeholders fuel' callback t with
          | inl e => inl e
          | inr out => inr (c :: out)
          end
      end
  end.

(** The names the placeholder expression captures, as the expression is
    written: a word, or a name followed by whitespace and a word. *)
Inductive placeholder_name : list ascii -> Prop :=
| name_word (w : list ascii) :
    w <> [] -> Forall (fun c => is_word c = true) w -> placeholder_name w
| name_more (n sp w : list ascii) :
    placeholder_name n ->
    sp <> [] -> Forall (fun c => is_space c = true) sp ->
    w <> [] -> Forall (fun c => is_word c = true) w ->
    placeholder_name (n ++ sp ++ w).

Section WithPlatform.
Context {platform : Platform}.

(** [String(v)], the conversion [replace] and template literals apply. *)
Definition ToString (v : value) : string :=
  match v with
  | VStr s => s
  | _ => String_of_other v
  end.

(** The callback of [fillPromptTemplate]:
    [value !== undefined ? value : match], read on the row the task was
    given, of which it sees the own properties; reading a property of a row
    that does not exist throws. *)
Definition fill_callback (rowData : option Row) (name : list ascii)
  : js_error + list ascii :=
  match rowData with
  | None => inl (cannot_read "undefined" (text name))
  | Some row =>
      match row_get row (text name) with
      | None | Some VUndefined => inr (placeholder name)
      | Some v => inr (chars (ToString v))
      end
  end.

Definition fillPromptTemplate (prompt : string) (rowData : option Row)
  : js_error + string :=
  match replace_placeholders (String.length prompt) (fill_callback rowData)
          (chars prompt) with
  | inl e => inl e
  | inr out => inr (text out)
  end.

End WithPlatform.

(** ** Response Distributor: code fences *)

Definition fence : list ascii := chars "```".
Definition line_feed : ascii := ascii_of_nat 10.

(** [jsonText.replace(/^```(?:json)?\s*\n?/, '')] on a text that starts with
    a fence: the fence goes, then the tag json when it follows, then all the
    whitespace after it (the greedy [\s*] leaves the optional line feed
    nothing to take). *)
Definition strip_opening_fence (l : list ascii) : list ascii :=
  if starts_with fence l then
    let l1 := drop 3 l in
    let l2 := if starts_with (chars "json") l1 then drop 4 l1 else l1 in
    drop_spaces l2
  else l.

(** [jsonText.replace(/\n?```\s*$/, '')]: a match has to end at the end of
    the text, so it is the last fence with the whitespace after it, and the
    leftmost match takes the line feed before that fence when there is one.
    A text that does not end in a fence and whitespace is left as it is. *)
Definition strip_closing_fence (l : list ascii) : list ascii :=
  let r := drop_spaces (rev l) in
  if starts_with fence r then
    match drop 3 r with
    | c :: r' => if ascii_eqb c line_feed then rev r' else rev (c :: r')
    | [] => []
    end
  else l.

(** The text handed to [JSON.parse]. *)
Definition unfence (result : string) : string :=
  let jsonText := trim result in
  if startsWith jsonText "```" then
    text (strip_closing_fence (strip_opening_fence (chars jsonText)))
  else jsonText.

Definition undetectable : value := VStr "__undetectable__".

(** ** Trace and monad *)

(** What console.warn and console.error print: one entry per line that
    carries data (rules and headings without data are left out). *)
Inductive console_entry : Type :=
| RowParseFailed (rowNumber : nat) (message : string)
| ResponseShown (prefix : string)
| RowsFailed (count maxRetries : nat)
| FailedRows (rowNumbers : list nat)
| ErrorSummaryHeading
| SummaryError (key : string)
| AffectedRows (rowNumbers : list nat)
| RowsFailedAttempt (count retryCount maxRetries : nat)
| RetryingFailedRows (rowNumbers : list nat)
| ErrorType (key : string) (rowNumbers : list nat)
| ResponseBody (json : string)
| WaitingBeforeRetry (seconds : nat)
| BatchFailed (maxRetries : nat)
| BatchFailedAttempt (retryCount maxRetries : nat)
| StatusAndError (statusCode errorMsg : string)
| RetryingEntireBatch (seconds : nat)
| ProgressWriteFailed (message : string)
| FatalError (message : string).

Inductive event : Type :=
| Post (req : request)
| Sleep (ms : nat)
| WriteCSV (path : string) (records : list Row) (headers : list string)
| Warn (entry : console_entry)
| ConsoleError (entry : console_entry).

Inductive outcome (A : Type) : Type :=
| Returned (a : A)
| Thrown (e : js_error)
| OutOfFuel.
Arguments Returned {A} a.
Arguments Thrown {A} e.
Arguments OutOfFuel {A}.

Section Engine.
Context {platform : Platform}.

(** The row set (shared by every column and mutated in place), the outside
    world, and what has been observed so far, oldest first. *)
Record state : Type := {
  rows : list Row;
  world : World;
  trace : list event
}.

Definition M (A : Type) : Type := state -> outcome A * state.

#[export] Instance M_ret : MRet M := fun A a s => (Returned a, s).

#[export] Instance M_bind : MBind M := fun A B f m s =>
  match m s with
  | (Returned a, s') => f a s'
  | (Thrown e, s') => (Thrown e, s')
  | (OutOfFuel, s') => (OutOfFuel, s')
  end.

Definition throw {A : Type} (e : js_error) : M A := fun s => (Thrown e, s).
Definition out_of_fuel {A : Type} : M A := fun s => (OutOfFuel, s).

Definition emit (ev : event) : M unit := fun s =>
  (Returned tt,
   {| rows := rows s; world := world s; trace := trace s ++ [ev] |}).

Definition emit_all (evs : list event) : M unit := fun s =>
  (Returned tt,
   {| rows := rows s; world := world s; trace := trace s ++ evs |}).

Definition get_rows : M (list Row) := fun s => (Returned (rows s), s).

(** [promise.then(ok).catch(handler)], and [try { } catch { }]. *)
Definition settle {A : Type} (m : M A) : M (js_error + A) := fun s =>
  match m s with
  | (Returned a, s') => (Returned (inr a), s')
  | (Thrown e, s') => (Returned (inl e), s')
  | (OutOfFuel, s') => (OutOfFuel, s')
  end.

Definition lift {A : Type} (r : js_error + A) : M A :=
  match r with
  | inl e => throw e
  | inr a => mret a
  end.

(** [await sleep(ms)]. *)
Definition sleep (ms : nat) : M unit := emit (Sleep ms).

(** [row[k] = v] through the reference [rows[i]]. *)
Definition row_assign (i : nat) (k : string) (v : value) : M unit := fun s =>
  match rows s !! i with
  | None => (Thrown (cannot_set k), s)
  | Some r =>
      (Returned tt,
       {| rows := <[i := row_set r k v]> (rows s);
          world := world s; trace := trace s |})
  end.

(** ** Model Invoker *)

Record api_result : Type := {
  result : string;
  cost : float;
  promptTokens : float;
  completionTokens : float;
  totalTokens : float
}.

(** [x || d] for a number that may be missing. *)
Definition num_or (x : option float) (d : float) : float :=
  match x with
  | Some n => if num_truthy n then n else d
  | None => d
  end.

Definition no_usage : usage_t :=
  {| prompt_tokens := None; completion_tokens := None;
     total_tokens := None; usage_cost := None |}.

(** The part of [callOpenRouterAPI] after the response has arrived. *)
Definition read_completion (body : completion) : api_result :=
  let u := default no_usage (usage body) in
  let p := num_or (prompt_tokens u) 0%float in
  let c := num_or (completion_tokens u) 0%float in
  {| result := trim (content body);
     cost := num_or (usage_cost u) 0%float;
     promptTokens := p;
     completionTokens := c;
     totalTokens := num_or (total_tokens u) (p + c)%float |}.

(** [await axios.post(...)]: the request is observed and the world answers. *)
Definition post (req : request) : M completion := fun s =>
  let '(o, w) := axios_post req (world s) in
  let s' := {| rows := rows s; world := w; trace := trace s ++ [Post req] |} in
  match o with
  | HttpOk body => (Returned body, s')
  | HttpFailed e => (Thrown e, s')
  end.

(** [plugins && Array.isArray(plugins) && plugins.length > 0]. *)
Definition plugins_given (plugins : option value) : option value :=
  match plugins with
  | Some (VArr (p :: ps)) => Some (VArr (p :: ps))
  | _ => None
  end.

Definition options_given (webSearchOptions : option value) : option value :=
  match webSearchOptions with
  | Some v => if truthy v then Some v else None
  | None => None
  end.

Definition callOpenRouterAPI (modelName prompt : string)
    (plugins webSearchOptions : option value) : M api_result :=
  body ← post {| req_model := modelName; req_content := prompt;
                 req_plugins := plugins_given plugins;
                 req_web_search_options := options_given webSearchOptions |};
  mret (read_completion body).

(** ** Response Distributor and the row task *)

(** [typeof columnInfo === 'string'] or an object with [columns]. *)
Inductive column_info : Type :=
| SingleColumn (columnName : string)
| GroupColumns (columns : list string).

(** What [processRow] returns. *)
Record row_outcome : Type := {
  success : bool;
  out_cost : float;
  out_promptTokens : float;
  out_completionTokens : float;
  rowIndex : nat
}.

(** The loop of the [try] block:
    [row[colName] = parsed[colName] || '__undetectable__']. *)
Fixpoint assign_parsed (row : nat) (parsed : value) (columns : list string)
  : M unit :=
  match columns with
  | [] => mret tt
  | colName :: rest =>
      v ← lift (Get parsed colName);
      row_assign row colName (js_or v undetectable);;
      assign_parsed row parsed rest
  end.

(** The loop of the [catch] block: [row[colName] = '__undetectable__']. *)
Fixpoint assign_undetectable (row : nat) (columns : list string) : M unit :=
  match columns with
  | [] => mret tt
  | colName :: rest =>
      row_assign row colName undetectable;;
      assign_undetectable row rest
  end.

(** [JSON.parse(jsonText)], which throws on malformed text. *)
Definition parse (jsonText : string) : M value :=
  match JSON_parse jsonText with
  | Parsed v => mret v
  | SyntaxError m => throw (Error m)
  end.

(** The grouped branch of [processRow]. *)
Definition distribute_group (row rowIndex : nat) (columns : list string)
    (apiResult : api_result) : M unit :=
  attempt ← settle (parsed ← parse (unfence (result apiResult));
                    assign_parsed row parsed columns);
  match attempt with
  | inr _ => mret tt
  | inl parseError =>
      emit (ConsoleError
              (RowParseFailed (rowIndex + 1) (error_message parseError)));;
      emit (ConsoleError
              (ResponseShown (substring0 200 (result apiResult))));;
      assign_undetectable row columns
  end.

(** [processRow(row, rowIndex, ...)], where [row] refers to [rows[row]]. *)
Definition processRow (row rowIndex : nat) (columnInfo : column_info)
    (modelName prompt : string) (plugins webSearchOptions : option value)
  : M row_outcome :=
  all ← get_rows;
  filledPrompt ← lift (fillPromptTemplate prompt (all !! row));
  apiResult ← callOpenRouterAPI modelName filledPrompt plugins webSearchOptions;
  match columnInfo with
  | SingleColumn columnName =>
      row_assign row columnName (VStr (result apiResult))
  | GroupColumns columns =>
      distribute_group row rowIndex columns apiResult
  end;;
  mret {| success := true;
          out_cost := cost apiResult;
          out_promptTokens := promptTokens apiResult;
          out_completionTokens := completionTokens apiResult;
          rowIndex := rowIndex |}.

(** ** Batch Retry Controller *)

(** One element of [results]: [{ success: true, result, rowIndex }] or
    [{ success: false, error, rowIndex }]. *)
Inductive settled : Type :=
| Fulfilled (res : row_outcome) (index : nat)
| Rejected (error : js_error) (index : nat).

Definition settled_index (r : settled) : nat :=
  match r with
  | Fulfilled _ i | Rejected _ i => i
  end.

Definition is_rejected (r : settled) : bool :=
  match r with
  | Rejected _ _ => true
  | Fulfilled _ _ => false
  end.

(** The successes of a round, as pushed to [allResults]. *)
Definition fulfilled_results (results : list settled) : list row_outcome :=
  omap (fun r => match r with
                 | Fulfilled res _ => Some res
                 | Rejected _ _ => None
                 end) results.

(** [failed]. *)
Definition rejected (results : list settled) : list settled :=
  filter (fun r => is_rejected r = true) results.

(** One task of a round: [processRow(...).then(...).catch(...)]. *)
Definition row_task (columnInfo : column_info) (modelName prompt : string)
    (plugins webSearchOptions : option value) (index : nat) : M settled :=
  r ← settle (processRow index index columnInfo modelName prompt
                plugins webSearchOptions);
  mret (match r with
        | inr res => Fulfilled res index
        | inl error => Rejected error index
        end).

(** [await Promise.all(rowsToProcess.map(...))]: the tasks are started in
    array order and the results come back in array order.  Each task works
    on its own row, so the order in which the responses arrive does not
    show in the rows or in the results; the model runs the tasks in array
    order. *)
Fixpoint run_round (columnInfo : column_info) (modelName prompt : string)
    (plugins webSearchOptions : option value) (rowsToProcess : list nat)
  : M (list settled) :=
  match rowsToProcess with
  | [] => mret []
  | index :: rest =>
      r ← row_task columnInfo modelName prompt plugins webSearchOptions index;
      rs ← run_round columnInfo modelName prompt plugins webSearchOptions rest;
      mret (r :: rs)
  end.

(** [failure.error.response?.status || 'N/A']. *)
Definition status_code (e : js_error) : string :=
  match error_resp e with
  | Some r => if (status r =? 0)%nat then "N/A" else pretty (status r)
  | None => "N/A"
  end.

Definition error_data (e : js_error) : value :=
  match error_resp e with
  | Some r => data r
  | None => VUndefined
  end.

(** The detailed message [processBatch] extracts from a failure. *)
Definition detailed_message (e : js_error) : value :=
  let errorData := error_data e in
  let errorMsg := VStr (error_message e) in
  if truthy errorData then
    let nested := own_property errorData "error" in
    let errorMsg :=
      if truthy (Get_opt nested "message") then Get_opt nested "message"
      else match errorData with
           | VStr _ => errorData
           | _ => if truthy (own_property errorData "message")
                  then own_property errorData "message"
                  else errorMsg
           end in
    if truthy (Get_opt nested "metadata") then
      VStr (ToString errorMsg +:+ " ("
            +:+ JSON_stringify (Get_opt nested "metadata") +:+ ")")
    else errorMsg
  else errorMsg.

(** The signature of a failure: [`${statusCode}: ${errorMsg}`]. *)
Definition error_key (e : js_error) : string :=
  status_code e +:+ ": " +:+ ToString (detailed_message e).

Definition error_summary : Type := list (string * list nat).

(** [if (!errorSummary[key]) errorSummary[key] = [];
     errorSummary[key].push(rowNumber)]. *)
Fixpoint summary_add (summary : error_summary) (key : string)
    (rowNumber : nat) : error_summary :=
  match summary with
  | [] => [(key, [rowNumber])]
  | (k, ns) :: rest =>
      if String.eqb k key then (k, ns ++ [rowNumber]) :: rest
      else (k, ns) :: summary_add rest key rowNumber
  end.

Definition summarize_from (summary : error_summary) (failed : list settled)
  : error_summary :=
  foldl (fun acc f =>
           match f with
           | Rejected error index => summary_add acc (error_key error) (index + 1)
           | Fulfilled _ _ => acc
           end) summary failed.

Definition summarize (failed : list settled) : error_summary :=
  summarize_from [] failed.

Definition row_numbers (indices : list nat) : list nat :=
  map (fun i => i + 1) indices.

(** What is printed when the retries are used up. *)
Definition final_report (rowsToProcess : list nat) (maxRetries : nat)
    (errorSummary : error_summary) : list event :=
  [ConsoleError (RowsFailed (length rowsToProcess) maxRetries);
   ConsoleError (FailedRows (row_numbers rowsToProcess));
   ConsoleError ErrorSummaryHeading]
  ++ flat_map (fun '(error, ns) =>
                 [ConsoleError (SummaryError error);
                  ConsoleError (AffectedRows ns)]) errorSummary.

(** [failed[0].error.response?.data], shown on the first retry. *)
Definition first_response_body (failed : list settled) : list event :=
  match failed with
  | Rejected error _ :: _ =>
      if truthy (error_data error)
      then [Warn (ResponseBody (JSON_stringify (error_data error)))]
      else []
  | _ => []
  end.

(** What is printed before a retry. *)
Definition retry_report (rowsToProcess : list nat) (retryCount maxRetries : nat)
    (errorSummary : error_summary) (failed : list settled) : list event :=
  [Warn (RowsFailedAttempt (length rowsToProcess) retryCount maxRetries);
   Warn (RetryingFailedRows (row_numbers rowsToProcess))]
  ++ map (fun '(error, ns) => Warn (ErrorType error ns)) errorSummary
  ++ (if (retryCount =? 1)%nat then first_response_body failed else [])
  ++ [Warn (WaitingBeforeRetry (2 ^ retryCount))].

Definition failed_message (count maxRetries : nat) : string :=
  pretty count +:+ " row(s) failed after " +:+ pretty maxRetries
  +:+ " retries".

(** The [while] loop of [processBatch].  Each turn that goes round again
    has raised [retryCount], so [maxRetries + 2] turns are fuel enough. *)
Fixpoint processBatch_loop (fuel : nat) (columnInfo : column_info)
    (modelName prompt : string) (plugins webSearchOptions : option value)
    (maxRetries : nat) (rowsToProcess : list nat)
    (allResults : list row_outcome) (retryCount : nat)
  : M (list row_outcome) :=
  match fuel with
  | 0 => out_of_fuel
  | S fuel' =>
      if (0 <? length rowsToProcess)%nat && (retryCount <=? maxRetries)%nat
      then
        results ← run_round columnInfo modelName prompt plugins
                    webSearchOptions rowsToProcess;
        let allResults := allResults ++ fulfilled_results results in
        let failed := rejected results in
        let rowsToProcess := map settled_index failed in
        if (0 <? length rowsToProcess)%nat then
          let retryCount := S retryCount in
          let errorSummary := summarize failed in
          if (maxRetries <? retryCount)%nat then
            emit_all (final_report rowsToProcess maxRetries errorSummary);;
            throw (Error (failed_message (length rowsToProcess) maxRetries))
          else
            emit_all (retry_report rowsToProcess retryCount maxRetries
                        errorSummary failed);;
            sleep (2 ^ retryCount * 1000);;
            processBatch_loop fuel' columnInfo modelName prompt plugins
              webSearchOptions maxRetries rowsToProcess allResults retryCount
        else
          processBatch_loop fuel' columnInfo modelName prompt plugins
            webSearchOptions maxRetries rowsToProcess allResults retryCount
      else mret allResults
  end.

(** [processBatch(rows, batchStart, batchEnd, columnInfo, modelName, prompt,
    plugins, webSearchOptions, maxRetries)]. *)
Definition processBatch (batchStart batchEnd : nat) (columnInfo : column_info)
    (modelName prompt : string) (plugins webSearchOptions : option value)
    (maxRetries : nat) : M (list row_outcome) :=
  processBatch_loop (maxRetries + 2) columnInfo modelName prompt plugins
    webSearchOptions maxRetries (seq batchStart (batchEnd - batchStart)) []
    0.

Definition default_maxRetries : nat := 10.

(** ** Column Driver *)

(** The settings a column and a column group share. *)
Record settings : Type := {
  cfg_modelName : string;
  cfg_batchSize : nat;
  cfg_cooldown : nat;
  cfg_prompt : string;
  cfg_modelPlugins : option value;
  cfg_webSearchOptions : option value
}.

(** An entry of [config.columns]: a single column, or [{ group: ... }]. *)
Inductive columnConfig : Type :=
| Column (columnName : string) (s : settings)
| Group (groupName : string) (columns : list string) (s : settings).

Definition settings_of (c : columnConfig) : settings :=
  match c with
  | Column _ s | Group _ _ s => s
  end.

Definition columnInfo_of (c : columnConfig) : column_info :=
  match c with
  | Column columnName _ => SingleColumn columnName
  | Group _ columns _ => GroupColumns columns
  end.

(** [x || null]. *)
Definition or_null (x : option value) : option value :=
  match x with
  | Some v => if truthy v then Some v else None
  | None => None
  end.

(** The running totals of [processColumn]. *)
Record totals : Type := {
  processedCount : nat;
  totalCost : float;
  totalPromptTokens : float;
  totalCompletionTokens : float
}.

Definition no_totals : totals :=
  {| processedCount := 0; totalCost := 0%float;
     totalPromptTokens := 0%float; totalCompletionTokens := 0%float |}.

Definition add_result (t : totals) (r : row_outcome) : totals :=
  {| processedCount := S (processedCount t);
     totalCost := (totalCost t + out_cost r)%float;
     totalPromptTokens := (totalPromptTokens t + out_promptTokens r)%float;
     totalCompletionTokens :=
       (totalCompletionTokens t + out_completionTokens r)%float |}.

(** What [processColumn] returns. *)
Record column_stats : Type := {
  stats_cost : float;
  stats_tokens : float;
  stats_promptTokens : float;
  stats_completionTokens : float
}.

Definition stats_of (t : totals) : column_stats :=
  {| stats_cost := totalCost t;
     stats_tokens := (totalPromptTokens t + totalCompletionTokens t)%float;
     stats_promptTokens := totalPromptTokens t;
     stats_completionTokens := totalCompletionTokens t |}.

(** [writeCSV(filePath, data, headers)]. *)
Definition writeCSV (filePath : string) (records : list Row)
    (headers : list string) : M unit := fun s =>
  let '(o, w) := writeRecords filePath records headers (world s) in
  let s' := {| rows := rows s; world := w;
               trace := trace s ++ [WriteCSV filePath records headers] |} in
  match o with
  | None => (Returned tt, s')
  | Some e => (Thrown e, s')
  end.

(** [Object.keys(rows[0])]. *)
Definition first_row_keys : M (list string) :=
  all ← get_rows;
  match all !! 0 with
  | Some r => mret (Object_keys r)
  | None => throw (TypeError "Cannot convert undefined or null to object")
  end.

(** The progress file step of [processColumn]: the whole row set, under the
    keys of the first row, in a [try] whose [catch] only warns. *)
Definition write_progress (progressFilePath : string) : M unit :=
  if String.eqb progressFilePath "" then mret tt
  else
    attempt ← settle (allHeaders ← first_row_keys;
                      all ← get_rows;
                      writeCSV progressFilePath all allHeaders);
    match attempt with
    | inr _ => mret tt
    | inl err => emit (Warn (ProgressWriteFailed (error_message err)))
    end.

(** The [for] loop of [processColumn] over the batches.  With a batch size
    of at least one, [totalRows + 1] turns are fuel enough. *)
Fixpoint processColumn_loop (fuel : nat) (columnInfo : column_info)
    (s : settings) (plugins webSearchOptions : option value)
    (progressFilePath : string) (totalRows i : nat) (t : totals)
  : M totals :=
  match fuel with
  | 0 => out_of_fuel
  | S fuel' =>
      if (i <? totalRows)%nat then
        let batchEnd := Nat.min (i + cfg_batchSize s) totalRows in
        batchResults ← processBatch i batchEnd columnInfo (cfg_modelName s)
                         (cfg_prompt s) plugins webSearchOptions
                         default_maxRetries;
        let t := foldl add_result t batchResults in
        write_progress progressFilePath;;
        (if (batchEnd <? totalRows)%nat && (0 <? cfg_cooldown s)%nat
         then sleep (cfg_cooldown s) else mret tt);;
        processColumn_loop fuel' columnInfo s plugins webSearchOptions
          progressFilePath totalRows (i + cfg_batchSize s) t
      else mret t
  end.

(** [processColumn(columnConfig, rows, columnIndex, totalColumns,
    progressFilePath)]; the two indices only label the status output. *)
Definition processColumn (c : columnConfig) (progressFilePath : string)
  : M column_stats :=
  all ← get_rows;
  let s := settings_of c in
  t ← processColumn_loop (length all + 1) (columnInfo_of c) s
         (or_null (cfg_modelPlugins s)) (or_null (cfg_webSearchOptions s))
         progressFilePath (length all) 0 no_totals;
  mret (stats_of t).

(** ** Run Orchestrator *)

Record config : Type := {
  inputFileName : string;
  outputFileName : string;
  columns : list columnConfig
}.

Definition lower (c : ascii) : ascii :=
  let n := nat_of_ascii c in
  if ((65 <=? n) && (n <=? 90))%nat then ascii_of_nat (n + 32) else c.

(** [outputFileName.replace(/\.csv$/i, '.progress')]. *)
Definition progress_path (outputFileName : string) : string :=
  let l := chars outputFileName in
  let n := length l in
  if bool_decide (map lower (drop (n - 4) l) = chars ".csv")
  then text (take (n - 4) l ++ chars ".progress")
  else outputFileName.

(** [x || 10] for the batch size. *)
Definition default_batchSize (n : nat) : nat :=
  if (n =? 0)%nat then 10 else n.

Definition with_defaults (s : settings) : settings :=
  {| cfg_modelName := cfg_modelName s;
     cfg_batchSize := default_batchSize (cfg_batchSize s);
     cfg_cooldown := cfg_cooldown s;
     cfg_prompt := cfg_prompt s;
     cfg_modelPlugins := cfg_modelPlugins s;
     cfg_webSearchOptions := cfg_webSearchOptions s |}.

Definition nonempty (s : string) : bool := negb (String.eqb s "").

(** The check of one entry of [config.columns]; [None] is [process.exit(1)],
    otherwise the entry with its defaults filled in. *)
Definition validate_column (c : columnConfig) : option columnConfig :=
  match c with
  | Group groupName columns s =>
      if nonempty groupName && nonempty (cfg_modelName s)
         && nonempty (cfg_prompt s) && (0 <? length columns)%nat
      then Some (Group groupName columns (with_defaults s)) else None
  | Column columnName s =>
      if nonempty columnName && nonempty (cfg_modelName s)
         && nonempty (cfg_prompt s)
      then Some (Column columnName (with_defaults s)) else None
  end.

Definition validate_columns (cs : list columnConfig)
  : option (list columnConfig) :=
  mapM validate_column cs.

(** The sums of [main]. *)
Definition add_stats (g c : column_stats) : column_stats :=
  {| stats_cost := (stats_cost g + stats_cost c)%float;
     stats_tokens := (stats_tokens g + stats_tokens c)%float;
     stats_promptTokens := (stats_promptTokens g + stats_promptTokens c)%float;
     stats_completionTokens :=
       (stats_completionTokens g + stats_completionTokens c)%float |}.

Definition no_stats : column_stats :=
  {| stats_cost := 0%float; stats_tokens := 0%float;
     stats_promptTokens := 0%float; stats_completionTokens := 0%float |}.

(** The [for] loop of [main] over the columns. *)
Fixpoint process_columns (cs : list columnConfig) (progressFilePath : string)
    (grand : column_stats) : M column_stats :=
  match cs with
  | [] => mret grand
  | c :: rest =>
      columnStats ← processColumn c progressFilePath;
      process_columns rest progressFilePath (add_stats grand columnStats)
  end.

Inductive exit_status : Type :=
| Completed (grand : column_stats)
| Exited (code : nat).

(** The body of the [try] of [main], from the loaded configuration and the
    loaded rows on. *)
Definition main_body (cfg : config) : M exit_status :=
  if negb (nonempty (inputFileName cfg) && nonempty (outputFileName cfg))
  then mret (Exited 1)
  else
    match validate_columns (columns cfg) with
    | None => mret (Exited 1)
    | Some cs =>
        all ← get_rows;
        if (length all =? 0)%nat then mret (Exited 1)
        else
          let progressFilePath := progress_path (outputFileName cfg) in
          grand ← process_columns cs progressFilePath no_stats;
          allHeaders ← first_row_keys;
          all ← get_rows;
          writeCSV (outputFileName cfg) all allHeaders;;
          mret (Completed grand)
    end.

(** [main]: the [catch] reports the error and ends the process. *)
Definition main (cfg : config) : M exit_status :=
  attempt ← settle (main_body cfg);
  match attempt with
  | inr st => mret st
  | inl error =>
      emit (ConsoleError (FatalError (error_message error)));;
      mret (Exited 1)
  end.

End Engine.

(** ** The earlier revision of the Batch Retry Controller

    The revision of the program in which [processBatch] takes a single
    column name and retries the whole batch when any row fails.  When a
    round fails, [Promise.all] rejects with the rejection that arrives
    first; the model takes the first in array order and lets every task of
    the round finish before the retry. *)
Module Previous.
Section Engine.
Context {platform : Platform}.

Definition callOpenRouterAPI (modelName prompt : string) : M api_result :=
  body ← post {| req_model := modelName; req_content := prompt;
                 req_plugins := None; req_web_search_options := None |};
  mret (read_completion body).

(** The asynchronous function started for each row of the batch. *)
Definition rowPromise (row rowIndex : nat) (columnName modelName prompt : string)
  : M row_outcome :=
  all ← get_rows;
  filledPrompt ← lift (fillPromptTemplate prompt (all !! row));
  apiResult ← callOpenRouterAPI modelName filledPrompt;
  row_assign row columnName (VStr (result apiResult));;
  mret {| success := true;
          out_cost := cost apiResult;
          out_promptTokens := promptTokens apiResult;
          out_completionTokens := completionTokens apiResult;
          rowIndex := rowIndex |}.

Fixpoint batchPromises (columnName modelName prompt : string)
    (indices : list nat) : M (list (js_error + row_outcome)) :=
  match indices with
  | [] => mret []
  | j :: rest =>
      p ← settle (rowPromise j j columnName modelName prompt);
      ps ← batchPromises columnName modelName prompt rest;
      mret (p :: ps)
  end.

(** [Promise.all]. *)
Fixpoint Promise_all (ps : list (js_error + row_outcome))
  : js_error + list row_outcome :=
  match ps with
  | [] => inr []
  | inl e :: _ => inl e
  | inr r :: rest =>
      match Promise_all rest with
      | inl e => inl e
      | inr rs => inr (r :: rs)
      end
  end.

(** [error.response?.data?.error?.message || error.message]. *)
Definition batch_error_message (e : js_error) : string :=
  ToString (js_or (Get_opt (Get_opt (error_data e) "error") "message")
                  (VStr (error_message e))).

(** The [while] loop; [None] is the [undefined] of falling off its end. *)
Fixpoint processBatch_loop (fuel : nat) (batchStart batchEnd : nat)
    (columnName modelName prompt : string) (maxRetries retryCount : nat)
  : M (option (list row_outcome)) :=
  match fuel with
  | 0 => out_of_fuel
  | S fuel' =>
      if (retryCount <=? maxRetries)%nat then
        ps ← batchPromises columnName modelName prompt
               (seq batchStart (batchEnd - batchStart));
        match Promise_all ps with
        | inr batchResults => mret (Some batchResults)
        | inl error =>
            let retryCount := S retryCount in
            let errorMsg := batch_error_message error in
            let statusCode := status_code error in
            if (maxRetries <? retryCount)%nat then
              emit_all [ConsoleError (BatchFailed maxRetries);
                        ConsoleError (StatusAndError statusCode errorMsg)];;
              throw (Error ("Batch failed after " +:+ pretty maxRetries
                            +:+ " retries: " +:+ errorMsg))
            else
              emit_all [Warn (BatchFailedAttempt retryCount maxRetries);
                        Warn (StatusAndError statusCode errorMsg);
                        Warn (RetryingEntireBatch (2 ^ retryCount))];;
              sleep (2 ^ retryCount * 1000);;
              processBatch_loop fuel' batchStart batchEnd columnName
                modelName prompt maxRetries retryCount
        end
      else mret None
  end.

(** [processBatch(rows, batchStart, batchEnd, columnName, modelName, prompt,
    maxRetries)]. *)
Definition processBatch (batchStart batchEnd : nat)
    (columnName modelName prompt : string) (maxRetries : nat)
  : M (option (list row_outcome)) :=
  processBatch_loop (maxRetries + 2) batchStart batchEnd columnName modelName
    prompt maxRetries 0.

End Engine.
End Previous.

(** ** The earlier revision of the Column Driver and the Run Orchestrator

    In the earlier revision a column is always a single column, there is no
    progress file, and [main] checks every entry of the configuration for a
    column name: an entry that is a column group has none. *)
Module PreviousRun.
Section Engine.
Context {platform : Platform}.

(** [for (const result of batchResults)] on [undefined]. *)
Definition not_iterable : js_error :=
  TypeError "batchResults is not iterable".

(** The [for] loop of [processColumn] over the batches. *)
Fixpoint processColumn_loop (fuel : nat) (columnName : string) (s : settings)
    (totalRows i : nat) (t : totals) : M totals :=
  match fuel with
  | 0 => out_of_fuel
  | S fuel' =>
      if (i <? totalRows)%nat then
        let batchEnd := Nat.min (i + cfg_batchSize s) totalRows in
        batchResults ← Previous.processBatch i batchEnd columnName
                         (cfg_modelName s) (cfg_prompt s) default_maxRetries;
        match batchResults with
        | None => throw not_iterable
        | Some batchResults =>
            let t := foldl add_result t batchResults in
            (if (batchEnd <? totalRows)%nat && (0 <? cfg_cooldown s)%nat
             then sleep (cfg_cooldown s) else mret tt);;
            processColumn_loop fuel' columnName s totalRows
              (i + cfg_batchSize s) t
        end
      else mret t
  end.

(** [processColumn(columnConfig, rows, columnIndex, totalColumns)]. *)
Definition processColumn (columnName : string) (s : settings)
  : M column_stats :=
  all ← get_rows;
  t ← processColumn_loop (length all + 1) columnName s (length all) 0 no_totals;
  mret (stats_of t).

(** The check of one entry of [config.columns]. *)
Definition validate_column (c : columnConfig)
  : option (string * settings) :=
  match c with
  | Column columnName s =>
      if nonempty columnName && nonempty (cfg_modelName s)
         && nonempty (cfg_prompt s)
      then Some (columnName, with_defaults s) else None
  | Group _ _ _ => None
  end.

Definition validate_columns (cs : list columnConfig)
  : option (list (string * settings)) :=
  mapM validate_column cs.

(** The [for] loop of [main] over the columns. *)
Fixpoint process_columns (cs : list (string * settings))
    (grand : column_stats) : M column_stats :=
  match cs with
  | [] => mret grand
  | (columnName, s) :: rest =>
      columnStats ← processColumn columnName s;
      process_columns rest (add_stats grand columnStats)
  end.

Definition main_body (cfg : config) : M exit_status :=
  if negb (nonempty (inputFileName cfg) && nonempty (outputFileName cfg))
  then mret (Exited 1)
  else
    match validate_columns (columns cfg) with
    | None => mret (Exited 1)
    | Some cs =>
        all ← get_rows;
        if (length all =? 0)%nat then mret (Exited 1)
        else
          grand ← process_columns cs no_stats;
          allHeaders ← first_row_keys;
          all ← get_rows;
          writeCSV (outputFileName cfg) all allHeaders;;
          mret (Completed grand)
    end.

Definition main (cfg : config) : M exit_status :=
  attempt ← settle (main_body cfg);
  match attempt with
  | inr st => mret st
  | inl error =>
      emit (ConsoleError (FatalError (error_message error)));;
      mret (Exited 1)
  end.

End Engine.
End PreviousRun.

(** ** A platform for the examples

    The world is a script: the answers the API will give, in order, and how
    the CSV writes will end, in order; when a script runs out the API
    answers with [quiet_answer] and the writes succeed.  [JSON.parse] knows
    the documents of [documents] and rejects every other text. *)

Definition quote : string := String (ascii_of_nat 34) EmptyString.

(** The text [{"A":"x","B":"y"}]. *)
Definition doc_AB : string :=
  "{" +:+ quote +:+ "A" +:+ quote +:+ ":" +:+ quote +:+ "x" +:+ quote +:+ ","
  +:+ quote +:+ "B" +:+ quote +:+ ":" +:+ quote +:+ "y" +:+ quote +:+ "}".

(** The text [{"A":"x"}]. *)
Definition doc_A : string :=
  "{" +:+ quote +:+ "A" +:+ quote +:+ ":" +:+ quote +:+ "x" +:+ quote +:+ "}".

(** The text [{"A":0,"B":"y"}]. *)
Definition doc_A0 : string :=
  "{" +:+ quote +:+ "A" +:+ quote +:+ ":0,"
  +:+ quote +:+ "B" +:+ quote +:+ ":" +:+ quote +:+ "y" +:+ quote +:+ "}".

Definition documents : list (string * value) :=
  [(doc_AB, VObj [("A", VStr "x"); ("B", VStr "y")]);
   (doc_A, VObj [("A", VStr "x")]);
   (doc_A0, VObj [("A", VNum 0%float); ("B", VStr "y")]);
   ("null", VNull)].

Definition demo_parse (jsonText : string) : parse_result :=
  match row_get documents jsonText with
  | Some v => Parsed v
  | None => SyntaxError "Unexpected token"
  end.

Record script : Type := {
  answers : list http_outcome;
  write_results : list (option js_error)
}.

Definition answer (resultText : string) : http_outcome :=
  HttpOk {| content := resultText; usage := None |}.

Definition quiet_answer : http_outcome := answer "ok".

Definition demo_post (req : request) (w : script) : http_outcome * script :=
  match answers w with
  | a :: rest => (a, {| answers := rest; write_results := write_results w |})
  | [] => (quiet_answer, w)
  end.

Definition demo_write (path : string) (records : list Row)
    (headers : list string) (w : script) : option js_error * script :=
  match write_results w with
  | r :: rest => (r, {| answers := answers w; write_results := rest |})
  | [] => (None, w)
  end.

Definition demo : Platform :=
  {| JSON_parse := demo_parse;
     JSON_stringify := fun _ => "{}";
     String_of_other := fun _ => "[value]";
     World := script;
     axios_post := demo_post;
     writeRecords := demo_write |}.

Definition demo_state (rs : list Row) (api : list http_outcome)
    (writes : list (option js_error)) : @state demo :=
  {| rows := rs;
     world := {| answers := api; write_results := writes |} : @World demo;
     trace := [] |}.

Definition refused : http_outcome :=
  HttpFailed (AxiosError "Request failed with status code 429"
                (Some {| status := 429; data := VStr "slow down" |})).

(** * Auxiliary definitions

    What the statements below speak about (projections of the trace, the
    rounds of a batch, the checkpoints of a column) and what their proofs
    use. *)

Section Observations.
Context {platform : Platform}.

Definition prepend (p : list ascii) (x : list ascii * list ascii)
  : list ascii * list ascii := (p ++ x.1, x.2).

(** What has been read when the scanner is in a given state. *)
Definition read_so_far (st : scan_state) (p : list ascii) : Prop :=
  match st with
  | NeedWord => p = []
  | InWord => placeholder_name p
  | InSpace =>
      exists n sp, p = n ++ sp /\ placeholder_name n /\ sp <> []
                   /\ Forall (fun c => is_space c = true) sp
  end.

(** Sequencing of two replacements. *)
Definition and_then (x : js_error + list ascii)
    (f : list ascii -> js_error + list ascii) : js_error + list ascii :=
  match x with
  | inl e => inl e
  | inr a => f a
  end.

(** What the Template Filler puts in the place of a placeholder. *)
Definition filled_in (row : Row) (name : string) : string :=
  match row_get row name with
  | None | Some VUndefined => "{{" +:+ name +:+ "}}"
  | Some v => ToString v
  end.

(** Projections of a trace. *)
Definition posts (evs : list event) : list request :=
  omap (fun ev => match ev with Post req => Some req | _ => None end) evs.

Definition sleeps (evs : list event) : list nat :=
  omap (fun ev => match ev with Sleep ms => Some ms | _ => None end) evs.

Definition writes (evs : list event) : list (string * list Row * list string) :=
  omap (fun ev => match ev with
                  | WriteCSV path records headers => Some (path, records, headers)
                  | _ => None
                  end) evs.

Definition retried (evs : list event) : list (list nat) :=
  omap (fun ev => match ev with
                  | Warn (RetryingFailedRows ns) => Some ns
                  | _ => None
                  end) evs.

Definition is_console_error (ev : event) : Prop :=
  match ev with ConsoleError _ => True | _ => False end.

(** [runs m s Q]: from [s] the computation [m] ends with an outcome, a
    state and newly observed events that satisfy [Q]. *)
Definition runs {A : Type} (m : M A) (s : state)
    (Q : outcome A -> state -> list event -> Prop) : Prop :=
  exists o s' evs, m s = (o, s') /\ trace s' = trace s ++ evs /\ Q o s' evs.

(** The row after [row[c] = f c] for each declared column in turn. *)
Definition set_columns (f : string -> value) (r : Row) (columns : list string)
  : Row :=
  foldl (fun r c => row_set r c (f c)) r columns.

Definition with_row (s : state) (i : nat) (r : Row) : state :=
  {| rows := <[i := r]> (rows s); world := world s; trace := trace s |}.

Definition with_events (s : state) (evs : list event) : state :=
  {| rows := rows s; world := world s; trace := trace s ++ evs |}.

Definition nullish (v : value) : bool :=
  match v with VUndefined | VNull => true | _ => false end.

(** What the catch block of the grouped branch prints. *)
Definition parse_failure_report (rowIndex : nat) (parseError : js_error)
    (apiResult : api_result) : list event :=
  [ConsoleError (RowParseFailed (rowIndex + 1) (error_message parseError));
   ConsoleError (ResponseShown (substring0 200 (result apiResult)))].

(** The row the grouped branch leaves behind. *)
Definition distributed (columns : list string) (apiResult : api_result)
    (r : Row) : Row :=
  match JSON_parse (unfence (result apiResult)), columns with
  | Parsed v, _ :: _ =>
      if nullish v then set_columns (fun _ => undetectable) r columns
      else set_columns (fun c => js_or (own_property v c) undetectable)
             r columns
  | Parsed v, [] => r
  | SyntaxError _, _ => set_columns (fun _ => undetectable) r columns
  end.

Definition newline : string := String line_feed EmptyString.

(** The events of one row task: at most one post, then console errors. *)
Definition task_events (evs : list event) : Prop :=
  evs = [] \/ exists req errs, evs = Post req :: errs /\ Forall is_console_error errs.

(** A success carries the index of its own row. *)
Definition well_indexed (r : settled) : Prop :=
  match r with
  | Fulfilled res i => rowIndex res = i
  | Rejected _ _ => True
  end.

Definition posted (evs : list event) : Prop :=
  exists req errs, evs = Post req :: errs /\ Forall is_console_error errs.

(** The events of a round: the concatenated events of its tasks. *)
Definition round_events (evs : list event) : Prop :=
  sleeps evs = [] /\ writes evs = [] /\ retried evs = [].

Fixpoint summary_get (summary : error_summary) (key : string)
  : option (list nat) :=
  match summary with
  | [] => None
  | (k, ns) :: rest => if String.eqb k key then Some ns else summary_get rest key
  end.

(** The row numbers of the failures whose signature is [key], in order. *)
Definition rows_with_key (key : string) (failed : list settled) : list nat :=
  omap (fun f => match f with
                 | Rejected error index =>
                     if String.eqb (error_key error) key then Some (index + 1)
                     else None
                 | Fulfilled _ _ => None
                 end) failed.

Definition is_warning (ev : event) : Prop :=
  match ev with Warn _ => True | _ => False end.

Definition backoff (r : nat) : nat := 2 ^ r * 1000.

(** What every run of the retry loop satisfies. *)
Definition loop_post (maxRetries : nat) (l : list nat)
    (acc : list row_outcome) (rc : nat) (s : state)
    (o : outcome (list row_outcome)) (s' : state) (evs : list event) : Prop :=
  length (rows s') = length (rows s) /\ writes evs = []
  /\ exists R,
       sleeps evs = map backoff (seq (S rc) R)
       /\ length (retried evs) = R /\ rc + R <= maxRetries
       /\ match o with
          | Returned res =>
              exists more, res = acc ++ more /\ map rowIndex more ≡ₚ l
          | Thrown e =>
              exists failed before,
                failed <> [] /\ Forall (fun f => is_rejected f = true) failed
                /\ (forall i, i ∈ map settled_index failed -> i ∈ l)
                /\ e = Error (failed_message (length failed) maxRetries)
                /\ evs = before
                         ++ final_report (map settled_index failed) maxRetries
                              (summarize failed)
                /\ rc + R = maxRetries
          | OutOfFuel => False
          end.

Definition as_promise (r : settled) : js_error + row_outcome :=
  match r with
  | Fulfilled res _ => inr res
  | Rejected error _ => inl error
  end.

(** What the progress file step leaves in the trace: the write, and the
    warning when the write failed. *)
Definition checkpoint_events (path : string) (records : list Row)
    (headers : list string) (o : option js_error) : list event :=
  WriteCSV path records headers
  :: match o with
     | Some e => [Warn (ProgressWriteFailed (error_message e))]
     | None => []
     end.

(** The number of batches from row [i] on: the ceiling of the rows left
    over the batch size. *)
Definition batches_from (totalRows batchSize i : nat) : nat :=
  (totalRows - i + batchSize - 1) / batchSize.

(** A checkpoint: a write to the given path of as many records as there
    are rows. *)
Definition checkpoint_of (path : string) (totalRows : nat)
    (w : string * list Row * list string) : Prop :=
  w.1.1 = path /\ length w.1.2 = totalRows.

(** An extension that the expression [\.csv$] with the flag [i] matches. *)
Definition csv_suffix (ext : string) : Prop :=
  exists c s v : ascii,
    ext = String "." (String c (String s (String v EmptyString)))
    /\ (c = "c" \/ c = "C")%char /\ (s = "s" \/ s = "S")%char
    /\ (v = "v" \/ v = "V")%char.

(** A text in which the placeholder expression has a match. *)
Definition has_placeholder (s : list ascii) : Prop :=
  exists pre n post, placeholder_name n /\ s = pre ++ placeholder n ++ post.

(** An opening or a closing brace. *)
Definition is_brace (c : ascii) : bool := ascii_eqb c "{" || ascii_eqb c "}".

(** The fields a column specification assigns. *)
Definition target_columns (columnInfo : column_info) : list string :=
  match columnInfo with
  | SingleColumn columnName => [columnName]
  | GroupColumns columns => columns
  end.

(** [r'] is [r] after assignments to fields of [targets]: the other fields
    have their values, the keys of [r] are in their places, and the keys
    that came new, all of them targets, follow. *)
Definition row_kept (targets : list string) (r r' : Row) : Prop :=
  (forall k, k ∉ targets -> row_get r' k = row_get r k)
  /\ exists added,
       Object_keys r' = Object_keys r ++ added
       /\ Forall (fun k => k ∈ targets) added.

(** [rs'] is [rs] after assignments to fields of [targets] in rows whose
    index satisfies [P]. *)
Definition rows_kept (P : nat -> Prop) (targets : list string)
    (rs rs' : list Row) : Prop :=
  length rs' = length rs
  /\ forall i r r',
       rs !! i = Some r -> rs' !! i = Some r' ->
       (~ P i -> r' = r) /\ row_kept targets r r'.

(** The fields a configuration assigns. *)
Definition config_targets (cs : list columnConfig) : list string :=
  flat_map (fun c => target_columns (columnInfo_of c)) cs.

(** A row that holds what a column specification asks for: a string under
    the name of a single column; a truthy value under every name of a
    group. *)
Definition filled (columnInfo : column_info) (r : Row) : Prop :=
  match columnInfo with
  | SingleColumn columnName => exists t, row_get r columnName = Some (VStr t)
  | GroupColumns columns =>
      forall c, c ∈ columns ->
                exists v, row_get r c = Some v /\ truthy v = true
  end.

(** What the grouped branch prints: nothing when the response decodes to a
    value whose properties can be read, the report of the catch block
    otherwise. *)
Definition distribute_report (rowIndex : nat)
    (columns : list string) (apiResult : api_result) : list event :=
  match JSON_parse (unfence (result apiResult)), columns with
  | Parsed v, c :: _ =>
      match Get v c with
      | inl e => parse_failure_report rowIndex e apiResult
      | inr _ => []
      end
  | Parsed v, [] => []
  | SyntaxError m, _ => parse_failure_report rowIndex (Error m) apiResult
  end.

(** The request a row task sends. *)
Definition row_request (modelName filledPrompt : string)
    (plugins webSearchOptions : option value) : request :=
  {| req_model := modelName; req_content := filledPrompt;
     req_plugins := plugins_given plugins;
     req_web_search_options := options_given webSearchOptions |}.

(** The row a task leaves behind when its request was answered. *)
Definition row_after (columnInfo : column_info)
    (apiResult : api_result) (r : Row) : Row :=
  match columnInfo with
  | SingleColumn columnName => row_set r columnName (VStr (result apiResult))
  | GroupColumns columns => distributed columns apiResult r
  end.

(** What a task prints after its request was answered. *)
Definition task_report (rowIndex : nat)
    (columnInfo : column_info) (apiResult : api_result) : list event :=
  match columnInfo with
  | SingleColumn _ => []
  | GroupColumns columns => distribute_report rowIndex columns apiResult
  end.

(** What a task returns after its request was answered. *)
Definition outcome_of (apiResult : api_result) (rowIndex : nat) : row_outcome :=
  {| success := true;
     out_cost := cost apiResult;
     out_promptTokens := promptTokens apiResult;
     out_completionTokens := completionTokens apiResult;
     rowIndex := rowIndex |}.

(** A row that has every field of [targets]. *)
Definition has_fields (targets : list string) (r : Row) : Prop :=
  forall k, k ∈ targets -> k ∈ Object_keys r.

(** The settings of an entry after the defaults of [main] are filled in. *)
Definition defaults_applied (c c' : columnConfig) : Prop :=
  columnInfo_of c' = columnInfo_of c
  /\ cfg_batchSize (settings_of c')
     = (if (cfg_batchSize (settings_of c) =? 0)%nat then 10
        else cfg_batchSize (settings_of c))
  /\ cfg_cooldown (settings_of c') = cfg_cooldown (settings_of c)
  /\ cfg_modelName (settings_of c') = cfg_modelName (settings_of c)
  /\ cfg_prompt (settings_of c') = cfg_prompt (settings_of c).

(** An entry that [main] refuses. *)
Definition incomplete (c : columnConfig) : Prop :=
  match c with
  | Column columnName st =>
      columnName = "" \/ cfg_modelName st = "" \/ cfg_prompt st = ""
  | Group groupName columns st =>
      groupName = "" \/ cfg_modelName st = "" \/ cfg_prompt st = ""
      \/ columns = []
  end.

(** All the row numbers a summary lists. *)
Definition summary_rows (summary : error_summary) : list nat :=
  concat (map snd summary).

(** The message of the error the earlier revision throws. *)
Definition batch_failed_message (maxRetries : nat)
    (error : js_error) : string :=
  "Batch failed after " +:+ pretty maxRetries +:+ " retries: "
  +:+ Previous.batch_error_message error.

(** What every run of the retry loop of the earlier revision satisfies. *)
Definition previous_post
    (batchStart batchEnd maxRetries rc : nat) (s : state)
    (o : outcome (option (list row_outcome))) (s' : state)
    (evs : list event) : Prop :=
  length (rows s') = length (rows s) /\ writes evs = []
  /\ exists R,
       sleeps evs = map backoff (seq (S rc) R) /\ rc + R <= maxRetries
       /\ (batchEnd <= length (rows s) ->
           length (posts evs) = (R + 1) * (batchEnd - batchStart))
       /\ match o with
          | Returned (Some res) =>
              map rowIndex res = seq batchStart (batchEnd - batchStart)
          | Returned None => False
          | Thrown e =>
              rc + R = maxRetries
              /\ exists error before,
                   e = Error (batch_failed_message maxRetries error)
                   /\ evs = before
                            ++ [ConsoleError (BatchFailed maxRetries);
                                ConsoleError
                                  (StatusAndError (status_code error)
                                     (Previous.batch_error_message error))]
          | OutOfFuel => False
          end.

(** A text that neither starts nor ends with white space. *)
Definition trimmed (t : string) : Prop :=
  (forall c rest, chars t = c :: rest -> is_space c = false)
  /\ (forall c init, chars t = init ++ [c] -> is_space c = false).

(** A text that does not start with white space. *)
Definition no_leading_space (l : list ascii) : Prop :=
  match l with
  | c :: _ => is_space c = false
  | [] => True
  end.

(** A template in which the placeholder expression has a match. *)
Definition with_placeholder (prompt : string) : Prop :=
  exists pre name post,
    placeholder_name (chars name)
    /\ prompt = pre +:+ "{{" +:+ name +:+ "}}" +:+ post.

(** The request of the task of a row: the template filled from the row.
    (A row that is missing makes a filler with a placeholder throw, and
    then there is no request.) *)
Definition task_request (modelName prompt : string)
    (plugins webSearchOptions : option value) (row : option Row) : request :=
  row_request modelName
    (match fillPromptTemplate prompt row with
     | inr filledPrompt => filledPrompt
     | inl _ => ""
     end) plugins webSearchOptions.

(** The events of a round over the rows [l]: one request per row of [l],
    in the order of [l], and neither a pause, nor a write, nor the
    announcement of a retry. *)
Definition round_trace (req : nat -> request) (l : list nat)
    (round : list event) : Prop :=
  posts round = map req l /\ sleeps round = [] /\ writes round = []
  /\ retried round = [].

(** What a settled task says of its row: a fulfilled task has assigned the
    result to the row as it was, a rejected task has left the row alone. *)
Definition settled_row (columnInfo : column_info) (rs rs' : list Row)
    (x : settled) : Prop :=
  match x with
  | Fulfilled res i =>
      exists r body,
        rs !! i = Some r
        /\ rs' !! i = Some (row_after columnInfo (read_completion body) r)
        /\ res = outcome_of (read_completion body) i
  | Rejected _ i => rs' !! i = rs !! i
  end.

(** [batch_trace req maxRetries rc l evs done left]: the events [evs] of a
    batch from the round over the rows [l] on, [rc] retries having been
    made before; [done] lists the rows in the order in which they
    succeeded, [left] the rows that have not succeeded when the batch ends.

    - The batch returns: the round over [l] is the last, all its rows
      succeed.
    - The batch gives up: [rc] is [maxRetries], the round over [l] is the
      last, the rows it rejects, [failed], are reported and left.
    - The batch retries: [rc] is below [maxRetries]; the rows [l'] that the
      round over [l] rejects are announced in a report that sends nothing,
      one pause of [2 ^ (rc + 1)] seconds follows, and then the batch goes
      on from the round over [l']; the other rows of [l] have succeeded. *)
Inductive batch_trace (req : nat -> request) (maxRetries : nat)
  : nat -> list nat -> list event -> list nat -> list nat -> Prop :=
| batch_returns rc l round :
    round_trace req l round ->
    batch_trace req maxRetries rc l round l []
| batch_gives_up l round failed :
    round_trace req l round ->
    failed <> [] ->
    Forall (fun f => is_rejected f = true) failed ->
    sublist (map settled_index failed) l ->
    batch_trace req maxRetries maxRetries l
      (round ++ final_report (map settled_index failed) maxRetries
                  (summarize failed))
      (list_difference l (map settled_index failed))
      (map settled_index failed)
| batch_retries rc l round l' report rest done left :
    rc < maxRetries ->
    round_trace req l round ->
    l' <> [] -> sublist l' l ->
    posts report = [] -> sleeps report = [] -> writes report = [] ->
    retried report = [row_numbers l'] ->
    batch_trace req maxRetries (S rc) l' rest done left ->
    batch_trace req maxRetries rc l
      (round ++ report ++ [Sleep (2 ^ S rc * 1000)] ++ rest)
      (list_difference l l' ++ done) left.

(** The batches of a run over [totalRows] rows: those of all its columns. *)
Definition batches_of (totalRows : nat) (cs : list columnConfig) : nat :=
  sum_list
    (map (fun c => batches_from totalRows (cfg_batchSize (settings_of c)) 0)
       cs).

End Observations.

(** * Scenarios on the example platform *)

Section Scenarios.
#[local] Existing Instance demo.

Definition returned {A : Type} (d : A) (x : outcome A * @state demo) : A :=
  match x.1 with
  | Returned a => a
  | _ => d
  end.

Definition three_rows : list Row :=
  [[("Video", VStr "a")]; [("Video", VStr "b")]; [("Video", VStr "c")]].

(** The second of three rows is refused once. *)
Definition one_refusal : @state demo :=
  demo_state three_rows [answer " a "; refused; answer "c"; answer "b"] [].

Definition all_answered : @state demo :=
  demo_state three_rows [answer " a "; answer "b"; answer "c "] [].

Definition only_round : outcome (list settled) * @state demo :=
  @run_round demo (SingleColumn "S") "m" "P {{Video}}" None None (seq 0 3)
    all_answered.

Definition always_refused : @state demo :=
  demo_state three_rows (repeat refused 22) [].

Definition summary_settings (batchSize : nat) : settings :=
  {| cfg_modelName := "m"; cfg_batchSize := batchSize; cfg_cooldown := 5;
     cfg_prompt := "P {{Video}}"; cfg_modelPlugins := None;
     cfg_webSearchOptions := None |}.



Definition one_row : list Row := [[("Video", VStr "a")]].

Definition three_columns : config :=
  {| inputFileName := "in.csv"; outputFileName := "out.csv";
     columns := [Column "A" (summary_settings 10);
                 Column "B" (summary_settings 10);
                 Column "C" (summary_settings 10)] |}.

(** The first column is answered, the second is refused every time. *)
Definition second_column_fails : @state demo :=
  demo_state one_row (answer "x" :: repeat refused 11) [].

Definition after_first_column : outcome column_stats * @state demo :=
  @process_columns demo [Column "A" (summary_settings 10)] "out.progress"
    no_stats second_column_fails.

Definition demo_result (t : string) : api_result :=
  {| result := t; cost := 0%float; promptTokens := 0%float;
     completionTokens := 0%float; totalTokens := 0%float |}.

Definition second_column_failed : @state demo :=
  (processColumn (Column "B" (summary_settings 10)) "out.progress"
     after_first_column.2).2.

(** The row numbers printed in the failure reports of a trace. *)
Definition reported_rows (evs : list event) : list (list nat) :=
  omap (fun ev => match ev with
                  | ConsoleError (FailedRows ns) => Some ns
                  | _ => None
                  end) evs.

Definition one_column : config :=
  {| inputFileName := "in.csv"; outputFileName := "out.csv";
     columns := [Column "A" (summary_settings 10)] |}.

Definition answered_run : outcome exit_status * @state demo :=
  main one_column (demo_state one_row [answer "x"] []).

Definition answered_stats : column_stats :=
  match answered_run.1 with
  | Returned (Completed grand) => grand
  | _ => no_stats
  end.

(** A configuration whose second entry is a group without columns. *)
Definition empty_group : config :=
  {| inputFileName := "in.csv"; outputFileName := "out.csv";
     columns := [Column "A" (summary_settings 10);
                 Group "g" [] (summary_settings 10)] |}.

(** The first of two rows is answered, the second is refused every time. *)
Definition second_row_refused : @state demo :=
  demo_state three_rows (answer "a" :: repeat refused 11) [].

Definition gave_up : outcome (list row_outcome) * @state demo :=
  processBatch 0 2 (SingleColumn "S") "m" "P {{Video}}" None None
    default_maxRetries second_row_refused.

End Scenarios.

(** * Properties *)

(** * Lemmas on strings and character classes *)

Lemma chars_text (l : list ascii) : chars (text l) = l.
Proof. apply list_ascii_of_string_of_list_ascii. Qed.

Lemma text_chars (s : string) : text (chars s) = s.
Proof. apply string_of_list_ascii_of_string. Qed.

Lemma chars_app (a b : string) : chars (a +:+ b) = chars a ++ chars b.
Proof. induction a as [|c a IH]; simpl; [done | by rewrite IH]. Qed.

Lemma text_app (a b : list ascii) : text (a ++ b) = text a +:+ text b.
Proof. induction a as [|c a IH]; simpl; [done | by rewrite IH]. Qed.

Lemma length_chars (s : string) : length (chars s) = String.length s.
Proof. induction s as [|c s IH]; simpl; [done | by rewrite IH]. Qed.

Lemma chars_inj (a b : string) : chars a = chars b -> a = b.
Proof. intros H. by rewrite <- (text_chars a), H, text_chars. Qed.

Lemma ascii_eqb_eq (a b : ascii) : ascii_eqb a b = true <-> a = b.
Proof. apply Ascii.eqb_eq. Qed.

Lemma word_not_space (c : ascii) : is_word c = true -> is_space c = false.
Proof. destruct c as [[] [] [] [] [] [] [] []]; vm_compute; congruence. Qed.

Lemma word_not_brace (c : ascii) :
  is_word c = true -> ascii_eqb c "}" = false /\ ascii_eqb c "{" = false.
Proof. destruct c as [[] [] [] [] [] [] [] []]; vm_compute; intuition congruence. Qed.

Lemma space_not_brace (c : ascii) :
  is_space c = true -> ascii_eqb c "}" = false /\ ascii_eqb c "{" = false.
Proof. destruct c as [[] [] [] [] [] [] [] []]; vm_compute; intuition congruence. Qed.

(** * The placeholder scanner recognises the placeholder expression *)

Lemma scan_word_char st c s :
  is_word c = true ->
  scan_name st (c :: s) = prepend [c] <$> scan_name InWord s.
Proof.
  intros Hc. simpl. rewrite Hc.
  destruct (scan_name InWord s) as [[n r]|]; reflexivity.
Qed.

Lemma scan_word st w X :
  w <> [] -> Forall (fun c => is_word c = true) w ->
  scan_name st (w ++ X) = prepend w <$> scan_name InWord X.
Proof.
  intros Hne Hw. revert st. induction Hw as [|c w Hc Hw IH]; [done|].
  intros st. simpl app. rewrite scan_word_char by done.
  destruct w as [|c' w'].
  - simpl. destruct (scan_name InWord X) as [[n r]|]; reflexivity.
  - rewrite IH by done.
    destruct (scan_name InWord X) as [[n r]|]; reflexivity.
Qed.

Lemma scan_space_char st c s :
  is_space c = true -> st <> NeedWord ->
  scan_name st (c :: s) = prepend [c] <$> scan_name InSpace s.
Proof.
  intros Hc Hst. simpl.
  destruct (is_word c) eqn:Hw.
  { apply word_not_space in Hw. congruence. }
  rewrite Hc. destruct st; [done| |];
    destruct (scan_name InSpace s) as [[n r]|]; reflexivity.
Qed.

Lemma scan_space st sp X :
  sp <> [] -> Forall (fun c => is_space c = true) sp -> st <> NeedWord ->
  scan_name st (sp ++ X) = prepend sp <$> scan_name InSpace X.
Proof.
  intros Hne Hsp. revert st. induction Hsp as [|c sp Hc Hsp IH]; [done|].
  intros st Hst. simpl app. rewrite scan_space_char by done.
  destruct sp as [|c' sp'].
  - simpl. destruct (scan_name InSpace X) as [[n r]|]; reflexivity.
  - rewrite IH by done.
    destruct (scan_name InSpace X) as [[n r]|]; reflexivity.
Qed.

Lemma scan_close r : scan_name InWord (chars "}}" ++ r) = Some ([], r).
Proof. reflexivity. Qed.

Lemma scan_name_through n :
  placeholder_name n ->
  forall st X, scan_name st (n ++ X) = prepend n <$> scan_name InWord X.
Proof.
  induction 1 as [w Hne Hw | n sp w Hn IH Hsp1 Hsp Hw1 Hw]; intros st X.
  - by apply scan_word.
  - rewrite <- !app_assoc, IH, scan_space, scan_word by done.
    destruct (scan_name InWord X) as [[m r]|]; simpl; [|done].
    unfold prepend; simpl. by rewrite !app_assoc.
Qed.

Lemma scan_name_complete n r :
  placeholder_name n -> scan_name NeedWord (n ++ chars "}}" ++ r) = Some (n, r).
Proof.
  intros Hn. rewrite scan_name_through, scan_close by done.
  unfold prepend; simpl. by rewrite app_nil_r.
Qed.

Lemma match_placeholder_complete n r :
  placeholder_name n -> match_placeholder (placeholder n ++ r) = Some (n, r).
Proof.
  intros Hn. unfold placeholder. rewrite <- !app_assoc. simpl.
  by apply (scan_name_complete n r).
Qed.

Lemma name_snoc_word n c :
  placeholder_name n -> is_word c = true -> placeholder_name (n ++ [c]).
Proof.
  intros Hn Hc. destruct Hn as [w Hne Hw | n sp w Hn Hsp1 Hsp Hw1 Hw].
  - apply name_word; [by destruct w | apply Forall_app; auto].
  - replace ((n ++ sp ++ w) ++ [c]) with (n ++ sp ++ (w ++ [c]))
      by (by rewrite !app_assoc).
    apply name_more; auto; [by destruct w | apply Forall_app; auto].
Qed.

Lemma scan_name_sound s : forall st n r p,
  scan_name st s = Some (n, r) -> read_so_far st p ->
  s = n ++ chars "}}" ++ r /\ placeholder_name (p ++ n).
Proof.
  induction s as [|c t IH]; intros st n r p Hs Hp; [done|].
  simpl in Hs. destruct (is_word c) eqn:Hw.
  - destruct (scan_name InWord t) as [[n' r']|] eqn:Ht; [|done].
    simpl in Hs. injection Hs as <- <-.
    destruct (IH InWord n' r' (p ++ [c]) Ht) as [-> Hnm].
    + destruct st; simpl in Hp.
      * subst p. apply name_word; [done | by constructor].
      * by apply name_snoc_word.
      * destruct Hp as (m & sp & -> & Hm & Hsp1 & Hsp).
        rewrite <- app_assoc. apply name_more; auto. 
    + split; [done|]. by rewrite <- app_assoc in Hnm.
  - destruct (is_space c) eqn:Hc.
    + destruct st; [done| |];
        (destruct (scan_name InSpace t) as [[n' r']|] eqn:Ht; [|done]);
        simpl in Hs; injection Hs as <- <-;
        (destruct (IH InSpace n' r' (p ++ [c]) Ht) as [-> Hnm];
         [| split; [done | by rewrite <- app_assoc in Hnm]]); simpl in Hp |- *.
      * exists p, [c]. repeat split; auto.
      * destruct Hp as (m & sp & -> & Hm & Hsp1 & Hsp).
        exists m, (sp ++ [c]). rewrite <- app_assoc. repeat split; auto.
        -- by destruct sp.
        -- apply Forall_app; auto.
    + destruct st; [done| |done]. destruct t as [|c' r']; [done|].
      destruct (ascii_eqb c "}" && ascii_eqb c' "}") eqn:Hb; [|done].
      apply andb_true_iff in Hb as [->%ascii_eqb_eq ->%ascii_eqb_eq].
      injection Hs as <- <-. split; [done|]. by rewrite app_nil_r.
Qed.

Lemma match_placeholder_sound s n r :
  match_placeholder s = Some (n, r) ->
  s = placeholder n ++ r /\ placeholder_name n.
Proof.
  destruct s as [|a [|b t]]; [done..|]. simpl.
  destruct (ascii_eqb a "{" && ascii_eqb b "{") eqn:Hb; [|done].
  apply andb_true_iff in Hb as [->%ascii_eqb_eq ->%ascii_eqb_eq].
  intros Hs. destruct (scan_name_sound t NeedWord n r [] Hs) as [-> Hn]; [done|].
  split; [|done]. unfold placeholder. by rewrite <- !app_assoc.
Qed.

Lemma and_then_inr x : and_then x inr = x.
Proof. by destruct x. Qed.

Lemma length_placeholder n : length (placeholder n) = length n + 4.
Proof. unfold placeholder. rewrite !length_app. simpl. lia. Qed.

Lemma match_placeholder_shorter s n r :
  match_placeholder s = Some (n, r) -> length r < length s.
Proof.
  intros [-> _]%match_placeholder_sound.
  rewrite length_app, length_placeholder. lia.
Qed.

Lemma replace_placeholders_step fuel cb c t :
  replace_placeholders (S fuel) cb (c :: t) =
  match match_placeholder (c :: t) with
  | Some (name, rest) =>
      and_then (cb name) (fun replacement =>
        and_then (replace_placeholders fuel cb rest) (fun out =>
          inr (replacement ++ out)))
  | None =>
      and_then (replace_placeholders fuel cb t) (fun out => inr (c :: out))
  end.
Proof. reflexivity. Qed.

(** Any fuel from the length of the text on gives the same result. *)
Lemma replace_placeholders_fuel cb : forall n m s,
  length s <= n -> length s <= m ->
  replace_placeholders n cb s = replace_placeholders m cb s.
Proof.
  induction n as [|n IH]; intros m s Hn Hm.
  - destruct s; [|simpl in Hn; lia]. by destruct m.
  - destruct s as [|c t]; [by destruct m|].
    destruct m as [|m]; [simpl in Hm; lia|].
    rewrite !replace_placeholders_step. simpl in Hn, Hm.
    destruct (match_placeholder (c :: t)) as [[name rest]|] eqn:Hmatch.
    + apply match_placeholder_shorter in Hmatch. simpl in Hmatch.
      rewrite (IH m rest) by lia. done.
    + rewrite (IH m t) by lia. done.
Qed.

(** A match that starts before an opening pair of braces ends before it. *)
Lemma scan_name_before_braces X st s :
  scan_name st (s ++ "{"%char :: X) =
  (fun x => (x.1, x.2 ++ "{"%char :: X)) <$> scan_name st s.
Proof.
  revert st. induction s as [|c t IH]; intros st.
  - destruct st, X; reflexivity.
  - simpl. destruct (is_word c) eqn:Hw.
    { rewrite IH. by destruct (scan_name InWord t) as [[n r]|]. }
    destruct (is_space c) eqn:Hc.
    { destruct st; [done| |]; rewrite IH;
        by destruct (scan_name InSpace t) as [[n r]|]. }
    destruct st; [done| |done]. destruct t as [|c' r]; simpl.
    + by rewrite andb_false_r.
    + by destruct (ascii_eqb c "}" && ascii_eqb c' "}").
Qed.

Lemma match_placeholder_before_braces X c t :
  match_placeholder ((c :: t) ++ chars "{{" ++ X) =
  (fun x => (x.1, x.2 ++ chars "{{" ++ X)) <$> match_placeholder (c :: t).
Proof.
  destruct t as [|b t]; simpl.
  - destruct (ascii_eqb c "{"); [|done]. done.
  - destruct (ascii_eqb c "{" && ascii_eqb b "{"); [|done].
    apply scan_name_before_braces.
Qed.

(** The replacement of a text that continues with an opening pair of braces
    is the replacement of the text, then that of the continuation. *)
Lemma replace_placeholders_app cb X : forall fuel pre,
  length (pre ++ chars "{{" ++ X) <= fuel ->
  replace_placeholders fuel cb (pre ++ chars "{{" ++ X) =
  and_then (replace_placeholders (length pre) cb pre) (fun a =>
    and_then (replace_placeholders (length (chars "{{" ++ X)) cb
                (chars "{{" ++ X)) (fun b => inr (a ++ b))).
Proof.
  induction fuel as [|fuel IH]; intros pre Hlen.
  { rewrite length_app in Hlen. simpl in Hlen. lia. }
  destruct pre as [|c t].
  - rewrite app_nil_l in *.
    rewrite (replace_placeholders_fuel cb (S fuel) (length (chars "{{" ++ X)))
      by (done || lia).
    generalize (replace_placeholders (length (chars "{{" ++ X)) cb
                  (chars "{{" ++ X)).
    by intros [e|b].
  - rewrite length_app in Hlen. cbn [length] in Hlen.
    rewrite <- app_comm_cons, !replace_placeholders_step, app_comm_cons.
    rewrite match_placeholder_before_braces.
    cbn [length].
    rewrite (replace_placeholders_step (length t)).
    destruct (match_placeholder (c :: t)) as [[name rest]|] eqn:Hmatch;
      cbn [fmap option_fmap option_map fst snd].
    + apply match_placeholder_shorter in Hmatch. cbn [length] in Hmatch.
      destruct (cb name) as [e|replacement]; [done|]. cbn [and_then].
      rewrite IH by (rewrite length_app; lia).
      rewrite (replace_placeholders_fuel cb (length t) (length rest)) by lia.
      destruct (replace_placeholders (length rest) cb rest) as [e|a]; [done|].
      cbn [and_then].
      generalize (replace_placeholders (length (chars "{{" ++ X)) cb
                    (chars "{{" ++ X)).
      intros [e|b]; [done|]. cbn [and_then]. by rewrite app_assoc.
    + rewrite IH by (rewrite length_app; lia).
      destruct (replace_placeholders (length t) cb t) as [e|a]; [done|].
      cbn [and_then].
      generalize (replace_placeholders (length (chars "{{" ++ X)) cb
                    (chars "{{" ++ X)).
      by intros [e|b].
Qed.

Lemma placeholder_app n r :
  chars "{{" ++ n ++ chars "}}" ++ r = placeholder n ++ r.
Proof. unfold placeholder. by rewrite <- !app_assoc. Qed.

Lemma replace_placeholders_placeholder cb n post fuel :
  placeholder_name n -> length (placeholder n ++ post) <= fuel ->
  replace_placeholders fuel cb (placeholder n ++ post) =
  and_then (cb n) (fun replacement =>
    and_then (replace_placeholders (length post) cb post) (fun out =>
      inr (replacement ++ out))).
Proof.
  intros Hn Hlen. destruct fuel as [|fuel].
  { rewrite length_app, length_placeholder in Hlen. lia. }
  pose proof (match_placeholder_complete n post Hn) as Hm.
  unfold placeholder in *. rewrite <- !app_assoc in *. simpl app in *.
  rewrite replace_placeholders_step, Hm.
  rewrite (replace_placeholders_fuel cb fuel (length post)); [done| |done].
  simpl in Hlen. rewrite !length_app in Hlen. simpl in Hlen. lia.
Qed.

Lemma replace_placeholders_total cb :
  (forall n, exists r, cb n = inr r) ->
  forall fuel s, exists out, replace_placeholders fuel cb s = inr out.
Proof.
  intros Hcb. induction fuel as [|fuel IH]; intros s; [by eexists|].
  destruct s as [|c t]; [by eexists|].
  rewrite replace_placeholders_step.
  destruct (match_placeholder (c :: t)) as [[name rest]|].
  - destruct (Hcb name) as [r ->]. destruct (IH rest) as [out ->]. by eexists.
  - destruct (IH t) as [out ->]. by eexists.
Qed.

Section Filler.
Context {platform : Platform}.

Lemma fill_callback_row row n :
  fill_callback (Some row) n = inr (chars (filled_in row (text n))).
Proof.
  unfold fill_callback, filled_in, placeholder.
  destruct (row_get row (text n)) as [[]|]; try done;
    by rewrite !chars_app, chars_text.
Qed.

Lemma fillPromptTemplate_total prompt row :
  exists out, fillPromptTemplate prompt (Some row) = inr out.
Proof.
  unfold fillPromptTemplate.
  destruct (replace_placeholders_total (fill_callback (Some row))
              (fun n => ex_intro _ _ (fill_callback_row row n))
              (String.length prompt) (chars prompt)) as [out ->].
  by eexists.
Qed.


End Filler.

Section Logic.
Context {platform : Platform}.

Lemma runs_mono {A} (m : M A) s (Q Q' : outcome A -> state -> list event -> Prop) :
  runs m s Q -> (forall o s' evs, Q o s' evs -> Q' o s' evs) -> runs m s Q'.
Proof. intros (o & s' & evs & ? & ? & ?) HQ. exists o, s', evs. auto. Qed.

Lemma runs_ret {A} (a : A) s (Q : outcome A -> state -> list event -> Prop) :
  Q (Returned a) s [] -> runs (mret a) s Q.
Proof. intros HQ. exists (Returned a), s, []. by rewrite app_nil_r. Qed.

Lemma runs_throw {A} e s (Q : outcome A -> state -> list event -> Prop) :
  Q (Thrown e) s [] -> runs (throw e) s Q.
Proof. intros HQ. exists (Thrown e), s, []. by rewrite app_nil_r. Qed.

Lemma bind_run {A B} (m : M A) (f : A -> M B) s :
  (m ≫= f) s =
  match m s with
  | (Returned a, s') => f a s'
  | (Thrown e, s') => (Thrown e, s')
  | (OutOfFuel, s') => (OutOfFuel, s')
  end.
Proof. reflexivity. Qed.

Lemma runs_bind {A B} (m : M A) (f : A -> M B) s
    (Q : outcome B -> state -> list event -> Prop) :
  runs m s (fun o s1 evs1 =>
    match o with
    | Returned a => runs (f a) s1 (fun o' s2 evs2 => Q o' s2 (evs1 ++ evs2))
    | Thrown e => Q (Thrown e) s1 evs1
    | OutOfFuel => Q OutOfFuel s1 evs1
    end) ->
  runs (m ≫= f) s Q.
Proof.
  intros (o & s1 & evs1 & Hm & Ht & HQ).
  unfold runs. rewrite bind_run, Hm. destruct o as [a|e|].
  - destruct HQ as (o' & s2 & evs2 & Hf & Ht2 & HQ).
    exists o', s2, (evs1 ++ evs2). split; [done|]. split; [|done].
    by rewrite Ht2, Ht, app_assoc.
  - by exists (Thrown e), s1, evs1.
  - by exists OutOfFuel, s1, evs1.
Qed.

Lemma runs_settle {A} (m : M A) s
    (Q : outcome (js_error + A) -> state -> list event -> Prop) :
  runs m s (fun o s1 evs =>
    match o with
    | Returned a => Q (Returned (inr a)) s1 evs
    | Thrown e => Q (Returned (inl e)) s1 evs
    | OutOfFuel => Q OutOfFuel s1 evs
    end) ->
  runs (settle m) s Q.
Proof.
  intros (o & s1 & evs & Hm & Ht & HQ). unfold runs, settle. rewrite Hm.
  destruct o; eexists _, s1, evs; eauto.
Qed.

Lemma runs_emit_all evs s (Q : outcome unit -> state -> list event -> Prop) :
  Q (Returned tt)
    {| rows := rows s; world := world s; trace := trace s ++ evs |} evs ->
  runs (emit_all evs) s Q.
Proof. intros HQ. by eexists _, _, evs. Qed.

Lemma runs_emit ev s (Q : outcome unit -> state -> list event -> Prop) :
  Q (Returned tt)
    {| rows := rows s; world := world s; trace := trace s ++ [ev] |} [ev] ->
  runs (emit ev) s Q.
Proof. intros HQ. by eexists _, _, [ev]. Qed.

Lemma runs_get_rows s (Q : outcome (list Row) -> state -> list event -> Prop) :
  Q (Returned (rows s)) s [] -> runs get_rows s Q.
Proof. intros HQ. eexists _, s, []. by rewrite app_nil_r. Qed.

Lemma runs_lift {A} (r : js_error + A) s
    (Q : outcome A -> state -> list event -> Prop) :
  match r with inl e => Q (Thrown e) s [] | inr a => Q (Returned a) s [] end ->
  runs (lift r) s Q.
Proof. destruct r; [apply runs_throw | apply runs_ret]. Qed.

Lemma runs_row_assign i k v s
    (Q : outcome unit -> state -> list event -> Prop) :
  match rows s !! i with
  | Some r =>
      Q (Returned tt)
        {| rows := <[i := row_set r k v]> (rows s); world := world s;
           trace := trace s |} []
  | None => Q (Thrown (cannot_set k)) s []
  end ->
  runs (row_assign i k v) s Q.
Proof.
  intros HQ. unfold runs, row_assign.
  destruct (rows s !! i) as [r|]; eexists _, _, [];
    (split; [done|]); (split; [simpl; by rewrite app_nil_r | done]).
Qed.

End Logic.

(** * Rows *)

Lemma string_eqb_eq (a b : string) : String.eqb a b = true <-> a = b.
Proof. apply String.eqb_eq. Qed.

Lemma string_eqb_neq (a b : string) : String.eqb a b = false <-> a <> b.
Proof. apply String.eqb_neq. Qed.

Lemma row_get_set_eq (r : Row) k v : row_get (row_set r k v) k = Some v.
Proof.
  induction r as [|[k' v'] r IH]; simpl.
  - by rewrite String.eqb_refl.
  - destruct (String.eqb k' k) eqn:E; simpl; rewrite E; auto.
Qed.

Lemma row_get_set_ne (r : Row) k k' v :
  k <> k' -> row_get (row_set r k v) k' = row_get r k'.
Proof.
  intros Hne. induction r as [|[k0 v0] r IH]; simpl.
  - apply string_eqb_neq in Hne. by rewrite Hne.
  - destruct (String.eqb k0 k) eqn:E; simpl.
    + apply string_eqb_eq in E as ->.
      apply string_eqb_neq in Hne. by rewrite Hne.
    + destruct (String.eqb k0 k'); auto.
Qed.

Lemma row_get_set_columns_other f columns : forall r k,
  k ∉ columns -> row_get (set_columns f r columns) k = row_get r k.
Proof.
  induction columns as [|c cs IH]; intros r k Hk; [done|].
  apply not_elem_of_cons in Hk as [Hne Hk].
  simpl. rewrite IH by done. by apply row_get_set_ne.
Qed.

Lemma row_get_set_columns f columns : forall r k,
  k ∈ columns -> row_get (set_columns f r columns) k = Some (f k).
Proof.
  induction columns as [|c cs IH]; intros r k Hk; [by apply elem_of_nil in Hk|].
  simpl. destruct (decide (k ∈ cs)) as [Hin|Hout].
  - by apply IH.
  - rewrite row_get_set_columns_other by done.
    apply elem_of_cons in Hk as [->|Hk]; [|done]. apply row_get_set_eq.
Qed.

Section Distributor.
Context {platform : Platform}.

Lemma with_row_same s i r : rows s !! i = Some r -> with_row s i r = s.
Proof.
  intros H. unfold with_row. rewrite list_insert_id by done. by destruct s.
Qed.

Lemma with_row_twice s i r r' :
  with_row (with_row s i r) i r' = with_row s i r'.
Proof. unfold with_row; simpl. by rewrite list_insert_insert_eq. Qed.

Lemma with_row_lookup s i r :
  i < length (rows s) -> rows (with_row s i r) !! i = Some r.
Proof. intros H. simpl. by apply list_lookup_insert_eq. Qed.

Lemma row_assign_present i k v s r :
  rows s !! i = Some r ->
  row_assign i k v s = (Returned tt, with_row s i (row_set r k v)).
Proof. intros H. unfold row_assign. by rewrite H. Qed.

Lemma row_assign_missing i k v s :
  rows s !! i = None -> row_assign i k v s = (Thrown (cannot_set k), s).
Proof. intros H. unfold row_assign. by rewrite H. Qed.

Lemma Get_value v k : nullish v = false -> Get v k = inr (own_property v k).
Proof. by destruct v. Qed.

Lemma Get_nullish v k : nullish v = true -> exists e, Get v k = inl e.
Proof. destruct v; try done; by eexists. Qed.

Lemma assign_parsed_present parsed columns : forall row s r,
  nullish parsed = false -> rows s !! row = Some r ->
  assign_parsed row parsed columns s =
  (Returned tt,
   with_row s row
     (set_columns (fun c => js_or (own_property parsed c) undetectable)
        r columns)).
Proof.
  induction columns as [|c cs IH]; intros row s r Hv Hr.
  - simpl. by rewrite with_row_same.
  - cbn [assign_parsed]. rewrite !bind_run, Get_value by done.
    cbn [lift]. unfold mret at 1, M_ret at 1.
    rewrite bind_run, (row_assign_present _ _ _ _ r) by done.
    rewrite (IH _ _ (row_set r c (js_or (own_property parsed c) undetectable)))
      by (done || (apply with_row_lookup; by eapply lookup_lt_Some)).
    by rewrite with_row_twice.
Qed.

Lemma assign_undetectable_present columns : forall row s r,
  rows s !! row = Some r ->
  assign_undetectable row columns s =
  (Returned tt, with_row s row (set_columns (fun _ => undetectable) r columns)).
Proof.
  induction columns as [|c cs IH]; intros row s r Hr.
  - simpl. by rewrite with_row_same.
  - cbn [assign_undetectable].
    rewrite bind_run, (row_assign_present _ _ _ _ r) by done.
    rewrite (IH _ _ (row_set r c undetectable))
      by (apply with_row_lookup; by eapply lookup_lt_Some).
    by rewrite with_row_twice.
Qed.

Lemma assign_parsed_nullish parsed c cs row s :
  nullish parsed = true ->
  exists e, assign_parsed row parsed (c :: cs) s = (Thrown e, s).
Proof.
  intros Hv. destruct (Get_nullish parsed c Hv) as [e He].
  exists e. cbn [assign_parsed]. by rewrite !bind_run, He.
Qed.

Lemma distribute_group_present row rowIndex columns apiResult s r :
  rows s !! row = Some r ->
  exists evs,
    distribute_group row rowIndex columns apiResult s =
    (Returned tt,
     with_row (with_events s evs) row (distributed columns apiResult r))
    /\ Forall is_console_error evs.
Proof.
  intros Hr. unfold distribute_group, distributed, parse.
  rewrite bind_run. unfold settle at 1. rewrite bind_run.
  destruct (JSON_parse (unfence (result apiResult))) as [v|m].
  - unfold mret at 1, M_ret at 1.
    destruct (nullish v) eqn:Hv.
    + destruct columns as [|c cs].
      * exists []. split; [|done]. simpl.
        unfold with_events. rewrite app_nil_r.
        rewrite with_row_same; by destruct s.
      * destruct (assign_parsed_nullish v c cs row s Hv) as [e ->].
        exists (parse_failure_report rowIndex e apiResult).
        split; [|by repeat constructor].
        rewrite !bind_run. unfold emit at 1.
        rewrite bind_run. unfold emit at 1.
        rewrite (assign_undetectable_present _ _ _ r) by done.
        unfold with_row, with_events, parse_failure_report; simpl.
        by rewrite <- app_assoc.
    + rewrite (assign_parsed_present _ _ _ _ r) by done.
      exists []. split; [|done]. unfold mret, M_ret.
      unfold with_events. rewrite app_nil_r.
      destruct columns; [|by destruct s].
      simpl. rewrite with_row_same by done. rewrite with_row_same; by destruct s.
  - unfold throw at 1.
    exists (parse_failure_report rowIndex (Error m) apiResult).
    split; [|by repeat constructor].
    rewrite !bind_run. unfold emit at 1.
    rewrite bind_run. unfold emit at 1.
    rewrite (assign_undetectable_present _ _ _ r) by done.
    unfold with_row, with_events, parse_failure_report; simpl.
    by rewrite <- app_assoc.
Qed.

End Distributor.

(** * Code fences *)

Lemma drop_spaces_keep c l : is_space c = false -> drop_spaces (c :: l) = c :: l.
Proof. intros H. simpl. by rewrite H. Qed.


Lemma starts_with_app p l : starts_with p (p ++ l) = true.
Proof.
  induction p as [|c p IH]; [done|]. simpl.
  rewrite IH. unfold ascii_eqb. by rewrite Ascii.eqb_refl.
Qed.

Lemma strip_closing_fenced b c :
  strip_closing_fence ((c :: b) ++ line_feed :: fence) = c :: b.
Proof.
  unfold strip_closing_fence.
  rewrite rev_app_distr. 
  change (rev (line_feed :: fence)) with (fence ++ [line_feed]).
  rewrite <- app_assoc.
  change (drop_spaces (fence ++ [line_feed] ++ rev (c :: b)))
    with (fence ++ [line_feed] ++ rev (c :: b)).
  rewrite starts_with_app.
  change (drop 3 (fence ++ [line_feed] ++ rev (c :: b)))
    with (line_feed :: rev (c :: b)).
  change (ascii_eqb line_feed line_feed) with true. cbv iota.
  apply rev_involutive.
Qed.

Lemma trim_chars_fenced m :
  trim_chars (fence ++ m ++ fence) = fence ++ m ++ fence.
Proof.
  unfold trim_chars.
  change (drop_spaces (fence ++ m ++ fence)) with (fence ++ m ++ fence).
  rewrite !rev_app_distr.
  change (rev fence) with fence. rewrite <- app_assoc.
  change (drop_spaces (fence ++ rev m ++ fence)) with (fence ++ rev m ++ fence).
  rewrite !rev_app_distr, rev_involutive.
  change (rev fence) with fence. by rewrite <- app_assoc.
Qed.



Section Distribution.
Context {platform : Platform}.

Lemma js_or_own_property props c :
  js_or (own_property (VObj props) c) undetectable =
  match row_get props c with
  | Some v => if truthy v then v else undetectable
  | None => undetectable
  end.
Proof. unfold js_or; simpl. by destruct (row_get props c). Qed.

Lemma distributed_object columns apiResult r props colName :
  JSON_parse (unfence (result apiResult)) = Parsed (VObj props) ->
  colName ∈ columns ->
  row_get (distributed columns apiResult r) colName =
  Some (match row_get props colName with
        | Some v => if truthy v then v else undetectable
        | None => undetectable
        end).
Proof.
  intros Hp Hin. unfold distributed. rewrite Hp.
  destruct columns as [|c cs]; [by apply elem_of_nil in Hin|].
  cbn [nullish]. rewrite row_get_set_columns by done.
  by rewrite js_or_own_property.
Qed.


End Distribution.

(** * The row task and the round *)

Lemma posts_app a b : posts (a ++ b) = posts a ++ posts b.
Proof. apply omap_app. Qed.
Lemma sleeps_app a b : sleeps (a ++ b) = sleeps a ++ sleeps b.
Proof. apply omap_app. Qed.
Lemma writes_app a b : writes (a ++ b) = writes a ++ writes b.
Proof. apply omap_app. Qed.
Lemma retried_app a b : retried (a ++ b) = retried a ++ retried b.
Proof. apply omap_app. Qed.

Lemma console_errors_silent errs :
  Forall is_console_error errs ->
  posts errs = [] /\ sleeps errs = [] /\ writes errs = [] /\ retried errs = [].
Proof.
  intros H. induction H as [|ev errs Hev H IH].
  - done.
  - destruct ev; done.
Qed.

Lemma task_events_silent evs :
  task_events evs ->
  sleeps evs = [] /\ writes evs = [] /\ retried evs = [] /\ length (posts evs) <= 1.
Proof.
  intros [->|(req & errs & -> & Herrs)]; [simpl; repeat split; lia|].
  destruct (console_errors_silent errs Herrs) as (Hp & Hs & Hw & Hr).
  simpl. rewrite Hp, Hs, Hw, Hr. repeat split. simpl. lia.
Qed.

Lemma posted_once evs : posted evs -> length (posts evs) = 1.
Proof.
  intros (req & errs & -> & Herrs).
  destruct (console_errors_silent errs Herrs) as (Hp & _).
  simpl. by rewrite Hp.
Qed.

Ltac step :=
  first [ apply runs_bind | apply runs_get_rows | apply runs_ret
        | apply runs_throw | apply runs_emit | apply runs_emit_all
        | apply runs_settle | apply runs_row_assign | apply runs_lift ].

Section Tasks.
Context {platform : Platform}.

Lemma assign_parsed_runs row parsed columns : forall s,
  runs (assign_parsed row parsed columns) s (fun o s' evs =>
    o <> OutOfFuel /\ evs = [] /\ length (rows s') = length (rows s)).
Proof.
  induction columns as [|c cs IH]; intros s; cbn [assign_parsed].
  - by step.
  - step. step. destruct (Get parsed c) as [e|v]; [done|].
    step. step. destruct (rows s !! row) as [r|] eqn:Hr; [|done].
    eapply runs_mono; [apply IH|]. simpl.
    intros o s' evs (Ho & -> & Hlen). rewrite length_insert in Hlen. done.
Qed.

Lemma assign_undetectable_runs row columns : forall s,
  runs (assign_undetectable row columns) s (fun o s' evs =>
    o <> OutOfFuel /\ evs = [] /\ length (rows s') = length (rows s)).
Proof.
  induction columns as [|c cs IH]; intros s; cbn [assign_undetectable].
  - by step.
  - step. step. destruct (rows s !! row) as [r|] eqn:Hr; [|done].
    eapply runs_mono; [apply IH|]. simpl.
    intros o s' evs (Ho & -> & Hlen). rewrite length_insert in Hlen. done.
Qed.

Lemma parse_runs jsonText s (Q : outcome value -> state -> list event -> Prop) :
  match JSON_parse jsonText with
  | Parsed v => Q (Returned v) s []
  | SyntaxError m => Q (Thrown (Error m)) s []
  end ->
  runs (parse jsonText) s Q.
Proof. unfold parse. destruct (JSON_parse jsonText); [apply runs_ret | apply runs_throw]. Qed.

Lemma catch_block_runs row rowIndex columns apiResult e s :
  runs (emit (ConsoleError (RowParseFailed (rowIndex + 1) (error_message e)));;
        emit (ConsoleError (ResponseShown (substring0 200 (result apiResult))));;
        assign_undetectable row columns) s
    (fun o s' evs => o <> OutOfFuel /\ Forall is_console_error evs
                     /\ length (rows s') = length (rows s)).
Proof.
  step. step. step. step.
  eapply runs_mono; [apply assign_undetectable_runs|]. cbn beta.
  intros o s' evs (Ho & -> & Hlen).
  split; [done|]. split; [|done].
  repeat (apply Forall_cons_2; [exact I|]). apply Forall_nil_2.
Qed.

Lemma distribute_group_runs row rowIndex columns apiResult s :
  runs (distribute_group row rowIndex columns apiResult) s (fun o s' evs =>
    o <> OutOfFuel /\ Forall is_console_error evs
    /\ length (rows s') = length (rows s)).
Proof.
  unfold distribute_group. step. step. step. apply parse_runs.
  destruct (JSON_parse (unfence (result apiResult))) as [v|m]; cbn beta iota.
  - eapply runs_mono; [apply assign_parsed_runs|]. cbn beta.
    intros o s' evs (Ho & -> & Hlen). destruct o as [[]|e|]; [| |done].
    + step. by rewrite Hlen.
    + eapply runs_mono; [apply catch_block_runs|]. cbn beta.
      intros o s2 evs2 (Ho2 & Hevs & Hlen2). rewrite Hlen2, Hlen. done.
  - eapply runs_mono; [apply catch_block_runs|]. cbn beta.
    intros o s2 evs2 (Ho2 & Hevs & Hlen2). done.
Qed.

Lemma post_runs req s (Q : outcome completion -> state -> list event -> Prop) :
  (forall o w, axios_post req (world s) = (o, w) ->
     Q (match o with HttpOk body => Returned body | HttpFailed e => Thrown e end)
       {| rows := rows s; world := w; trace := trace s ++ [Post req] |}
       [Post req]) ->
  runs (post req) s Q.
Proof.
  intros HQ. unfold runs, post.
  destruct (axios_post req (world s)) as [o w] eqn:Hpost.
  specialize (HQ o w eq_refl). destruct o; eexists _, _, [Post req]; eauto.
Qed.

Lemma callOpenRouterAPI_runs modelName prompt plugins webSearchOptions s :
  runs (callOpenRouterAPI modelName prompt plugins webSearchOptions) s
    (fun o s' evs =>
       o <> OutOfFuel /\ rows s' = rows s /\ exists req, evs = [Post req]).
Proof.
  unfold callOpenRouterAPI. step. apply post_runs. intros [body|e] w _.
  - step. rewrite app_nil_r. eauto.
  - eauto.
Qed.

(** What a row task does: it never runs out of fuel, keeps the number of
    rows, and posts once unless the template could not be filled. *)
Lemma processRow_runs row index columnInfo modelName prompt plugins
    webSearchOptions s :
  runs (processRow row index columnInfo modelName prompt plugins
          webSearchOptions) s (fun o s' evs =>
    o <> OutOfFuel /\ length (rows s') = length (rows s) /\ task_events evs
    /\ (is_Some (rows s !! row) -> posted evs)
    /\ (forall a, o = Returned a -> posted evs /\ rowIndex a = index)).
Proof.
  unfold processRow. step. step. step. step.
  destruct (fillPromptTemplate prompt (rows s !! row)) as [e|filled] eqn:Hfill.
  { split; [done|]. split; [done|]. split; [by left|]. split; [|done].
    intros [r Hr]. rewrite Hr in Hfill.
    destruct (fillPromptTemplate_total prompt r) as [out Hout]. congruence. }
  step. eapply runs_mono; [apply callOpenRouterAPI_runs|]. cbn beta.
  intros o s1 evs1 (Ho & Hrows & req & ->).
  assert (posted [Post req]) as Hposted.
  { exists req, []. split; [done|]. apply Forall_nil_2. }
  assert (task_events [Post req]) as Htask by (by right).
  destruct o as [apiResult|e|]; [| |done].
  2:{ rewrite Hrows. cbn. split; [done|]. split; [done|]. split; [done|].
      split; [done|]. intros a Ha; discriminate. }
  step. destruct columnInfo as [columnName|columns].
  - step. destruct (rows s1 !! row) as [r|] eqn:Hr.
    + step. cbn. rewrite length_insert, Hrows.
      split; [done|]. split; [done|]. split; [done|]. split; [done|].
      intros a [= <-]. done.
    + rewrite Hrows. cbn. split; [done|]. split; [done|]. split; [done|].
      split; [done|]. intros a Ha; discriminate.
  - eapply runs_mono; [apply distribute_group_runs|]. cbn beta.
    intros o s2 evs2 (Ho2 & Herrs & Hlen).
    assert (posted (Post req :: evs2)) as Hposted2 by (by exists req, evs2).
    assert (task_events (Post req :: evs2)) as Htask2 by (by right).
    rewrite Hrows in Hlen.
    destruct o as [[]|e|]; [| |done].
    + step. rewrite app_nil_r. cbn.
      split; [done|]. split; [done|]. split; [done|]. split; [done|].
      intros a [= <-]. done.
    + cbn. split; [done|]. split; [done|]. split; [done|]. split; [done|].
      intros a Ha; discriminate.
Qed.

Lemma row_task_runs columnInfo modelName prompt plugins webSearchOptions index s :
  runs (row_task columnInfo modelName prompt plugins webSearchOptions index) s
    (fun o s' evs =>
       exists r, o = Returned r /\ settled_index r = index /\ well_indexed r
       /\ length (rows s') = length (rows s) /\ task_events evs
       /\ (index < length (rows s) -> posted evs)
       /\ (is_rejected r = false -> posted evs)).
Proof.
  unfold row_task. step. step.
  eapply runs_mono; [apply processRow_runs|]. simpl.
  intros o s' evs (Ho & Hlen & Hev & Hin & Hret).
  destruct o as [a|e|]; [| |done]; step; rewrite app_nil_r;
    eexists; (split; [done|]); (split; [done|]).
  - split; [simpl; by apply (Hret a)|]. split; [done|]. split; [done|].
    split; [|intros _; by apply (Hret a)].
    intros Hlt. apply Hin. by apply lookup_lt_is_Some.
  - split; [done|]. split; [done|]. split; [done|]. split; [|done].
    intros Hlt. apply Hin. by apply lookup_lt_is_Some.
Qed.

Lemma run_round_runs columnInfo modelName prompt plugins webSearchOptions
    rowsToProcess : forall s,
  runs (run_round columnInfo modelName prompt plugins webSearchOptions
          rowsToProcess) s (fun o s' evs =>
    exists results, o = Returned results
    /\ map settled_index results = rowsToProcess
    /\ Forall well_indexed results
    /\ length (rows s') = length (rows s) /\ round_events evs
    /\ length (posts evs) <= length rowsToProcess
    /\ (Forall (fun i => i < length (rows s)) rowsToProcess ->
        length (posts evs) = length rowsToProcess)
    /\ (rejected results = [] -> length (posts evs) = length rowsToProcess)).
Proof.
  induction rowsToProcess as [|index rest IH]; intros s; cbn [run_round].
  - step. exists []. repeat split; auto.
  - step. eapply runs_mono; [apply row_task_runs|]. simpl.
    intros o s1 evs1 (r & -> & Hidx & Hwi & Hlen1 & Hev1 & Hin1 & Hok1).
    step. eapply runs_mono; [apply IH|]. simpl.
    intros o s2 evs2
      (rs & -> & Hidxs & Hwis & Hlen2 & (Hs & Hw & Hr) & Hle & Hin2 & Hok2).
    step. rewrite app_nil_r. exists (r :: rs).
    split; [done|]. split; [simpl; congruence|].
    split; [by apply Forall_cons_2|].
    destruct (task_events_silent evs1 Hev1) as (Hs1 & Hw1 & Hr1 & Hp1).
    unfold round_events.
    rewrite sleeps_app, writes_app, retried_app, posts_app, length_app.
    rewrite Hs, Hw, Hr, Hs1, Hw1, Hr1. simpl.
    repeat split; auto; try congruence; try lia.
    + intros [Hlt Hrest]%Forall_cons.
      rewrite (posted_once evs1) by auto.
      rewrite Hin2; [done|]. by rewrite Hlen1.
    + intros Hnone. unfold rejected in Hnone. rewrite filter_cons in Hnone.
      destruct (decide (is_rejected r = true)) as [|Hr']; [done|].
      rewrite (posted_once evs1) by (apply Hok1; by destruct (is_rejected r)).
      by rewrite Hok2.
Qed.

End Tasks.

(** * The error summary *)

Lemma summary_get_add_eq summary key n :
  summary_get (summary_add summary key n) key
  = Some (default [] (summary_get summary key) ++ [n]).
Proof.
  induction summary as [|[k ns] rest IH]; simpl.
  - by rewrite String.eqb_refl.
  - destruct (String.eqb k key) eqn:E; simpl; rewrite E; auto.
Qed.

Lemma summary_get_add_ne summary key key' n :
  key <> key' ->
  summary_get (summary_add summary key n) key' = summary_get summary key'.
Proof.
  intros Hne. induction summary as [|[k ns] rest IH]; simpl.
  - apply string_eqb_neq in Hne. by rewrite Hne.
  - destruct (String.eqb k key) eqn:E; simpl.
    + apply string_eqb_eq in E as ->.
      apply string_eqb_neq in Hne. by rewrite Hne.
    + destruct (String.eqb k key'); auto.
Qed.

Lemma summary_get_None summary key :
  summary_get summary key = None <-> key ∉ map fst summary.
Proof.
  induction summary as [|[k ns] rest IH]; simpl.
  - split; [intros _; apply not_elem_of_nil | done].
  - destruct (String.eqb k key) eqn:E.
    + apply string_eqb_eq in E as ->. split; [done|].
      intros H. exfalso. apply H. apply list_elem_of_here.
    + apply string_eqb_neq in E. rewrite IH, not_elem_of_cons. intuition congruence.
Qed.

Lemma summary_add_keys summary key n :
  map fst (summary_add summary key n) =
  match summary_get summary key with
  | Some _ => map fst summary
  | None => map fst summary ++ [key]
  end.
Proof.
  induction summary as [|[k ns] rest IH]; simpl; [done|].
  destruct (String.eqb k key) eqn:E; simpl; [done|].
  rewrite IH. by destruct (summary_get rest key).
Qed.

Lemma summary_add_NoDup summary key n :
  NoDup (map fst summary) -> NoDup (map fst (summary_add summary key n)).
Proof.
  intros Hnd. rewrite summary_add_keys.
  destruct (summary_get summary key) eqn:E; [done|].
  apply summary_get_None in E.
  apply NoDup_app. split; [done|]. split; [|apply NoDup_singleton].
  intros x Hx Hx'. apply list_elem_of_singleton in Hx' as ->. done.
Qed.

Lemma summary_get_elem_of summary key ns :
  NoDup (map fst summary) ->
  (key, ns) ∈ summary <-> summary_get summary key = Some ns.
Proof.
  induction summary as [|[k ms] rest IH]; simpl; intros Hnd.
  - split; [intros H; by apply elem_of_nil in H | done].
  - apply NoDup_cons in Hnd as [Hk Hnd]. rewrite elem_of_cons.
    destruct (String.eqb k key) eqn:E.
    + apply string_eqb_eq in E as ->. split.
      * intros [[= ->]|Hin]; [done|]. exfalso. apply Hk.
        apply list_elem_of_fmap. by exists (key, ns).
      * intros [= ->]. by left.
    + apply string_eqb_neq in E. rewrite <- IH by done. intuition congruence.
Qed.

Section Summary.
Context {platform : Platform}.

Lemma rows_with_key_fulfilled key res i failed :
  rows_with_key key (Fulfilled res i :: failed) = rows_with_key key failed.
Proof. reflexivity. Qed.

Lemma rows_with_key_rejected key error i failed :
  rows_with_key key (Rejected error i :: failed) =
  if String.eqb (error_key error) key
  then (i + 1) :: rows_with_key key failed
  else rows_with_key key failed.
Proof.
  unfold rows_with_key. simpl. by destruct (String.eqb (error_key error) key).
Qed.

Lemma summarize_from_get failed : forall summary key,
  summary_get (summarize_from summary failed) key =
  match rows_with_key key failed with
  | [] => summary_get summary key
  | n :: ns => Some (default [] (summary_get summary key) ++ n :: ns)
  end.
Proof.
  induction failed as [|f failed IH]; intros summary key; [done|].
  unfold summarize_from in *. cbn [foldl]. rewrite IH.
  destruct f as [res i|error i]; [by rewrite rows_with_key_fulfilled|].
  rewrite rows_with_key_rejected.
  destruct (String.eqb (error_key error) key) eqn:E.
  - apply string_eqb_eq in E as <-. rewrite summary_get_add_eq. simpl.
    destruct (rows_with_key (error_key error) failed); [done|].
    simpl. by rewrite <- app_assoc.
  - apply string_eqb_neq in E. by rewrite summary_get_add_ne.
Qed.

Lemma summarize_from_NoDup failed : forall summary,
  NoDup (map fst summary) -> NoDup (map fst (summarize_from summary failed)).
Proof.
  induction failed as [|f failed IH]; intros summary Hnd; [done|].
  unfold summarize_from in *. cbn [foldl]. apply IH.
  destruct f; [done|]. by apply summary_add_NoDup.
Qed.

(** The summary has one entry per distinct signature, and the entry of a
    signature lists the rows that failed with it. *)
Lemma summarize_spec failed :
  NoDup (map fst (summarize failed))
  /\ forall key ns,
       (key, ns) ∈ summarize failed <->
       ns <> [] /\ ns = rows_with_key key failed.
Proof.
  assert (NoDup (map fst (summarize failed))) as Hnd.
  { apply summarize_from_NoDup. apply NoDup_nil_2. }
  split; [done|]. intros key ns.
  rewrite summary_get_elem_of by done. unfold summarize.
  rewrite summarize_from_get. simpl.
  destruct (rows_with_key key failed) as [|n l]; intuition congruence.
Qed.

End Summary.

Lemma warnings_silent evs :
  Forall is_warning evs -> posts evs = [] /\ sleeps evs = [] /\ writes evs = [].
Proof.
  intros H. induction H as [|ev evs Hev H IH]; [done|].
  destruct ev; done.
Qed.

Section Batch.
Context {platform : Platform}.

Lemma final_report_silent l maxRetries summary :
  posts (final_report l maxRetries summary) = []
  /\ sleeps (final_report l maxRetries summary) = []
  /\ writes (final_report l maxRetries summary) = []
  /\ retried (final_report l maxRetries summary) = [].
Proof.
  apply console_errors_silent. unfold final_report.
  apply Forall_app. split; [repeat (apply Forall_cons_2; [exact I|]); apply Forall_nil_2|].
  induction summary as [|[k ns] rest IH]; [apply Forall_nil_2|].
  simpl. repeat (apply Forall_cons_2; [exact I|]). exact IH.
Qed.

Lemma first_response_body_warnings failed :
  Forall is_warning (first_response_body failed)
  /\ retried (first_response_body failed) = [].
Proof.
  unfold first_response_body. destruct failed as [|[res i|error i] rest]; try done.
  destruct (truthy (error_data error)); [|done].
  split; [|done]. apply Forall_cons_2; [exact I|]. apply Forall_nil_2.
Qed.

Lemma retry_report_silent l retryCount maxRetries summary failed :
  posts (retry_report l retryCount maxRetries summary failed) = []
  /\ sleeps (retry_report l retryCount maxRetries summary failed) = []
  /\ writes (retry_report l retryCount maxRetries summary failed) = []
  /\ retried (retry_report l retryCount maxRetries summary failed)
     = [row_numbers l].
Proof.
  assert (Forall is_warning
            (map (fun '(error, ns) => Warn (ErrorType error ns)) summary)
          /\ retried (map (fun '(error, ns) => Warn (ErrorType error ns)) summary)
             = []) as [Hsum Hsumr].
  { induction summary as [|[k ns] rest [IH1 IH2]]; [done|].
    split; [by apply Forall_cons_2 | done]. }
  assert (Forall is_warning
            (if (retryCount =? 1)%nat then first_response_body failed else [])
          /\ retried (if (retryCount =? 1)%nat
                      then first_response_body failed else []) = [])
    as [Hbody Hbodyr].
  { destruct (retryCount =? 1)%nat; [apply first_response_body_warnings|done]. }
  unfold retry_report. split; [|split; [|split]].
  - apply warnings_silent. repeat (apply Forall_cons_2; [exact I|]).
    apply Forall_app; split; [done|]. apply Forall_app; split; [done|].
    apply Forall_cons_2; [exact I|]. apply Forall_nil_2.
  - apply warnings_silent. repeat (apply Forall_cons_2; [exact I|]).
    apply Forall_app; split; [done|]. apply Forall_app; split; [done|].
    apply Forall_cons_2; [exact I|]. apply Forall_nil_2.
  - apply warnings_silent. repeat (apply Forall_cons_2; [exact I|]).
    apply Forall_app; split; [done|]. apply Forall_app; split; [done|].
    apply Forall_cons_2; [exact I|]. apply Forall_nil_2.
  - cbn [app retried omap list_omap]. rewrite !retried_app.
    fold retried. rewrite Hsumr, Hbodyr. done.
Qed.

Lemma rejected_all results : Forall (fun f => is_rejected f = true) (rejected results).
Proof. unfold rejected. apply Forall_forall. intros f [Hf _]%list_elem_of_filter. done. Qed.

Lemma rejected_indices_subset results i :
  i ∈ map settled_index (rejected results) -> i ∈ map settled_index results.
Proof.
  intros (f & -> & Hf)%list_elem_of_fmap. apply list_elem_of_fmap.
  exists f. split; [done|]. unfold rejected in Hf.
  by apply list_elem_of_filter in Hf as [_ Hf].
Qed.

Lemma settled_partition results :
  Forall well_indexed results ->
  map rowIndex (fulfilled_results results) ++ map settled_index (rejected results)
  ≡ₚ map settled_index results.
Proof.
  intros H. induction H as [|r results Hr H IH]; [done|].
  unfold rejected in *. rewrite filter_cons.
  destruct r as [res i|error i]; simpl in *.
  - destruct (decide (false = true)); [done|]. subst i.
    change (fulfilled_results (Fulfilled res (rowIndex res) :: results))
      with (res :: fulfilled_results results).
    simpl. by rewrite IH.
  - destruct (decide (true = true)); [|done].
    change (fulfilled_results (Rejected error i :: results))
      with (fulfilled_results results).
    simpl. rewrite <- Permutation_middle. by rewrite IH.
Qed.

Lemma settled_count results :
  length (fulfilled_results results) + length (rejected results) = length results.
Proof.
  induction results as [|r results IH]; [done|].
  unfold rejected in *. rewrite filter_cons.
  destruct r as [res i|error i]; simpl in *.
  - destruct (decide (false = true)); [done|].
    change (fulfilled_results (Fulfilled res i :: results))
      with (res :: fulfilled_results results). simpl. lia.
  - destruct (decide (true = true)); [|done].
    change (fulfilled_results (Rejected error i :: results))
      with (fulfilled_results results). simpl. lia.
Qed.

Lemma processBatch_loop_done fuel columnInfo modelName prompt plugins
    webSearchOptions maxRetries allResults retryCount s :
  processBatch_loop (S fuel) columnInfo modelName prompt plugins
    webSearchOptions maxRetries [] allResults retryCount s
  = (Returned allResults, s).
Proof. reflexivity. Qed.

Lemma processBatch_loop_runs columnInfo modelName prompt plugins
    webSearchOptions maxRetries : forall fuel l acc rc s,
  rc <= maxRetries -> maxRetries + 2 <= fuel + rc ->
  runs (processBatch_loop fuel columnInfo modelName prompt plugins
          webSearchOptions maxRetries l acc rc) s
    (loop_post maxRetries l acc rc s).
Proof.
  induction fuel as [|fuel IH]; intros l acc rc s Hrc Hfuel; [lia|].
  cbn [processBatch_loop].
  assert ((rc <=? maxRetries)%nat = true) as -> by (by apply Nat.leb_le).
  destruct l as [|i l'].
  { cbn [length Nat.ltb Nat.leb andb]. step.
    split; [done|]. split; [done|]. exists 0.
    split; [done|]. split; [done|]. split; [lia|].
    exists []. by rewrite app_nil_r. }
  set (l := i :: l') in *.
  assert ((0 <? length l)%nat = true) as -> by done. cbn [andb].
  step. eapply runs_mono; [apply run_round_runs|]. cbn beta.
  intros o s1 evs1
    (results & -> & Hidx & Hwi & Hlen1 & (Hs1 & Hw1 & Hr1) & _).
  cbn beta iota.
  pose proof (settled_partition results Hwi) as Hperm. rewrite Hidx in Hperm.
  destruct (rejected results) as [|f failed'] eqn:Hfailed.
  { (* every row of the round succeeded *)
    assert ((0 <? length (map settled_index (@nil settled)))%nat = false)
      as -> by done.
    destruct fuel as [|fuel]; [lia|]. unfold runs.
    rewrite processBatch_loop_done. eexists _, s1, []. split; [done|].
    split; [by rewrite app_nil_r|]. rewrite app_nil_r.
    split; [done|]. split; [done|]. exists 0. rewrite Hs1, Hr1.
    split; [done|]. split; [done|]. split; [lia|].
    eexists. split; [done|]. simpl in Hperm. by rewrite app_nil_r in Hperm. }
  set (failed := f :: failed') in *.
  assert (failed <> []) as Hne by done.
  assert ((0 <? length (map settled_index failed))%nat = true) as -> by done.
  destruct (maxRetries <? S rc)%nat eqn:Hlast.
  - (* the retries are used up *)
    apply Nat.ltb_lt in Hlast.
    step. step. step. rewrite app_nil_r.
    destruct (final_report_silent (map settled_index failed) maxRetries
                (summarize failed)) as (_ & Hs & Hw & Hr).
    split; [done|]. rewrite writes_app, Hw1, Hw. split; [done|].
    exists 0. rewrite sleeps_app, retried_app, Hs1, Hs, Hr1, Hr.
    split; [done|]. split; [done|]. split; [lia|].
    exists failed, evs1. split; [done|].
    split; [rewrite <- Hfailed; apply rejected_all|].
    split; [|split; [by rewrite length_map|split; [done|lia]]].
    intros j Hj. rewrite <- Hidx. apply rejected_indices_subset.
    by rewrite Hfailed.
  - (* back off and go round again with the failed rows *)
    apply Nat.ltb_ge in Hlast.
    step. step. step. step.
    eapply runs_mono; [apply (IH _ _ _ _ Hlast); cbn; lia|].
    intros o s2 evs2 (Hlen2 & Hw2 & R & Hs2 & Hr2 & HR & Ho).
    destruct (retry_report_silent (map settled_index failed) (S rc) maxRetries
                (summarize failed) failed) as (_ & Hs & Hw & Hr).
    cbn [rows] in Hlen2. split; [congruence|].
    rewrite !writes_app, Hw1, Hw, Hw2. split; [done|].
    exists (S R). rewrite !sleeps_app, !retried_app, Hs1, Hs, Hr1, Hr, Hs2.
    split; [done|]. split; [simpl; by rewrite Hr2|]. split; [lia|].
    destruct o as [res|e|]; [| |done].
    + destruct Ho as (more & -> & Hmore).
      exists (fulfilled_results results ++ more).
      split; [by rewrite app_assoc|].
      rewrite map_app, Hmore. done.
    + destruct Ho as (failed2 & before & Hne2 & Hall2 & Hsub & -> & -> & HR2).
      exists failed2. eexists. split; [done|]. split; [done|].
      split; [|split; [done|split; [|lia]]].
      * intros j Hj. rewrite <- Hidx. apply rejected_indices_subset.
        rewrite Hfailed. by apply Hsub.
      * by rewrite !app_assoc.
Qed.

End Batch.

Section Retries.
Context {platform : Platform}.

Lemma runs_inv {A} (m : M A) s Q o s' :
  runs m s Q -> m s = (o, s') -> exists evs, trace s' = trace s ++ evs /\ Q o s' evs.
Proof.
  intros (o' & s'' & evs & Hm & Ht & HQ) Heq. rewrite Heq in Hm.
  injection Hm as <- <-. eauto.
Qed.

Lemma processBatch_runs batchStart batchEnd columnInfo modelName prompt plugins
    webSearchOptions maxRetries s :
  runs (processBatch batchStart batchEnd columnInfo modelName prompt plugins
          webSearchOptions maxRetries) s
    (loop_post maxRetries (seq batchStart (batchEnd - batchStart)) [] 0 s).
Proof. unfold processBatch. apply processBatch_loop_runs; lia. Qed.

Lemma processBatch_loop_step fuel columnInfo modelName prompt plugins
    webSearchOptions maxRetries rowsToProcess allResults retryCount :
  processBatch_loop (S fuel) columnInfo modelName prompt plugins
    webSearchOptions maxRetries rowsToProcess allResults retryCount
  = if (0 <? length rowsToProcess)%nat && (retryCount <=? maxRetries)%nat
    then
      results ← run_round columnInfo modelName prompt plugins
                  webSearchOptions rowsToProcess;
      let allResults := allResults ++ fulfilled_results results in
      let failed := rejected results in
      let rowsToProcess := map settled_index failed in
      if (0 <? length rowsToProcess)%nat then
        let retryCount := S retryCount in
        let errorSummary := summarize failed in
        if (maxRetries <? retryCount)%nat then
          emit_all (final_report rowsToProcess maxRetries errorSummary);;
          throw (Error (failed_message (length rowsToProcess) maxRetries))
        else
          emit_all (retry_report rowsToProcess retryCount maxRetries
                      errorSummary failed);;
          sleep (2 ^ retryCount * 1000);;
          processBatch_loop fuel columnInfo modelName prompt plugins
            webSearchOptions maxRetries rowsToProcess allResults retryCount
      else
        processBatch_loop fuel columnInfo modelName prompt plugins
          webSearchOptions maxRetries rowsToProcess allResults retryCount
    else mret allResults.
Proof. reflexivity. Qed.

Lemma seq_in_range batchStart batchEnd n :
  batchEnd <= n ->
  Forall (fun i => i < n) (seq batchStart (batchEnd - batchStart)).
Proof.
  intros H. apply Forall_forall. intros i Hi%list_elem_of_In%in_seq. lia.
Qed.

End Retries.

Section GivingUp.
Context {platform : Platform}.

Lemma final_report_names l maxRetries summary :
  ConsoleError (FailedRows (row_numbers l)) ∈ final_report l maxRetries summary
  /\ forall key ns,
       (key, ns) ∈ summary ->
       ConsoleError (SummaryError key) ∈ final_report l maxRetries summary
       /\ ConsoleError (AffectedRows ns) ∈ final_report l maxRetries summary.
Proof.
  unfold final_report. split.
  - apply elem_of_app. left. apply list_elem_of_further, list_elem_of_here.
  - intros key ns Hin. split; apply elem_of_app; right;
      apply list_elem_of_In, in_flat_map; exists (key, ns);
      (split; [by apply list_elem_of_In|]); simpl; auto.
Qed.

Lemma processColumn_loop_step fuel columnInfo st plugins webSearchOptions
    progressFilePath totalRows i t :
  processColumn_loop (S fuel) columnInfo st plugins webSearchOptions
    progressFilePath totalRows i t
  = if (i <? totalRows)%nat then
      batchResults ← processBatch i (Nat.min (i + cfg_batchSize st) totalRows)
                       columnInfo (cfg_modelName st) (cfg_prompt st) plugins
                       webSearchOptions default_maxRetries;
      write_progress progressFilePath;;
      (if (Nat.min (i + cfg_batchSize st) totalRows <? totalRows)%nat
          && (0 <? cfg_cooldown st)%nat
       then sleep (cfg_cooldown st) else mret tt);;
      processColumn_loop fuel columnInfo st plugins webSearchOptions
        progressFilePath totalRows (i + cfg_batchSize st)
        (foldl add_result t batchResults)
    else mret t.
Proof. reflexivity. Qed.

Lemma main_catches cfg s e s' :
  main_body cfg s = (Thrown e, s') ->
  main cfg s
  = (Returned (Exited 1),
     with_events s' [ConsoleError (FatalError (error_message e))]).
Proof. intros H. unfold main. rewrite bind_run. unfold settle. by rewrite H. Qed.

End GivingUp.

(** * The two revisions of the Batch Retry Controller *)

Lemma Promise_all_fulfilled results :
  rejected results = [] ->
  Previous.Promise_all (map as_promise results) = inr (fulfilled_results results).
Proof.
  induction results as [|r results IH]; [done|].
  unfold rejected in *. rewrite filter_cons.
  destruct r as [res i|error i]; simpl.
  - destruct (decide (false = true)); [done|]. intros H. by rewrite IH.
  - destruct (decide (true = true)); done.
Qed.

Lemma fulfilled_indices results :
  Forall well_indexed results -> rejected results = [] ->
  map rowIndex (fulfilled_results results) = map settled_index results.
Proof.
  intros H. induction H as [|r results Hr H IH]; [done|].
  unfold rejected in *. rewrite filter_cons.
  destruct r as [res i|error i]; simpl in *.
  - destruct (decide (false = true)); [done|]. intros Hnone.
    change (fulfilled_results (Fulfilled res i :: results))
      with (res :: fulfilled_results results).
    simpl. by rewrite IH, Hr.
  - destruct (decide (true = true)); done.
Qed.

Section Revisions.
Context {platform : Platform}.

Lemma rowPromise_processRow j columnName modelName prompt :
  Previous.rowPromise j j columnName modelName prompt
  = processRow j j (SingleColumn columnName) modelName prompt None None.
Proof. reflexivity. Qed.

Lemma batchPromises_run_round columnName modelName prompt l : forall s,
  Previous.batchPromises columnName modelName prompt l s
  = match run_round (SingleColumn columnName) modelName prompt None None l s with
    | (Returned results, s') => (Returned (map as_promise results), s')
    | (Thrown e, s') => (Thrown e, s')
    | (OutOfFuel, s') => (OutOfFuel, s')
    end.
Proof.
  induction l as [|j l IH]; intros s; [done|].
  cbn [Previous.batchPromises run_round]. unfold row_task.
  rewrite !bind_run, rowPromise_processRow.
  destruct (settle _ s) as [[p| |] s1]; [|done..].
  cbn [mret M_ret]. rewrite !bind_run, IH.
  destruct (run_round _ _ _ _ _ l s1) as [[results| |] s2]; [|done..].
  by destruct p.
Qed.

Lemma Previous_processBatch_loop_step fuel batchStart batchEnd columnName
    modelName prompt maxRetries retryCount :
  Previous.processBatch_loop (S fuel) batchStart batchEnd columnName modelName
    prompt maxRetries retryCount
  = if (retryCount <=? maxRetries)%nat then
      ps ← Previous.batchPromises columnName modelName prompt
             (seq batchStart (batchEnd - batchStart));
      match Previous.Promise_all ps with
      | inr batchResults => mret (Some batchResults)
      | inl error =>
          let retryCount := S retryCount in
          let errorMsg := Previous.batch_error_message error in
          let statusCode := status_code error in
          if (maxRetries <? retryCount)%nat then
            emit_all [ConsoleError (BatchFailed maxRetries);
                      ConsoleError (StatusAndError statusCode errorMsg)];;
            throw (Error ("Batch failed after " +:+ pretty maxRetries
                          +:+ " retries: " +:+ errorMsg))
          else
            emit_all [Warn (BatchFailedAttempt retryCount maxRetries);
                      Warn (StatusAndError statusCode errorMsg);
                      Warn (RetryingEntireBatch (2 ^ retryCount))];;
            sleep (2 ^ retryCount * 1000);;
            Previous.processBatch_loop fuel batchStart batchEnd columnName
              modelName prompt maxRetries retryCount
      end
    else mret None.
Proof. reflexivity. Qed.

Lemma processBatch_agreement (batchStart batchEnd : nat)
    (columnName modelName prompt : string) (maxRetries : nat)
    (s s' : state) (results : list settled) :
  run_round (SingleColumn columnName) modelName prompt None None
    (seq batchStart (batchEnd - batchStart)) s = (Returned results, s') ->
  rejected results = [] ->
  processBatch batchStart batchEnd (SingleColumn columnName) modelName prompt
    None None maxRetries s
  = (Returned (fulfilled_results results), s')
  /\ Previous.processBatch batchStart batchEnd columnName modelName prompt
       maxRetries s
     = (Returned (Some (fulfilled_results results)), s')
  /\ map rowIndex (fulfilled_results results)
     = seq batchStart (batchEnd - batchStart)
  /\ exists evs,
       trace s' = trace s ++ evs
       /\ length (posts evs) = batchEnd - batchStart
       /\ sleeps evs = [].
Proof.
  intros Hround Hnone.
  set (l := seq batchStart (batchEnd - batchStart)) in *.
  destruct (runs_inv _ _ _ _ _
              (run_round_runs (SingleColumn columnName) modelName prompt None
                 None l s) Hround)
    as (evs & Ht & rs & [= <-] & Hidx & Hwi & _ & (Hs & _) & _ & _ & Hposts).
  specialize (Hposts Hnone).
  split; [|split; [|split]].
  - unfold processBatch. fold l. replace (maxRetries + 2) with (S (S maxRetries)) by lia.
    rewrite processBatch_loop_step. cbn [Nat.leb andb].
    destruct l as [|i l'] eqn:El.
    + by injection Hround as <- <-.
    + rewrite <- El in *.
      assert ((0 <? length l)%nat = true) as -> by (by rewrite El).
      cbn [Nat.leb andb].
      rewrite bind_run, Hround. cbn zeta. rewrite Hnone.
      cbn [map length Nat.ltb Nat.leb]. by rewrite processBatch_loop_done.
  - subst l. unfold Previous.processBatch.
    replace (maxRetries + 2) with (S (S maxRetries)) by lia.
    rewrite Previous_processBatch_loop_step. cbn [Nat.leb].
    rewrite bind_run, batchPromises_run_round, Hround.
    by rewrite Promise_all_fulfilled.
  - rewrite fulfilled_indices by done. exact Hidx.
  - exists evs. rewrite Hposts. subst l. by rewrite length_seq.
Qed.

End Revisions.

(** * Column Driver and Run Orchestrator *)

Section Driver.
Context {platform : Platform}.

Lemma write_progress_run path s r0 :
  path <> "" -> rows s !! 0 = Some r0 ->
  write_progress path s =
  (Returned tt,
   {| rows := rows s;
      world := (writeRecords path (rows s) (Object_keys r0) (world s)).2;
      trace := trace s
               ++ checkpoint_events path (rows s) (Object_keys r0)
                    (writeRecords path (rows s) (Object_keys r0) (world s)).1 |}).
Proof.
  intros Hpath Hr0. unfold write_progress.
  apply string_eqb_neq in Hpath. rewrite Hpath.
  rewrite bind_run. unfold settle, first_row_keys.
  rewrite !bind_run. unfold get_rows at 1. rewrite Hr0.
  unfold mret at 1, M_ret at 1. rewrite bind_run. unfold get_rows at 1.
  unfold writeCSV, checkpoint_events.
  destruct (writeRecords path (rows s) (Object_keys r0) (world s)) as [[e|] w];
    cbn [fst snd].
  - unfold emit. cbn [rows world trace]. by rewrite <- app_assoc.
  - reflexivity.
Qed.


End Driver.

Lemma batches_from_done totalRows batchSize i :
  1 <= batchSize -> totalRows <= i -> batches_from totalRows batchSize i = 0.
Proof.
  intros Hb Hi. unfold batches_from.
  replace (totalRows - i + batchSize - 1) with (batchSize - 1) by lia.
  apply Nat.div_small. lia.
Qed.

Lemma batches_from_step totalRows batchSize i :
  1 <= batchSize -> i < totalRows ->
  batches_from totalRows batchSize i
  = S (batches_from totalRows batchSize (i + batchSize)).
Proof.
  intros Hb Hi. unfold batches_from.
  destruct (decide (i + batchSize <= totalRows)) as [Hle|Hgt].
  - replace (totalRows - i + batchSize - 1)
      with ((totalRows - (i + batchSize) + batchSize - 1) + 1 * batchSize) by lia.
    rewrite Nat.div_add by lia. lia.
  - replace (totalRows - (i + batchSize) + batchSize - 1) with (batchSize - 1) by lia.
    rewrite (Nat.div_small (batchSize - 1)) by lia.
    replace (totalRows - i + batchSize - 1)
      with ((totalRows - i - 1) + 1 * batchSize) by lia.
    rewrite Nat.div_add by lia. rewrite Nat.div_small by lia. done.
Qed.

Section Orchestrator.
Context {platform : Platform}.

Lemma write_progress_runs path s :
  runs (write_progress path) s (fun o s' evs =>
    o = Returned tt /\ rows s' = rows s
    /\ Forall (checkpoint_of path (length (rows s))) (writes evs)
    /\ (path <> "" -> rows s <> [] -> length (writes evs) = 1)).
Proof.
  destruct (decide (path = "")) as [->|Hpath].
  { unfold write_progress. cbn [String.eqb]. step.
    split; [done|]. split; [done|]. split; [apply Forall_nil_2|done]. }
  destruct (rows s) as [|r0 rest] eqn:E.
  - unfold write_progress. apply string_eqb_neq in Hpath. rewrite Hpath.
    step. step. unfold first_row_keys. step. step. step. rewrite E.
    cbn [lookup list_lookup]. step. step. 
    split; [done|]. split; [done|]. split; [apply Forall_nil_2|done].
  - assert (rows s !! 0 = Some r0) as Hr0 by (by rewrite E).
    unfold runs. rewrite (write_progress_run path s r0) by done.
    eexists _, _, _. split; [done|]. split; [done|]. cbn [rows].
    split; [done|]. split; [by rewrite E|].
    unfold checkpoint_events. rewrite E.
    destruct (writeRecords _ _ _ _).1; cbn; (split; [|done]);
      (apply Forall_cons_2; [done|apply Forall_nil_2]).
Qed.

Lemma cooldown_runs (b : bool) ms s :
  runs (if b then sleep ms else mret tt) s (fun o s' evs =>
    o = Returned tt /\ rows s' = rows s /\ writes evs = []).
Proof. destruct b; [apply runs_emit | apply runs_ret]; done. Qed.

Lemma processColumn_loop_runs columnInfo st plugins webSearchOptions path
    totalRows : forall fuel i t s,
  totalRows = length (rows s) ->
  runs (processColumn_loop fuel columnInfo st plugins webSearchOptions path
          totalRows i t) s (fun o s' evs =>
    length (rows s') = totalRows
    /\ Forall (checkpoint_of path totalRows) (writes evs)
    /\ (path <> "" -> 1 <= cfg_batchSize st ->
        batches_from totalRows (cfg_batchSize st) i < fuel ->
        match o with
        | Returned _ =>
            length (writes evs) = batches_from totalRows (cfg_batchSize st) i
        | Thrown _ => True
        | OutOfFuel => False
        end)).
Proof.
  induction fuel as [|fuel IH]; intros i t s Htotal.
  { apply runs_throw || (eexists _, s, []; split; [reflexivity|]).
    split; [by rewrite app_nil_r|]. split; [done|].
    split; [apply Forall_nil_2|]. intros _ _ Hfuel. lia. }
  rewrite processColumn_loop_step.
  destruct (i <? totalRows)%nat eqn:Hi.
  2:{ apply Nat.ltb_ge in Hi. step. split; [done|]. split; [apply Forall_nil_2|].
      intros _ Hb _. by rewrite batches_from_done. }
  apply Nat.ltb_lt in Hi.
  step. eapply runs_mono; [apply processBatch_runs|]. cbn beta.
  intros o s1 evs1 (Hlen1 & Hw1 & R & _ & _ & _ & Ho).
  destruct o as [batchResults|e|]; [| |done].
  2:{ rewrite Hw1. split; [congruence|]. split; [apply Forall_nil_2|done]. }
  step. eapply runs_mono; [apply write_progress_runs|].
  cbn beta. intros o s2 evs2 (-> & Hrows2 & Hall2 & Hw2).
  step. eapply runs_mono; [apply cooldown_runs|]. cbn beta.
  intros o s3 evs3 (-> & Hrows3 & Hw3).
  assert (length (rows s3) = totalRows) as Hlen3 by congruence.
  eapply runs_mono; [apply IH; done|]. cbn beta.
  intros o s4 evs4 (Hlen4 & Hall & Ho4).
  split; [done|].
  rewrite !writes_app, Hw1, Hw3. cbn [app].
  split.
  - apply Forall_app. split; [|done]. by rewrite Hlen1, <- Htotal in Hall2.
  - intros Hpath Hb Hfuel.
    rewrite (batches_from_step totalRows (cfg_batchSize st) i) in * by done.
    specialize (Ho4 Hpath Hb ltac:(lia)).
    destruct o; [|done..]. rewrite length_app, Ho4, Hw2; [done|done|].
    intros E. rewrite E in Hlen1. simpl in Hlen1. lia.
Qed.

Lemma batches_from_bound totalRows batchSize :
  1 <= batchSize -> batches_from totalRows batchSize 0 < totalRows + 1.
Proof.
  intros Hb. unfold batches_from. apply Nat.Div0.div_lt_upper_bound. nia.
Qed.

Lemma processColumn_runs c path s :
  runs (processColumn c path) s (fun o s' evs =>
    length (rows s') = length (rows s)
    /\ Forall (checkpoint_of path (length (rows s))) (writes evs)
    /\ (path <> "" -> 1 <= cfg_batchSize (settings_of c) ->
        match o with
        | Returned _ =>
            length (writes evs)
            = batches_from (length (rows s)) (cfg_batchSize (settings_of c)) 0
        | Thrown _ => True
        | OutOfFuel => False
        end)).
Proof.
  unfold processColumn. step. step. step.
  eapply runs_mono; [by apply processColumn_loop_runs|].
  cbn beta. intros o s1 evs1 (Hlen & Hall & Ho).
  destruct o as [t|e|].
  - step. rewrite app_nil_r. split; [done|]. split; [done|].
    intros Hpath Hb. apply (Ho Hpath Hb). by apply batches_from_bound.
  - split; [done|]. split; [done|]. done.
  - split; [done|]. split; [done|]. intros Hpath Hb.
    apply (Ho Hpath Hb). by apply batches_from_bound.
Qed.

Lemma process_columns_runs cs path : forall grand s,
  runs (process_columns cs path grand) s (fun o s' evs =>
    length (rows s') = length (rows s)
    /\ Forall (checkpoint_of path (length (rows s))) (writes evs)).
Proof.
  induction cs as [|c cs IH]; intros grand s; cbn [process_columns].
  - step. split; [done|]. apply Forall_nil_2.
  - step. eapply runs_mono; [apply processColumn_runs|]. cbn beta.
    intros o s1 evs1 (Hlen1 & Hall1 & _).
    destruct o as [columnStats|e|]; [|done..].
    eapply runs_mono; [apply IH|]. cbn beta.
    intros o s2 evs2 (Hlen2 & Hall2).
    split; [congruence|]. rewrite writes_app. apply Forall_app.
    split; [done|]. by rewrite Hlen1 in Hall2.
Qed.

Lemma process_columns_app cs1 cs2 path : forall grand s,
  process_columns (cs1 ++ cs2) path grand s
  = (grand' ← process_columns cs1 path grand;
     process_columns cs2 path grand') s.
Proof.
  induction cs1 as [|c cs1 IH]; intros grand s; [done|].
  cbn [app process_columns]. rewrite !bind_run.
  destruct (processColumn c path s) as [[columnStats|e|] s1]; [|done..].
  by rewrite IH, bind_run.
Qed.

Lemma main_body_processing cfg cs s :
  nonempty (inputFileName cfg) = true ->
  nonempty (outputFileName cfg) = true ->
  validate_columns (columns cfg) = Some cs ->
  rows s <> [] ->
  main_body cfg s
  = (grand ← process_columns cs (progress_path (outputFileName cfg)) no_stats;
     allHeaders ← first_row_keys;
     all ← get_rows;
     writeCSV (outputFileName cfg) all allHeaders;;
     mret (Completed grand)) s.
Proof.
  intros Hin Hout Hcs Hrows. unfold main_body.
  rewrite Hin, Hout, Hcs. cbn [andb negb].
  rewrite bind_run. unfold get_rows at 1.
  destruct (rows s) eqn:E; [done|]. reflexivity.
Qed.

(** C7.  For a valid configuration whose columns are [cs1 ++ c :: cs2] and
    a non-empty row set: if the columns [cs1] are processed, in order, from
    [s] to [s1], and column [c] then throws leaving the state [s2], the run
    ends with exit status 1, in the state [s2] with one more console error
    and nothing else: no event for a column of [cs2], no write of the output
    file, and the rows and the checkpoints written up to the failure are
    those of [s2], which extends the trace of [s].  In general
    [process_columns] over [cs1 ++ c :: cs2] is [cs1], then [c], then [cs2],
    each run on the state the previous one left. *)
Theorem main_aborts_on_fatal_failure (cfg : config)
    (cs1 cs2 : list columnConfig) (c : columnConfig) (s s1 s2 : state)
    (grand : column_stats) (e : js_error) :
  nonempty (inputFileName cfg) = true ->
  nonempty (outputFileName cfg) = true ->
  validate_columns (columns cfg) = Some (cs1 ++ c :: cs2) ->
  rows s <> [] ->
  process_columns cs1 (progress_path (outputFileName cfg)) no_stats s
  = (Returned grand, s1) ->
  processColumn c (progress_path (outputFileName cfg)) s1 = (Thrown e, s2) ->
  main cfg s
  = (Returned (Exited 1),
     {| rows := rows s2; world := world s2;
        trace := trace s2 ++ [ConsoleError (FatalError (error_message e))] |})
  /\ (exists evs, trace s2 = trace s ++ evs)
  /\ (forall path g s0,
        process_columns (cs1 ++ c :: cs2) path g s0
        = (g1 ← process_columns cs1 path g;
           columnStats ← processColumn c path;
           process_columns cs2 path (add_stats g1 columnStats)) s0).
Proof.
  intros Hin Hout Hcs Hrows Hbefore Hthrow.
  assert (main_body cfg s = (Thrown e, s2)) as Hbody.
  { rewrite (main_body_processing cfg _ s Hin Hout Hcs Hrows).
    rewrite bind_run, process_columns_app, bind_run, Hbefore.
    cbn [process_columns]. by rewrite bind_run, Hthrow. }
  split; [by apply main_catches|]. split.
  - destruct (runs_inv _ _ _ _ _ (process_columns_runs cs1 _ no_stats s) Hbefore)
      as (evs1 & Ht1 & _).
    destruct (runs_inv _ _ _ _ _ (processColumn_runs c _ s1) Hthrow)
      as (evs2 & Ht2 & _).
    exists (evs1 ++ evs2). by rewrite Ht2, Ht1, app_assoc.
  - intros path g s0. by rewrite process_columns_app.
Qed.

End Orchestrator.

Lemma lower_dot a : lower a = "."%char -> a = "."%char.
Proof. destruct a as [[] [] [] [] [] [] [] []]; vm_compute; congruence. Qed.
Lemma lower_c a : lower a = "c"%char -> a = "c"%char \/ a = "C"%char.
Proof. destruct a as [[] [] [] [] [] [] [] []]; vm_compute; intuition congruence. Qed.
Lemma lower_s a : lower a = "s"%char -> a = "s"%char \/ a = "S"%char.
Proof. destruct a as [[] [] [] [] [] [] [] []]; vm_compute; intuition congruence. Qed.
Lemma lower_v a : lower a = "v"%char -> a = "v"%char \/ a = "V"%char.
Proof. destruct a as [[] [] [] [] [] [] [] []]; vm_compute; intuition congruence. Qed.

Lemma progress_path_csv base ext :
  csv_suffix ext -> progress_path (base +:+ ext) = base +:+ ".progress".
Proof.
  intros (c & s & v & -> & Hc & Hs & Hv). unfold progress_path.
  rewrite chars_app, length_app.
  change (chars (String "." (String c (String s (String v EmptyString)))))
    with ["."%char; c; s; v].
  cbn [length]. replace (length (chars base) + 4 - 4) with (length (chars base)) by lia.
  rewrite drop_app_length, take_app_length.
  assert (map lower ["."%char; c; s; v] = chars ".csv") as ->.
  { destruct Hc as [-> | ->], Hs as [-> | ->], Hv as [-> | ->]; reflexivity. }
  rewrite bool_decide_eq_true_2 by done.
  by rewrite text_app, text_chars.
Qed.

Lemma progress_path_other out :
  (forall base ext, out = base +:+ ext -> ~ csv_suffix ext) ->
  progress_path out = out.
Proof.
  intros Hno. unfold progress_path.
  destruct (bool_decide _) eqn:Hdec; [|done]. exfalso.
  apply bool_decide_eq_true_1 in Hdec.
  set (l := chars out) in *. set (n := length l) in *.
  apply (Hno (text (take (n - 4) l)) (text (drop (n - 4) l))).
  - rewrite <- text_app, take_drop. unfold l. by rewrite text_chars.
  - destruct (drop (n - 4) l) as [|a [|c [|s [|v [|]]]]]; try done.
    injection Hdec as Ha Hc Hs Hv.
    apply lower_dot in Ha as ->.
    exists c, s, v. split; [done|].
    split; [by apply lower_c|]. split; [by apply lower_s | by apply lower_v].
Qed.

Lemma progress_path_nonempty out : out <> "" -> progress_path out <> "".
Proof.
  intros Hout. unfold progress_path. destruct (bool_decide _); [|done].
  intros H. apply (f_equal chars) in H. rewrite chars_text in H.
  apply app_eq_nil in H as [_ H]. done.
Qed.

Section Paths.
Context {platform : Platform}.

Lemma writeCSV_runs path records headers s :
  runs (writeCSV path records headers) s (fun o s' evs =>
    writes evs = [(path, records, headers)]).
Proof.
  unfold runs, writeCSV.
  destruct (writeRecords path records headers (world s)) as [[e|] w];
    eexists _, _, [WriteCSV path records headers]; done.
Qed.

Lemma first_row_keys_runs s :
  runs first_row_keys s (fun o s' evs => evs = []).
Proof.
  unfold first_row_keys. step. step. destruct (rows s !! 0); by step.
Qed.

End Paths.

Section SingleColumn.
Context {platform : Platform}.

(** A single-column task touches no row but its own, and a task that
    succeeds has stored the trimmed text of a response in its row. *)
Lemma processRow_single_rows j columnName modelName prompt plugins
    webSearchOptions s o s1 :
  processRow j j (SingleColumn columnName) modelName prompt plugins
    webSearchOptions s = (o, s1) ->
  (forall i, i <> j -> rows s1 !! i = rows s !! i)
  /\ (forall a, o = Returned a ->
        exists r t,
          rows s !! j = Some r
          /\ rows s1 !! j = Some (row_set r columnName (VStr (trim t)))).
Proof.
  unfold processRow. rewrite bind_run. unfold get_rows at 1.
  rewrite bind_run.
  destruct (fillPromptTemplate prompt (rows s !! j)) as [e|filled]; cbn [lift].
  { intros [= <- <-]. split; [done|]. intros a Ha; discriminate. }
  unfold mret at 1, M_ret at 1. rewrite bind_run.
  unfold callOpenRouterAPI. rewrite bind_run. unfold post at 1.
  destruct (axios_post _ (world s)) as [[body|e] w].
  2:{ intros [= <- <-]. split; [done|]. intros a Ha; discriminate. }
  unfold mret at 1, M_ret at 1. rewrite bind_run.
  unfold row_assign at 1. cbn [rows].
  destruct (rows s !! j) as [r|] eqn:Hr.
  2:{ intros [= <- <-]. split; [done|]. intros a Ha; discriminate. }
  unfold mret, M_ret. intros [= <- <-]. cbn [rows]. split.
  - intros i Hi. by apply list_lookup_insert_ne.
  - intros a _. exists r, (content body). split; [done|].
    apply list_lookup_insert_eq. by eapply lookup_lt_Some.
Qed.

Lemma run_round_single_rows columnName modelName prompt plugins
    webSearchOptions l : forall s results s',
  NoDup l ->
  run_round (SingleColumn columnName) modelName prompt plugins
    webSearchOptions l s = (Returned results, s') ->
  rejected results = [] ->
  (forall i, i ∉ l -> rows s' !! i = rows s !! i)
  /\ (forall i, i ∈ l ->
        exists r t,
          rows s !! i = Some r
          /\ rows s' !! i = Some (row_set r columnName (VStr (trim t)))).
Proof.
  induction l as [|j l IH]; intros s results s' Hnd Hrun Hnone.
  { injection Hrun as <- <-. split; [done|]. intros i Hi. by apply elem_of_nil in Hi. }
  apply NoDup_cons in Hnd as [Hj Hnd].
  cbn [run_round] in Hrun. rewrite bind_run in Hrun.
  unfold row_task at 1 in Hrun. rewrite bind_run in Hrun.
  unfold settle at 1 in Hrun.
  destruct (processRow j j _ _ _ _ _ s) as [o s1] eqn:Htask.
  apply processRow_single_rows in Htask as [Hframe Hown].
  destruct o as [a|e|]; [| |done].
  2:{ unfold mret at 1, M_ret at 1 in Hrun. rewrite bind_run in Hrun.
      destruct (run_round _ _ _ _ _ l s1) as [[rs| |] s2]; [|done..].
      injection Hrun as <- <-. unfold rejected in Hnone.
      rewrite filter_cons in Hnone. simpl in Hnone.
      destruct (decide (true = true)); done. }
  unfold mret at 1, M_ret at 1 in Hrun. rewrite bind_run in Hrun.
  destruct (run_round _ _ _ _ _ l s1) as [[rs| |] s2] eqn:Hrest; [|done..].
  injection Hrun as <- <-.
  assert (rejected rs = []) as Hnone'.
  { unfold rejected in *. rewrite filter_cons in Hnone. simpl in Hnone.
    destruct (decide (false = true)); done. }
  destruct (IH s1 rs s2 Hnd Hrest Hnone') as [Hframe' Hown'].
  destruct (Hown a eq_refl) as (r & t & Hr & Hr1).
  split.
  - intros i Hi. apply not_elem_of_cons in Hi as [Hne Hi].
    rewrite Hframe' by done. by apply Hframe.
  - intros i Hi. apply elem_of_cons in Hi as [->|Hi].
    + exists r, t. split; [done|]. by rewrite Hframe'.
    + destruct (Hown' i Hi) as (r' & t' & Hr' & Hr2).
      exists r', t'. split; [|done]. rewrite <- Hframe; [done|].
      intros ->. done.
Qed.

End SingleColumn.

Section Checkpoints.
Context {platform : Platform}.


(** C10.  For a single column, when the round over the batch rejects no
    row, [processBatch] and [Previous.processBatch] (the earlier revision,
    which has neither plugins nor web search options) return the same
    outcomes, one per row and in the order of the rows, and leave the same
    state: one request per row of the batch, no pause, and in every row of
    the batch the trimmed text of the response under the column name. *)
Theorem processBatch_agrees_with_previous (batchStart batchEnd : nat)
    (columnName modelName prompt : string) (maxRetries : nat)
    (s s' : state) (results : list settled) :
  run_round (SingleColumn columnName) modelName prompt None None
    (seq batchStart (batchEnd - batchStart)) s = (Returned results, s') ->
  rejected results = [] ->
  processBatch batchStart batchEnd (SingleColumn columnName) modelName prompt
    None None maxRetries s
  = (Returned (fulfilled_results results), s')
  /\ Previous.processBatch batchStart batchEnd columnName modelName prompt
       maxRetries s
     = (Returned (Some (fulfilled_results results)), s')
  /\ map rowIndex (fulfilled_results results)
     = seq batchStart (batchEnd - batchStart)
  /\ (exists evs,
        trace s' = trace s ++ evs
        /\ length (posts evs) = batchEnd - batchStart
        /\ sleeps evs = [])
  /\ (forall i,
        batchStart <= i < batchEnd ->
        exists r t,
          rows s !! i = Some r
          /\ rows s' !! i = Some (row_set r columnName (VStr (trim t)))).
Proof.
  intros Hround Hnone.
  destruct (processBatch_agreement batchStart batchEnd columnName modelName
              prompt maxRetries s s' results Hround Hnone)
    as (Hnew & Hold & Hidx & Hevs).
  split; [done|]. split; [done|]. split; [done|]. split; [done|].
  destruct (run_round_single_rows columnName modelName prompt None None _ s
              results s' (NoDup_seq _ _) Hround Hnone) as [_ Hown].
  intros i Hi. apply Hown. apply list_elem_of_In, in_seq. lia.
Qed.

End Checkpoints.

(** * Edges, invariants and bounds *)

Lemma no_placeholder_tail c t : ~ has_placeholder (c :: t) -> ~ has_placeholder t.
Proof.
  intros H (pre & n & post & Hn & ->). apply H.
  by exists (c :: pre), n, post.
Qed.

Lemma no_placeholder_no_match s :
  ~ has_placeholder s -> match_placeholder s = None.
Proof.
  intros H. destruct (match_placeholder s) as [[n r]|] eqn:E; [|done].
  apply match_placeholder_sound in E as [-> Hn].
  exfalso. apply H. by exists [], n, r.
Qed.

(** Where the expression has no match the text is not changed and the
    callback is not called. *)
Lemma replace_placeholders_none cb : forall fuel s,
  length s <= fuel -> ~ has_placeholder s ->
  replace_placeholders fuel cb s = inr s.
Proof.
  induction fuel as [|fuel IH]; intros s Hlen Hs.
  - by destruct s.
  - destruct s as [|c t]; [done|].
    rewrite replace_placeholders_step, no_placeholder_no_match by done.
    rewrite IH; [done | simpl in Hlen; lia | by eapply no_placeholder_tail].
Qed.

Lemma placeholder_name_chars n :
  placeholder_name n -> Forall (fun c => is_word c = true \/ is_space c = true) n.
Proof.
  induction 1 as [w Hw Hall|n sp w Hn IH Hsp Hsps Hw Hws].
  - eapply Forall_impl; [exact Hall|]. auto.
  - apply Forall_app. split; [done|]. apply Forall_app. split.
    + eapply Forall_impl; [exact Hsps|]. auto.
    + eapply Forall_impl; [exact Hws|]. auto.
Qed.

Lemma placeholder_name_no_brace n :
  placeholder_name n -> Forall (fun c => is_brace c = false) n.
Proof.
  intros H. eapply Forall_impl; [by apply placeholder_name_chars|].
  intros c [Hc|Hc]; unfold is_brace.
  - apply word_not_brace in Hc as [-> ->]. done.
  - apply space_not_brace in Hc as [-> ->]. done.
Qed.

(** Two texts without braces that are followed by a closing brace in the
    same text are the same. *)
Lemma before_closing_brace a : forall a' b b',
  Forall (fun c => is_brace c = false) a ->
  Forall (fun c => is_brace c = false) a' ->
  a ++ "}"%char :: b = a' ++ "}"%char :: b' -> a = a'.
Proof.
  induction a as [|x a IH]; intros a' b b' Ha Ha' E.
  - destruct a' as [|y a']; [done|]. simpl in E. injection E as <- _.
    apply Forall_cons in Ha' as [Hy _]. done.
  - destruct a' as [|y a']; simpl in E.
    + injection E as -> _. apply Forall_cons in Ha as [Hx _]. done.
    + injection E as <- E. f_equal.
      apply Forall_cons in Ha as [_ Ha]. apply Forall_cons in Ha' as [_ Ha'].
      by eapply IH.
Qed.

Lemma braced_no_placeholder inner :
  Forall (fun c => is_brace c = false) inner ->
  ~ placeholder_name inner ->
  ~ has_placeholder (chars "{{" ++ inner ++ chars "}}").
Proof.
  intros Hinner Hnot (pre & n & post & Hn & E).
  pose proof (placeholder_name_no_brace n Hn) as Hnb.
  unfold placeholder in E. rewrite <- !app_assoc in E.
  destruct pre as [|p0 pre].
  - simpl in E. injection E as E.
    apply Hnot. by rewrite (before_closing_brace inner n _ _ Hinner Hnb E).
  - destruct pre as [|p1 pre].
    + simpl in E. injection E as _ E.
      destruct inner as [|i0 inner]; simpl in E.
      * discriminate.
      * injection E as -> _. apply Forall_cons in Hinner as [H _]. done.
    + simpl in E. injection E as _ _ E.
      (* an opening brace inside [inner ++ "}}"] *)
      assert (forall (l : list ascii) pre' X,
                Forall (fun c => is_brace c = false) l ->
                l ++ chars "}}" = pre' ++ "{"%char :: X -> False) as Hno.
      { clear. induction l as [|x l IH]; intros pre' X Hl E.
        - destruct pre' as [|a [|b [|c pre']]]; simpl in E; try discriminate.
        - destruct pre' as [|a pre']; simpl in E.
          + injection E as -> _. apply Forall_cons in Hl as [H _]. done.
          + injection E as _ E. apply Forall_cons in Hl as [_ Hl]. eauto. }
      by eapply (Hno inner pre).
Qed.

Section FillerEdges.
Context {platform : Platform}.

Lemma fillPromptTemplate_none prompt rowData :
  ~ has_placeholder (chars prompt) ->
  fillPromptTemplate prompt rowData = inr prompt.
Proof.
  intros H. unfold fillPromptTemplate.
  rewrite replace_placeholders_none by (done || by rewrite length_chars).
  by rewrite text_chars.
Qed.

Lemma fillPromptTemplate_missing_row pre name post :
  ~ has_placeholder (chars pre) -> placeholder_name (chars name) ->
  fillPromptTemplate (pre +:+ "{{" +:+ name +:+ "}}" +:+ post) None
  = inl (cannot_read "undefined" name).
Proof.
  intros Hpre Hname. unfold fillPromptTemplate.
  rewrite !chars_app.
  rewrite replace_placeholders_app by (rewrite <- length_chars, !chars_app; done).
  rewrite replace_placeholders_none by done. cbn [and_then].
  rewrite placeholder_app.
  rewrite replace_placeholders_placeholder by done.
  cbn [fill_callback and_then]. by rewrite text_chars.
Qed.

End FillerEdges.

Lemma row_kept_refl targets r : row_kept targets r r.
Proof. split; [done|]. exists []. by rewrite app_nil_r. Qed.

Lemma row_kept_trans targets a b c :
  row_kept targets a b -> row_kept targets b c -> row_kept targets a c.
Proof.
  intros [H1 (x & Hx & Hxt)] [H2 (y & Hy & Hyt)]. split.
  - intros k Hk. by rewrite H2, H1.
  - exists (x ++ y). rewrite Hy, Hx, app_assoc. split; [done|].
    apply Forall_app; done.
Qed.

Lemma Object_keys_row_set (r : Row) k v :
  (k ∈ Object_keys r -> Object_keys (row_set r k v) = Object_keys r)
  /\ (k ∉ Object_keys r -> Object_keys (row_set r k v) = Object_keys r ++ [k]).
Proof.
  unfold Object_keys. induction r as [|[k' v'] r [IH1 IH2]]; cbn [row_set map fst].
  - split; [by intros ?%elem_of_nil | done].
  - destruct (String.eqb k' k) eqn:E; cbn [map fst].
    + apply string_eqb_eq in E as ->. split; [done|].
      intros H. exfalso. apply H, list_elem_of_here.
    + apply string_eqb_neq in E. split.
      * intros [?|H]%elem_of_cons; [congruence|]. by rewrite IH1.
      * intros [_ H]%not_elem_of_cons. by rewrite IH2.
Qed.

Lemma row_kept_set targets (r : Row) k v :
  k ∈ targets -> row_kept targets r (row_set r k v).
Proof.
  intros Hk. split.
  - intros k' Hk'. apply row_get_set_ne. intros ->. done.
  - destruct (Object_keys_row_set r k v) as [H1 H2].
    destruct (decide (k ∈ Object_keys r)) as [Hin|Hout].
    + exists []. rewrite app_nil_r. auto.
    + exists [k]. split; [auto | by apply Forall_singleton].
Qed.

Lemma row_get_is_Some (r : Row) k : is_Some (row_get r k) <-> k ∈ Object_keys r.
Proof.
  unfold Object_keys. induction r as [|[k' v'] r IH]; simpl.
  - split; [by intros [? ?] | by intros ?%elem_of_nil].
  - destruct (String.eqb k' k) eqn:E.
    + apply string_eqb_eq in E as ->. split; [intros _; apply list_elem_of_here | by eexists].
    + apply string_eqb_neq in E. rewrite IH, elem_of_cons. intuition congruence.
Qed.

Lemma rows_kept_refl P targets rs : rows_kept P targets rs rs.
Proof.
  split; [done|]. intros i r r' H1 H2. rewrite H1 in H2. injection H2 as <-.
  split; [done | apply row_kept_refl].
Qed.

Lemma rows_kept_trans P targets a b c :
  rows_kept P targets a b -> rows_kept P targets b c -> rows_kept P targets a c.
Proof.
  intros [L1 H1] [L2 H2]. split; [congruence|].
  intros i r r'' Ha Hc.
  destruct (b !! i) as [r'|] eqn:Hb.
  - destruct (H1 i r r' Ha Hb) as [E1 K1].
    destruct (H2 i r' r'' Hb Hc) as [E2 K2]. split.
    + intros HP. by rewrite (E2 HP), (E1 HP).
    + by eapply row_kept_trans.
  - apply lookup_ge_None in Hb. apply lookup_lt_Some in Ha. lia.
Qed.

Lemma rows_kept_assign (P : nat -> Prop) targets rs i r k v :
  rs !! i = Some r -> P i -> k ∈ targets ->
  rows_kept P targets rs (<[i := row_set r k v]> rs).
Proof.
  intros Hi HP Hk. split; [apply length_insert|].
  intros j a a' Ha Ha'. destruct (decide (j = i)) as [->|Hne].
  - rewrite list_lookup_insert_eq in Ha' by (by eapply lookup_lt_Some).
    rewrite Hi in Ha. injection Ha as <-. injection Ha' as <-.
    split; [done | by apply row_kept_set].
  - rewrite list_lookup_insert_ne in Ha' by done.
    rewrite Ha in Ha'. injection Ha' as <-.
    split; [done | apply row_kept_refl].
Qed.

Lemma rows_kept_weaken (P P' : nat -> Prop) targets targets' rs rs' :
  (forall i, P i -> P' i) -> (forall k, k ∈ targets -> k ∈ targets') ->
  rows_kept P targets rs rs' -> rows_kept P' targets' rs rs'.
Proof.
  intros HP HT [L H]. split; [done|]. intros i r r' Hr Hr'.
  destruct (H i r r' Hr Hr') as [E [G (added & Hk & Ha)]]. split; [auto|]. split.
  - intros k Hk'. apply G. auto.
  - exists added. split; [done|]. eapply Forall_impl; [exact Ha|]. auto.
Qed.

Section Conjunction.
Context {platform : Platform}.

(** A computation is a function: two postconditions hold together. *)
Lemma runs_and {A} (m : M A) s (Q1 Q2 : outcome A -> state -> list event -> Prop) :
  runs m s Q1 -> runs m s Q2 -> runs m s (fun o s' evs => Q1 o s' evs /\ Q2 o s' evs).
Proof.
  intros (o & s' & evs & Hm & Ht & H1) (o2 & s2 & evs2 & Hm2 & Ht2 & H2).
  rewrite Hm in Hm2. injection Hm2 as <- <-.
  rewrite Ht in Ht2. apply app_inv_head in Ht2 as <-.
  by exists o, s', evs.
Qed.

Lemma runs_total {A} (m : M A) s : runs m s (fun _ _ _ => True) ->
  forall Q : outcome A -> state -> list event -> Prop,
  (forall o s' evs, m s = (o, s') -> trace s' = trace s ++ evs -> Q o s' evs) ->
  runs m s Q.
Proof.
  intros (o & s' & evs & Hm & Ht & _) Q HQ. exists o, s', evs. auto.
Qed.

End Conjunction.

(** * What a run may change in the rows *)

Section Frame.
Context {platform : Platform}.
Variable R : list Row -> list Row -> Prop.
Variable ok : nat -> string -> Prop.
Hypothesis R_refl : forall rs, R rs rs.
Hypothesis R_trans : forall a b c, R a b -> R b c -> R a c.
Hypothesis R_assign : forall rs i r k v,
  rs !! i = Some r -> ok i k -> R rs (<[i := row_set r k v]> rs).

Lemma frame_bind {A B} (m : M A) (f : A -> M B) s
    (Q : outcome A -> state -> list event -> Prop) :
  runs m s (fun o s1 evs => R (rows s) (rows s1) /\ Q o s1 evs) ->
  (forall a s1 evs, Q (Returned a) s1 evs ->
     runs (f a) s1 (fun _ s2 _ => R (rows s1) (rows s2))) ->
  runs (m ≫= f) s (fun _ s2 _ => R (rows s) (rows s2)).
Proof.
  intros Hm Hf. apply runs_bind. eapply runs_mono; [exact Hm|].
  intros o s1 evs [HR HQ]. destruct o as [a|e|]; [|done..].
  eapply runs_mono; [by eapply Hf|]. intros o' s2 evs2 HR2. by eapply R_trans.
Qed.

Lemma frame_pure {A} (m : M A) s :
  runs m s (fun _ s1 _ => rows s1 = rows s) ->
  runs m s (fun o s1 evs => R (rows s) (rows s1) /\ True).
Proof.
  intros H. eapply runs_mono; [exact H|]. intros o s1 evs ->. auto.
Qed.

Lemma frame_row_assign i k v s :
  ok i k -> runs (row_assign i k v) s (fun _ s' _ => R (rows s) (rows s')).
Proof.
  intros Hok. apply runs_row_assign.
  destruct (rows s !! i) as [r|] eqn:Hr; simpl; auto.
Qed.

Lemma frame_assign_parsed row parsed columns : forall s,
  (forall c, c ∈ columns -> ok row c) ->
  runs (assign_parsed row parsed columns) s (fun _ s' _ => R (rows s) (rows s')).
Proof.
  induction columns as [|c cs IH]; intros s Hok; cbn [assign_parsed].
  - by apply runs_ret.
  - apply (frame_bind _ _ _ (fun _ _ _ => True)).
    + apply runs_lift. by destruct (Get parsed c).
    + intros v s1 _ _.
      apply (frame_bind _ _ _ (fun _ _ _ => True)).
      * eapply runs_mono; [apply frame_row_assign; apply Hok, list_elem_of_here|].
        auto.
      * intros _ s2 _ _. apply IH. intros c' Hc'. by apply Hok, list_elem_of_further.
Qed.

Lemma frame_assign_undetectable row columns : forall s,
  (forall c, c ∈ columns -> ok row c) ->
  runs (assign_undetectable row columns) s
    (fun _ s' _ => R (rows s) (rows s')).
Proof.
  induction columns as [|c cs IH]; intros s Hok; cbn [assign_undetectable].
  - by apply runs_ret.
  - apply (frame_bind _ _ _ (fun _ _ _ => True)).
    + eapply runs_mono; [apply frame_row_assign; apply Hok, list_elem_of_here|].
      auto.
    + intros _ s2 _ _. apply IH. intros c' Hc'. by apply Hok, list_elem_of_further.
Qed.

Lemma frame_settle {A} (m : M A) s :
  runs m s (fun _ s' _ => R (rows s) (rows s')) ->
  runs (settle m) s (fun _ s' _ => R (rows s) (rows s')).
Proof.
  intros H. apply runs_settle. eapply runs_mono; [exact H|].
  by intros [a|e|] s' evs.
Qed.

Lemma frame_emit ev s : runs (emit ev) s (fun _ s' _ => R (rows s) (rows s')).
Proof. apply runs_emit. simpl. auto. Qed.

Lemma frame_emit_all evs s :
  runs (emit_all evs) s (fun _ s' _ => R (rows s) (rows s')).
Proof. apply runs_emit_all. simpl. auto. Qed.

Lemma frame_with_true {A} (m : M A) s :
  runs m s (fun _ s' _ => R (rows s) (rows s')) ->
  runs m s (fun o s1 evs => R (rows s) (rows s1) /\ True).
Proof. intros H. eapply runs_mono; [exact H|]. auto. Qed.

Lemma frame_distribute_group row rowIndex columns apiResult s :
  (forall c, c ∈ columns -> ok row c) ->
  runs (distribute_group row rowIndex columns apiResult) s
    (fun _ s' _ => R (rows s) (rows s')).
Proof.
  intros Hok. unfold distribute_group.
  apply (frame_bind _ _ _ (fun _ _ _ => True)).
  - apply frame_with_true, frame_settle.
    apply (frame_bind _ _ _ (fun _ _ _ => True)).
    + apply parse_runs. destruct (JSON_parse _); auto.
    + intros parsed s1 _ _. by apply frame_assign_parsed.
  - intros [e|[]] s1 _ _.
    + apply (frame_bind _ _ _ (fun _ _ _ => True));
        [apply frame_with_true, frame_emit|].
      intros _ s2 _ _.
      apply (frame_bind _ _ _ (fun _ _ _ => True));
        [apply frame_with_true, frame_emit|].
      intros _ s3 _ _. by apply frame_assign_undetectable.
    + by apply runs_ret.
Qed.

Lemma frame_processRow row rowIndex columnInfo modelName prompt plugins
    webSearchOptions s :
  (forall c, c ∈ target_columns columnInfo -> ok row c) ->
  runs (processRow row rowIndex columnInfo modelName prompt plugins
          webSearchOptions) s (fun _ s' _ => R (rows s) (rows s')).
Proof.
  intros Hok. unfold processRow.
  apply (frame_bind _ _ _ (fun _ _ _ => True)).
  { apply runs_get_rows. auto. }
  intros all s1 _ _.
  apply (frame_bind _ _ _ (fun _ _ _ => True)).
  { apply runs_lift. destruct (fillPromptTemplate _ _); auto. }
  intros filledPrompt s2 _ _.
  apply (frame_bind _ _ _ (fun _ _ _ => True)).
  { eapply runs_mono; [apply callOpenRouterAPI_runs|].
    intros o s' evs (_ & -> & _). auto. }
  intros apiResult s3 _ _.
  apply (frame_bind _ _ _ (fun _ _ _ => True)).
  { apply frame_with_true. destruct columnInfo as [c|cs].
    - apply frame_row_assign. apply Hok. apply list_elem_of_here.
    - by apply frame_distribute_group. }
  intros _ s4 _ _. by apply runs_ret.
Qed.

Lemma frame_row_task columnInfo modelName prompt plugins webSearchOptions
    index s :
  (forall c, c ∈ target_columns columnInfo -> ok index c) ->
  runs (row_task columnInfo modelName prompt plugins webSearchOptions index) s
    (fun _ s' _ => R (rows s) (rows s')).
Proof.
  intros Hok. unfold row_task.
  apply (frame_bind _ _ _ (fun _ _ _ => True)).
  - apply frame_with_true, frame_settle. by apply frame_processRow.
  - intros r s1 _ _. by apply runs_ret.
Qed.

Lemma frame_run_round columnInfo modelName prompt plugins webSearchOptions
    l : forall s,
  (forall i c, i ∈ l -> c ∈ target_columns columnInfo -> ok i c) ->
  runs (run_round columnInfo modelName prompt plugins webSearchOptions l) s
    (fun _ s' _ => R (rows s) (rows s')).
Proof.
  induction l as [|i l IH]; intros s Hok; cbn [run_round].
  - by apply runs_ret.
  - apply (frame_bind _ _ _ (fun _ _ _ => True)).
    + apply frame_with_true, frame_row_task.
      intros c Hc. apply Hok; [apply list_elem_of_here | done].
    + intros r s1 _ _.
      apply (frame_bind _ _ _ (fun _ _ _ => True)).
      * apply frame_with_true, IH. intros j c Hj Hc.
        apply Hok; [by apply list_elem_of_further | done].
      * intros rs s2 _ _. by apply runs_ret.
Qed.

Lemma frame_processBatch_loop columnInfo modelName prompt plugins
    webSearchOptions maxRetries : forall fuel l acc rc s,
  (forall i c, i ∈ l -> c ∈ target_columns columnInfo -> ok i c) ->
  runs (processBatch_loop fuel columnInfo modelName prompt plugins
          webSearchOptions maxRetries l acc rc) s
    (fun _ s' _ => R (rows s) (rows s')).
Proof.
  induction fuel as [|fuel IH]; intros l acc rc s Hok.
  - exists OutOfFuel, s, []. rewrite app_nil_r. auto.
  - rewrite processBatch_loop_step.
    destruct ((0 <? length l)%nat && (rc <=? maxRetries)%nat);
      [|by apply runs_ret].
    apply (frame_bind _ _ _ (fun o _ _ =>
             forall results, o = Returned results ->
                             map settled_index results = l)).
    { apply runs_and; [by apply frame_run_round|].
      eapply runs_mono; [apply run_round_runs|].
      intros o s1 evs (results & -> & Hidx & _) results' [= <-]. done. }
    intros results s1 evs Hidx. specialize (Hidx results eq_refl).
    assert (forall i c, i ∈ map settled_index (rejected results) ->
                        c ∈ target_columns columnInfo -> ok i c) as Hok'.
    { intros i c Hi Hc. apply Hok; [|done].
      rewrite <- Hidx. by apply rejected_indices_subset. }
    cbn zeta.
    destruct (0 <? length (map settled_index (rejected results)))%nat;
      [|by apply IH].
    destruct (maxRetries <? S rc)%nat.
    + apply (frame_bind _ _ _ (fun _ _ _ => True));
        [apply frame_with_true, frame_emit_all|].
      intros _ s2 _ _. by apply runs_throw.
    + apply (frame_bind _ _ _ (fun _ _ _ => True));
        [apply frame_with_true, frame_emit_all|].
      intros _ s2 _ _.
      apply (frame_bind _ _ _ (fun _ _ _ => True));
        [apply frame_with_true, frame_emit|].
      intros _ s3 _ _. by apply IH.
Qed.

Lemma frame_processBatch batchStart batchEnd columnInfo modelName prompt
    plugins webSearchOptions maxRetries s :
  (forall i c, batchStart <= i < batchEnd ->
               c ∈ target_columns columnInfo -> ok i c) ->
  runs (processBatch batchStart batchEnd columnInfo modelName prompt plugins
          webSearchOptions maxRetries) s (fun _ s' _ => R (rows s) (rows s')).
Proof.
  intros Hok. unfold processBatch. apply frame_processBatch_loop.
  intros i c Hi%list_elem_of_In%in_seq Hc. apply Hok; [lia | done].
Qed.

Lemma frame_processColumn_loop columnInfo st plugins webSearchOptions path
    totalRows : forall fuel i t s,
  (forall j c, i <= j < totalRows ->
               c ∈ target_columns columnInfo -> ok j c) ->
  runs (processColumn_loop fuel columnInfo st plugins webSearchOptions path
          totalRows i t) s (fun _ s' _ => R (rows s) (rows s')).
Proof.
  induction fuel as [|fuel IH]; intros i t s Hok.
  - exists OutOfFuel, s, []. rewrite app_nil_r. auto.
  - rewrite processColumn_loop_step.
    destruct (i <? totalRows)%nat; [|by apply runs_ret].
    apply (frame_bind _ _ _ (fun _ _ _ => True)).
    { apply frame_with_true, frame_processBatch.
      intros j c Hj Hc. apply Hok; [lia | done]. }
    intros batchResults s1 _ _.
    apply (frame_bind _ _ _ (fun _ _ _ => True)).
    { eapply runs_mono; [apply write_progress_runs|].
      intros o s' evs (_ & -> & _). auto. }
    intros _ s2 _ _.
    apply (frame_bind _ _ _ (fun _ _ _ => True)).
    { eapply runs_mono; [apply cooldown_runs|].
      intros o s' evs (_ & -> & _). auto. }
    intros _ s3 _ _. apply IH. intros j c Hj Hc. apply Hok; [lia | done].
Qed.

Lemma frame_processColumn c path s :
  (forall j k, k ∈ target_columns (columnInfo_of c) -> ok j k) ->
  runs (processColumn c path) s (fun _ s' _ => R (rows s) (rows s')).
Proof.
  intros Hok. unfold processColumn.
  apply (frame_bind _ _ _ (fun _ _ _ => True)).
  { apply runs_get_rows. auto. }
  intros all s1 _ _.
  apply (frame_bind _ _ _ (fun _ _ _ => True)).
  { apply frame_with_true, frame_processColumn_loop. intros j k _. apply Hok. }
  intros t s2 _ _. by apply runs_ret.
Qed.

Lemma frame_process_columns path cs : forall grand s,
  (forall c j k, c ∈ cs -> k ∈ target_columns (columnInfo_of c) -> ok j k) ->
  runs (process_columns cs path grand) s (fun _ s' _ => R (rows s) (rows s')).
Proof.
  induction cs as [|c cs IH]; intros grand s Hok; cbn [process_columns].
  - by apply runs_ret.
  - apply (frame_bind _ _ _ (fun _ _ _ => True)).
    + apply frame_with_true, frame_processColumn. intros j k.
      apply Hok, list_elem_of_here.
    + intros columnStats s1 _ _. apply IH. intros c' j k Hc'.
      by apply Hok, list_elem_of_further.
Qed.

End Frame.

Lemma validate_column_info c c' :
  validate_column c = Some c' -> columnInfo_of c' = columnInfo_of c.
Proof.
  destruct c as [n st|g cols st]; simpl.
  - destruct (_ && _); [|done]. by intros [= <-].
  - destruct (_ && _); [|done]. by intros [= <-].
Qed.

Lemma validate_columns_targets cs cs' :
  validate_columns cs = Some cs' -> config_targets cs' = config_targets cs.
Proof.
  unfold validate_columns. rewrite mapM_Some. unfold config_targets.
  induction 1 as [|c c' cs cs' Hc _ IH]; [done|].
  simpl. by rewrite IH, (validate_column_info c c').
Qed.

Lemma config_targets_elem cs c k :
  c ∈ cs -> k ∈ target_columns (columnInfo_of c) -> k ∈ config_targets cs.
Proof.
  intros Hc Hk. unfold config_targets. apply list_elem_of_In, in_flat_map.
  exists c. split; by apply list_elem_of_In.
Qed.

Section FrameMain.
Context {platform : Platform}.
Variable R : list Row -> list Row -> Prop.
Variable ok : nat -> string -> Prop.
Hypothesis R_refl : forall rs, R rs rs.
Hypothesis R_trans : forall a b c, R a b -> R b c -> R a c.
Hypothesis R_assign : forall rs i r k v,
  rs !! i = Some r -> ok i k -> R rs (<[i := row_set r k v]> rs).

Lemma first_row_keys_rows s :
  runs first_row_keys s (fun _ s' _ => rows s' = rows s).
Proof.
  unfold first_row_keys. apply runs_bind, runs_get_rows.
  destruct (rows s !! 0); [by apply runs_ret | by apply runs_throw].
Qed.

Lemma writeCSV_rows path records headers s :
  runs (writeCSV path records headers) s (fun _ s' _ => rows s' = rows s).
Proof.
  unfold runs, writeCSV. destruct (writeRecords _ _ _ _) as [[e|] w];
    eexists _, _, _; (split; [done|]); by split.
Qed.

Lemma frame_main_body cfg s :
  (forall j k, k ∈ config_targets (columns cfg) -> ok j k) ->
  runs (main_body cfg) s (fun _ s' _ => R (rows s) (rows s')).
Proof.
  intros Hok. unfold main_body.
  destruct (negb _); [by apply runs_ret|].
  destruct (validate_columns (columns cfg)) as [cs|] eqn:Hcs;
    [|by apply runs_ret].
  apply (frame_bind R R_trans _ _ _ (fun _ _ _ => True)).
  { apply runs_get_rows. auto. }
  intros all s1 _ _.
  destruct (length all =? 0)%nat; [by apply runs_ret|].
  apply (frame_bind R R_trans _ _ _ (fun _ _ _ => True)).
  { apply frame_with_true, (frame_process_columns R ok); try done.
    intros c j k Hc Hk. apply Hok.
    rewrite <- (validate_columns_targets _ _ Hcs).
    by eapply config_targets_elem. }
  intros grand s2 _ _.
  apply (frame_bind R R_trans _ _ _ (fun _ _ _ => True)).
  { eapply runs_mono; [apply first_row_keys_rows|]. intros o s' evs ->. auto. }
  intros allHeaders s3 _ _.
  apply (frame_bind R R_trans _ _ _ (fun _ _ _ => True)).
  { apply runs_get_rows. auto. }
  intros all' s4 _ _.
  apply (frame_bind R R_trans _ _ _ (fun _ _ _ => True)).
  { eapply runs_mono; [apply writeCSV_rows|]. intros o s' evs ->. auto. }
  intros _ s5 _ _. by apply runs_ret.
Qed.

Lemma frame_main cfg s :
  (forall j k, k ∈ config_targets (columns cfg) -> ok j k) ->
  runs (main cfg) s (fun _ s' _ => R (rows s) (rows s')).
Proof.
  intros Hok. unfold main.
  apply (frame_bind R R_trans _ _ _ (fun _ _ _ => True)).
  { apply frame_with_true, (frame_settle R), frame_main_body. done. }
  intros [e|st] s1 _ _; [|by apply runs_ret].
  apply (frame_bind R R_trans _ _ _ (fun _ _ _ => True)).
  { apply frame_with_true, frame_emit. done. }
  intros _ s2 _ _. by apply runs_ret.
Qed.

End FrameMain.

Section RowTask.
Context {platform : Platform}.

Lemma distribute_group_exact row rowIndex columns apiResult s r :
  rows s !! row = Some r ->
  distribute_group row rowIndex columns apiResult s =
  (Returned tt,
   with_row (with_events s (distribute_report rowIndex columns apiResult)) row
     (distributed columns apiResult r)).
Proof.
  intros Hr. unfold distribute_group, distributed, distribute_report, parse.
  rewrite bind_run. unfold settle at 1. rewrite bind_run.
  destruct (JSON_parse (unfence (result apiResult))) as [v|m].
  - unfold mret at 1, M_ret at 1.
    destruct (nullish v) eqn:Hv.
    + destruct columns as [|c cs].
      * simpl. unfold with_events. rewrite app_nil_r.
        rewrite with_row_same; by destruct s.
      * destruct (Get_nullish v c Hv) as [e He]. rewrite He.
        assert (assign_parsed row v (c :: cs) s = (Thrown e, s)) as ->.
        { cbn [assign_parsed]. by rewrite !bind_run, He. }
        rewrite !bind_run. unfold emit at 1.
        rewrite bind_run. unfold emit at 1.
        rewrite (assign_undetectable_present _ _ _ r) by done.
        unfold with_row, with_events, parse_failure_report; simpl.
        by rewrite <- app_assoc.
    + rewrite (assign_parsed_present _ _ _ _ r) by done.
      unfold mret, M_ret.
      destruct columns as [|c cs].
      * simpl. unfold with_events. rewrite app_nil_r.
        rewrite with_row_same by done. rewrite with_row_same; by destruct s.
      * rewrite Get_value by done. unfold with_events. rewrite app_nil_r.
        by destruct s.
  - unfold throw at 1.
    rewrite !bind_run. unfold emit at 1.
    rewrite bind_run. unfold emit at 1.
    rewrite (assign_undetectable_present _ _ _ r) by done.
    unfold with_row, with_events, parse_failure_report; simpl.
    by rewrite <- app_assoc.
Qed.

(** [processRow] on a row that exists: one request; when it is refused, its
    error and nothing else; when it is answered, the row after the
    assignment and the outcome with the usage of the response. *)
Lemma processRow_present row rowIndex columnInfo modelName prompt plugins
    webSearchOptions s r filledPrompt :
  rows s !! row = Some r ->
  fillPromptTemplate prompt (Some r) = inr filledPrompt ->
  processRow row rowIndex columnInfo modelName prompt plugins webSearchOptions s
  = let req := row_request modelName filledPrompt plugins webSearchOptions in
    match axios_post req (world s) with
    | (HttpOk body, w) =>
        (Returned (outcome_of (read_completion body) rowIndex),
         {| rows := <[row := row_after columnInfo (read_completion body) r]>
                      (rows s);
            world := w;
            trace := trace s
                     ++ Post req
                        :: task_report rowIndex columnInfo
                             (read_completion body) |})
    | (HttpFailed e, w) =>
        (Thrown e,
         {| rows := rows s; world := w; trace := trace s ++ [Post req] |})
    end.
Proof.
  intros Hr Hfill. unfold processRow. rewrite bind_run. unfold get_rows at 1.
  rewrite bind_run, Hr, Hfill. cbn [lift].
  unfold mret at 1, M_ret at 1. rewrite bind_run.
  unfold callOpenRouterAPI. rewrite bind_run. unfold post at 1.
  fold (row_request modelName filledPrompt plugins webSearchOptions).
  cbn zeta.
  destruct (axios_post _ (world s)) as [[body|e] w]; [|done].
  unfold mret at 1, M_ret at 1. rewrite bind_run.
  destruct columnInfo as [c|cs]; cbn [row_after task_report].
  - unfold row_assign at 1. cbn [rows]. rewrite Hr.
    unfold mret, M_ret. cbn [world trace]. done.
  - rewrite (distribute_group_exact _ _ _ _ _ r) by done.
    unfold mret, M_ret, with_row, with_events, outcome_of; simpl.
    by rewrite <- app_assoc.
Qed.

Lemma undetectable_truthy : truthy undetectable = true.
Proof. reflexivity. Qed.

Lemma js_or_truthy a b : truthy b = true -> truthy (js_or a b) = true.
Proof. intros H. unfold js_or. by destruct (truthy a) eqn:E. Qed.

Lemma distributed_filled columns apiResult r :
  filled (GroupColumns columns) (distributed columns apiResult r).
Proof.
  intros c Hc. unfold distributed.
  destruct (JSON_parse _) as [v|m].
  - destruct columns as [|c0 cs]; [by apply elem_of_nil in Hc|].
    destruct (nullish v).
    + exists undetectable. by rewrite row_get_set_columns.
    + eexists. rewrite row_get_set_columns by done. split; [done|].
      by apply js_or_truthy.
  - exists undetectable. by rewrite row_get_set_columns.
Qed.

Lemma row_after_filled columnInfo apiResult r :
  filled columnInfo (row_after columnInfo apiResult r).
Proof.
  destruct columnInfo as [c|cs]; cbn [row_after].
  - eexists. apply row_get_set_eq.
  - apply distributed_filled.
Qed.

Lemma processRow_missing_returns row rowIndex columnInfo modelName prompt
    plugins webSearchOptions s a s' :
  rows s !! row = None ->
  processRow row rowIndex columnInfo modelName prompt plugins webSearchOptions s
  = (Returned a, s') ->
  columnInfo = GroupColumns [].
Proof.
  intros Hr. unfold processRow. rewrite bind_run. unfold get_rows at 1.
  rewrite bind_run, Hr.
  destruct (fillPromptTemplate prompt None) as [e|p]; cbn [lift]; [done|].
  unfold mret at 1, M_ret at 1. rewrite bind_run.
  unfold callOpenRouterAPI. rewrite bind_run. unfold post at 1.
  destruct (axios_post _ (world s)) as [[body|e] w]; [|done].
  unfold mret at 1, M_ret at 1. rewrite bind_run.
  destruct columnInfo as [c|cs].
  - unfold row_assign at 1. cbn [rows]. by rewrite Hr.
  - destruct cs as [|c cs]; [done|].
    unfold distribute_group. rewrite bind_run. unfold settle at 1.
    rewrite bind_run. unfold parse.
    destruct (JSON_parse _) as [v|m].
    + unfold mret at 1, M_ret at 1. cbn [assign_parsed].
      rewrite bind_run.
      destruct (Get v c) as [e|x]; cbn [lift].
      * unfold throw at 1. rewrite bind_run. unfold emit at 1.
        rewrite bind_run. unfold emit at 1. cbn [assign_undetectable].
        rewrite bind_run. unfold row_assign at 1. cbn [rows]. by rewrite Hr.
      * unfold mret at 1, M_ret at 1. rewrite bind_run.
        unfold row_assign at 1. cbn [rows]. rewrite Hr.
        rewrite bind_run. unfold emit at 1.
        rewrite bind_run. unfold emit at 1. cbn [assign_undetectable].
        rewrite bind_run. unfold row_assign at 1. cbn [rows]. by rewrite Hr.
    + unfold throw at 1. rewrite bind_run. unfold emit at 1.
      rewrite bind_run. unfold emit at 1. cbn [assign_undetectable].
      rewrite bind_run. unfold row_assign at 1. cbn [rows]. by rewrite Hr.
Qed.

End RowTask.

Lemma rejected_cons_fulfilled res i rs :
  rejected (Fulfilled res i :: rs) = rejected rs.
Proof. unfold rejected. rewrite filter_cons. simpl. by destruct (decide (false = true)). Qed.

Lemma rejected_cons_rejected e i rs :
  rejected (Rejected e i :: rs) = Rejected e i :: rejected rs.
Proof. unfold rejected. rewrite filter_cons. simpl. by destruct (decide (true = true)). Qed.

Lemma rejected_indices_NoDup results :
  NoDup (map settled_index results) ->
  NoDup (map settled_index (rejected results)).
Proof.
  induction results as [|r rs IH]; [done|]. cbn [map].
  intros [Hr Hnd]%NoDup_cons. destruct r as [res i|e i].
  - rewrite rejected_cons_fulfilled. auto.
  - rewrite rejected_cons_rejected. cbn [map settled_index] in *.
    apply NoDup_cons. split; [|auto].
    intros Hin. apply Hr. by apply rejected_indices_subset.
Qed.

(** With distinct indices, a row of the round was fulfilled or is among the
    rejected, not both. *)
Lemma settled_cases results i :
  i ∈ map settled_index results ->
  (exists res, Fulfilled res i ∈ results)
  \/ i ∈ map settled_index (rejected results).
Proof.
  induction results as [|r rs IH]; cbn [map]; [by intros ?%elem_of_nil|].
  intros [->|Hi]%elem_of_cons.
  - destruct r as [res j|e j]; cbn [settled_index].
    + left. exists res. apply list_elem_of_here.
    + right. rewrite rejected_cons_rejected. apply list_elem_of_here.
  - destruct (IH Hi) as [[res Hres]|Hrej].
    + left. exists res. by apply list_elem_of_further.
    + right. destruct r as [res j|e j].
      * by rewrite rejected_cons_fulfilled.
      * rewrite rejected_cons_rejected. by apply list_elem_of_further.
Qed.

Lemma fulfilled_not_rejected results res i :
  NoDup (map settled_index results) ->
  Fulfilled res i ∈ results -> i ∉ map settled_index (rejected results).
Proof.
  induction results as [|r rs IH]; cbn [map]; [by intros _ ?%elem_of_nil|].
  intros [Hr Hnd]%NoDup_cons [<-|Hin]%elem_of_cons.
  - rewrite rejected_cons_fulfilled. intros H. apply Hr.
    by apply rejected_indices_subset.
  - destruct r as [res' j|e j].
    + rewrite rejected_cons_fulfilled. auto.
    + rewrite rejected_cons_rejected. cbn [map settled_index] in *.
      apply not_elem_of_cons. split; [|auto].
      intros ->. apply Hr.
      change j with (settled_index (Fulfilled res j)).
      apply list_elem_of_In, in_map, list_elem_of_In. done.
Qed.

Section Kept.
Context {platform : Platform}.

Lemma processRow_rows_kept row rowIndex columnInfo modelName prompt plugins
    webSearchOptions s o s' :
  processRow row rowIndex columnInfo modelName prompt plugins webSearchOptions s
  = (o, s') ->
  rows_kept (fun i => i = row) (target_columns columnInfo) (rows s) (rows s').
Proof.
  intros Hrun.
  pose proof (frame_processRow
                (rows_kept (fun i => i = row) (target_columns columnInfo))
                (fun i k => i = row /\ k ∈ target_columns columnInfo)
                (rows_kept_refl _ _)
                (fun a b c => rows_kept_trans _ _ a b c)
                (fun rs i r k v H1 H2 =>
                   rows_kept_assign _ _ rs i r k v H1 (proj1 H2) (proj2 H2))
                row rowIndex columnInfo modelName prompt plugins
                webSearchOptions s (fun c Hc => conj eq_refl Hc)) as H.
  by destruct (runs_inv _ _ _ _ _ H Hrun) as (evs & _ & HR).
Qed.

Lemma run_round_rows_kept columnInfo modelName prompt plugins webSearchOptions
    l s o s' :
  run_round columnInfo modelName prompt plugins webSearchOptions l s = (o, s') ->
  rows_kept (fun i => i ∈ l) (target_columns columnInfo) (rows s) (rows s').
Proof.
  intros Hrun.
  pose proof (frame_run_round
                (rows_kept (fun i => i ∈ l) (target_columns columnInfo))
                (fun i k => i ∈ l /\ k ∈ target_columns columnInfo)
                (rows_kept_refl _ _)
                (fun a b c => rows_kept_trans _ _ a b c)
                (fun rs i r k v H1 H2 =>
                   rows_kept_assign _ _ rs i r k v H1 (proj1 H2) (proj2 H2))
                columnInfo modelName prompt plugins webSearchOptions l s
                (fun i c Hi Hc => conj Hi Hc)) as H.
  by destruct (runs_inv _ _ _ _ _ H Hrun) as (evs & _ & HR).
Qed.

Lemma processBatch_loop_rows_kept columnInfo modelName prompt plugins
    webSearchOptions maxRetries fuel l acc rc s o s' :
  processBatch_loop fuel columnInfo modelName prompt plugins webSearchOptions
    maxRetries l acc rc s = (o, s') ->
  rows_kept (fun i => i ∈ l) (target_columns columnInfo) (rows s) (rows s').
Proof.
  intros Hrun.
  pose proof (frame_processBatch_loop
                (rows_kept (fun i => i ∈ l) (target_columns columnInfo))
                (fun i k => i ∈ l /\ k ∈ target_columns columnInfo)
                (rows_kept_refl _ _)
                (fun a b c => rows_kept_trans _ _ a b c)
                (fun rs i r k v H1 H2 =>
                   rows_kept_assign _ _ rs i r k v H1 (proj1 H2) (proj2 H2))
                columnInfo modelName prompt plugins webSearchOptions maxRetries
                fuel l acc rc s (fun i c Hi Hc => conj Hi Hc)) as H.
  by destruct (runs_inv _ _ _ _ _ H Hrun) as (evs & _ & HR).
Qed.

Lemma processBatch_rows_kept batchStart batchEnd columnInfo modelName prompt
    plugins webSearchOptions maxRetries s o s' :
  processBatch batchStart batchEnd columnInfo modelName prompt plugins
    webSearchOptions maxRetries s = (o, s') ->
  rows_kept (fun i => batchStart <= i < batchEnd) (target_columns columnInfo)
    (rows s) (rows s').
Proof.
  intros Hrun.
  pose proof (frame_processBatch
                (rows_kept (fun i => batchStart <= i < batchEnd)
                   (target_columns columnInfo))
                (fun i k => batchStart <= i < batchEnd
                            /\ k ∈ target_columns columnInfo)
                (rows_kept_refl _ _)
                (fun a b c => rows_kept_trans _ _ a b c)
                (fun rs i r k v H1 H2 =>
                   rows_kept_assign _ _ rs i r k v H1 (proj1 H2) (proj2 H2))
                batchStart batchEnd columnInfo modelName prompt plugins
                webSearchOptions maxRetries s (fun i c Hi Hc => conj Hi Hc))
    as H.
  by destruct (runs_inv _ _ _ _ _ H Hrun) as (evs & _ & HR).
Qed.

Lemma processColumn_loop_rows_kept columnInfo st plugins webSearchOptions path
    totalRows fuel i t s o s' :
  processColumn_loop fuel columnInfo st plugins webSearchOptions path
    totalRows i t s = (o, s') ->
  rows_kept (fun j => i <= j < totalRows) (target_columns columnInfo)
    (rows s) (rows s').
Proof.
  intros Hrun.
  pose proof (frame_processColumn_loop
                (rows_kept (fun j => i <= j < totalRows)
                   (target_columns columnInfo))
                (fun j k => i <= j < totalRows
                            /\ k ∈ target_columns columnInfo)
                (rows_kept_refl _ _)
                (fun a b c => rows_kept_trans _ _ a b c)
                (fun rs i r k v H1 H2 =>
                   rows_kept_assign _ _ rs i r k v H1 (proj1 H2) (proj2 H2))
                columnInfo st plugins webSearchOptions path totalRows fuel i t
                s (fun j c Hj Hc => conj Hj Hc)) as H.
  by destruct (runs_inv _ _ _ _ _ H Hrun) as (evs & _ & HR).
Qed.

Lemma processColumn_rows_kept c path s o s' :
  processColumn c path s = (o, s') ->
  rows_kept (fun _ => True) (target_columns (columnInfo_of c))
    (rows s) (rows s').
Proof.
  intros Hrun.
  pose proof (frame_processColumn
                (rows_kept (fun _ => True) (target_columns (columnInfo_of c)))
                (fun j k => True /\ k ∈ target_columns (columnInfo_of c))
                (rows_kept_refl _ _)
                (fun a b c => rows_kept_trans _ _ a b c)
                (fun rs i r k v H1 H2 =>
                   rows_kept_assign _ _ rs i r k v H1 (proj1 H2) (proj2 H2))
                c path s (fun j k Hk => conj I Hk)) as H.
  by destruct (runs_inv _ _ _ _ _ H Hrun) as (evs & _ & HR).
Qed.

Lemma process_columns_rows_kept cs path grand s o s' :
  process_columns cs path grand s = (o, s') ->
  rows_kept (fun _ => True) (config_targets cs) (rows s) (rows s').
Proof.
  intros Hrun.
  pose proof (frame_process_columns
                (rows_kept (fun _ => True) (config_targets cs))
                (fun j k => True /\ k ∈ config_targets cs)
                (rows_kept_refl _ _)
                (fun a b c => rows_kept_trans _ _ a b c)
                (fun rs i r k v H1 H2 =>
                   rows_kept_assign _ _ rs i r k v H1 (proj1 H2) (proj2 H2))
                path cs grand s
                (fun c j k Hc Hk => conj I (config_targets_elem cs c k Hc Hk)))
    as H.
  by destruct (runs_inv _ _ _ _ _ H Hrun) as (evs & _ & HR).
Qed.

Lemma main_rows_kept cfg s o s' :
  main cfg s = (o, s') ->
  rows_kept (fun _ => True) (config_targets (columns cfg)) (rows s) (rows s').
Proof.
  intros Hrun.
  pose proof (frame_main
                (rows_kept (fun _ => True) (config_targets (columns cfg)))
                (fun j k => True /\ k ∈ config_targets (columns cfg))
                (rows_kept_refl _ _)
                (fun a b c => rows_kept_trans _ _ a b c)
                (fun rs i r k v H1 H2 =>
                   rows_kept_assign _ _ rs i r k v H1 (proj1 H2) (proj2 H2))
                cfg s (fun j k Hk => conj I Hk)) as H.
  by destruct (runs_inv _ _ _ _ _ H Hrun) as (evs & _ & HR).
Qed.

End Kept.

Section Fills.
Context {platform : Platform}.

Lemma processRow_fills row rowIndex columnInfo modelName prompt plugins
    webSearchOptions s a s' r' :
  processRow row rowIndex columnInfo modelName prompt plugins webSearchOptions s
  = (Returned a, s') ->
  rows s' !! row = Some r' -> filled columnInfo r'.
Proof.
  intros Hrun Hr'. destruct (rows s !! row) as [r|] eqn:Hr.
  - destruct (fillPromptTemplate_total prompt r) as [p Hp].
    rewrite (processRow_present _ _ _ _ _ _ _ _ r p Hr Hp) in Hrun.
    cbn zeta in Hrun.
    destruct (axios_post _ (world s)) as [[body|e] w]; [|done].
    injection Hrun as _ <-. cbn [rows] in Hr'.
    rewrite list_lookup_insert_eq in Hr' by (by eapply lookup_lt_Some).
    injection Hr' as <-. apply row_after_filled.
  - apply processRow_missing_returns in Hrun as ->; [|done].
    intros c Hc. by apply elem_of_nil in Hc.
Qed.

Lemma run_round_fills columnInfo modelName prompt plugins webSearchOptions
    l : forall s results s',
  NoDup l ->
  run_round columnInfo modelName prompt plugins webSearchOptions l s
  = (Returned results, s') ->
  forall res i r',
    Fulfilled res i ∈ results -> rows s' !! i = Some r' -> filled columnInfo r'.
Proof.
  induction l as [|j l IH]; intros s results s' Hnd Hrun res i r' Hin Hr'.
  { injection Hrun as <- <-. by apply elem_of_nil in Hin. }
  apply NoDup_cons in Hnd as [Hj Hnd].
  cbn [run_round] in Hrun. rewrite bind_run in Hrun.
  unfold row_task at 1 in Hrun. rewrite bind_run in Hrun.
  unfold settle at 1 in Hrun.
  destruct (processRow j j _ _ _ _ _ s) as [o s1] eqn:Htask.
  destruct o as [a|e|]; [| |done];
    unfold mret at 1, M_ret at 1 in Hrun; rewrite bind_run in Hrun;
    destruct (run_round _ _ _ _ _ l s1) as [[rs| |] s2] eqn:Hrest; try done;
    injection Hrun as <- <-;
    apply elem_of_cons in Hin as [Hin|Hin]; try done.
  - injection Hin as -> ->.
    pose proof (run_round_rows_kept _ _ _ _ _ _ _ _ _ Hrest) as [Hlen Hkept].
    destruct (rows s1 !! j) as [r1|] eqn:Hr1.
    + destruct (Hkept j r1 r' Hr1 Hr') as [Heq _]. rewrite (Heq Hj).
      by eapply processRow_fills.
    + apply lookup_ge_None in Hr1. apply lookup_lt_Some in Hr'. lia.
  - by eapply IH.
  - by eapply IH.
Qed.

Lemma trace_only_rows (s : state) evs :
  rows {| rows := rows s; world := world s; trace := trace s ++ evs |} = rows s.
Proof. reflexivity. Qed.

Lemma processBatch_loop_fills columnInfo modelName prompt plugins
    webSearchOptions maxRetries : forall fuel l acc rc s res s',
  NoDup l -> rc <= maxRetries ->
  processBatch_loop fuel columnInfo modelName prompt plugins webSearchOptions
    maxRetries l acc rc s = (Returned res, s') ->
  forall i r', i ∈ l -> rows s' !! i = Some r' -> filled columnInfo r'.
Proof.
  induction fuel as [|fuel IH]; intros l acc rc s res s' Hnd Hrc Hrun i r' Hi Hr';
    [done|].
  rewrite processBatch_loop_step in Hrun.
  assert ((rc <=? maxRetries)%nat = true) as Hle by (apply Nat.leb_le; lia).
  rewrite Hle in Hrun.
  destruct l as [|i0 l0]; [by apply elem_of_nil in Hi|].
  set (l := i0 :: l0) in *.
  assert ((0 <? length l)%nat = true) as Hpos
    by (apply Nat.ltb_lt; simpl; lia).
  rewrite Hpos in Hrun.
  cbn [andb] in Hrun. rewrite bind_run in Hrun.
  destruct (run_round _ _ _ _ _ l s) as [o s1] eqn:Hround.
  destruct (runs_inv _ _ _ _ _
              (run_round_runs columnInfo modelName prompt plugins
                 webSearchOptions l s) Hround)
    as (evs0 & _ & results & -> & Hidx & _).
  cbn zeta in Hrun.
  assert (NoDup (map settled_index results)) as Hnd0 by (by rewrite Hidx).
  pose proof (rejected_indices_NoDup results Hnd0) as Hnd'.
  assert (forall o2 s1' s2,
            rows s1' = rows s1 -> S rc <= maxRetries \/ rejected results = [] ->
            processBatch_loop fuel columnInfo modelName prompt plugins
              webSearchOptions maxRetries (map settled_index (rejected results))
              (acc ++ fulfilled_results results)
              (if (0 <? length (map settled_index (rejected results)))%nat
               then S rc else rc) s1' = (Returned o2, s2) ->
            rows s2 !! i = Some r' -> filled columnInfo r') as Hrest.
  { intros o2 s1' s2 Hrows Hcase Hloop Hr2.
    destruct (settled_cases results i) as [[res0 Hres]|Hrej];
      [by rewrite Hidx| |].
    - pose proof (processBatch_loop_rows_kept _ _ _ _ _ _ _ _ _ _ _ _ _ Hloop)
        as [Hlen Hkept].
      destruct (rows s1' !! i) as [r1|] eqn:Hr1.
      + destruct (Hkept i r1 r' Hr1 Hr2) as [Heq _].
        rewrite Heq by (eapply fulfilled_not_rejected; [exact Hnd0|exact Hres]).
        rewrite Hrows in Hr1.
        eapply (run_round_fills _ _ _ _ _ l s results s1); [exact Hnd|exact Hround|exact Hres|exact Hr1].
      + apply lookup_ge_None in Hr1. apply lookup_lt_Some in Hr2. lia.
    - eapply IH; [exact Hnd'| |exact Hloop|exact Hrej|exact Hr2].
      destruct Hcase as [Hc|Hc]; [|by rewrite Hc in Hrej; apply elem_of_nil in Hrej].
      destruct (0 <? _)%nat; lia. }
  destruct (0 <? length (map settled_index (rejected results)))%nat eqn:Hsome.
  - destruct (maxRetries <? S rc)%nat eqn:Hmax.
    + rewrite bind_run in Hrun. unfold emit_all at 1 in Hrun. done.
    + apply Nat.ltb_ge in Hmax.
      rewrite bind_run in Hrun. unfold emit_all at 1 in Hrun.
      rewrite bind_run in Hrun. unfold sleep, emit at 1 in Hrun.
      eapply Hrest; [|by left|exact Hrun|exact Hr']. done.
  - eapply Hrest; [reflexivity| |exact Hrun|exact Hr']. right.
    apply Nat.ltb_ge in Hsome. rewrite length_map in Hsome.
    destruct (rejected results); [done | simpl in Hsome; lia].
Qed.

Lemma processBatch_fills batchStart batchEnd columnInfo modelName prompt
    plugins webSearchOptions maxRetries s res s' i r' :
  processBatch batchStart batchEnd columnInfo modelName prompt plugins
    webSearchOptions maxRetries s = (Returned res, s') ->
  batchStart <= i < batchEnd -> rows s' !! i = Some r' -> filled columnInfo r'.
Proof.
  intros Hrun Hi Hr'. unfold processBatch in Hrun.
  eapply processBatch_loop_fills;
    [apply NoDup_seq| |exact Hrun| |exact Hr']; [lia|].
  apply list_elem_of_In, in_seq. lia.
Qed.

Lemma processColumn_loop_fills columnInfo st plugins webSearchOptions path
    totalRows : forall fuel i t s t' s',
  processColumn_loop fuel columnInfo st plugins webSearchOptions path
    totalRows i t s = (Returned t', s') ->
  forall j r', i <= j < totalRows -> rows s' !! j = Some r' ->
               filled columnInfo r'.
Proof.
  induction fuel as [|fuel IH]; intros i t s t' s' Hrun j r' Hj Hr'; [done|].
  rewrite processColumn_loop_step in Hrun.
  assert ((i <? totalRows)%nat = true) as Hlt by (apply Nat.ltb_lt; lia).
  rewrite Hlt in Hrun.
  rewrite bind_run in Hrun.
  destruct (processBatch _ _ _ _ _ _ _ _ s) as [[batchResults|e|] s1] eqn:Hbatch;
    [|done..].
  rewrite bind_run in Hrun.
  destruct (write_progress path s1) as [o2 s2] eqn:Hwrite.
  destruct (runs_inv _ _ _ _ _ (write_progress_runs path s1) Hwrite)
    as (evs2 & _ & -> & Hrows2 & _).
  rewrite bind_run in Hrun.
  destruct ((if (Nat.min (i + cfg_batchSize st) totalRows <? totalRows)%nat
                   && (0 <? cfg_cooldown st)%nat
             then sleep (cfg_cooldown st) else mret tt) s2)
    as [o3 s3] eqn:Hcool.
  destruct (runs_inv _ _ _ _ _ (cooldown_runs _ _ s2) Hcool)
    as (evs3 & _ & -> & Hrows3 & _).
  destruct (decide (j < Nat.min (i + cfg_batchSize st) totalRows)) as [Hin|Hout].
  - pose proof (processColumn_loop_rows_kept _ _ _ _ _ _ _ _ _ _ _ _ Hrun)
      as [Hlen Hkept].
    destruct (rows s3 !! j) as [r3|] eqn:Hr3.
    + destruct (Hkept j r3 r' Hr3 Hr') as [Heq _].
      rewrite Heq by lia.
      rewrite Hrows3, Hrows2 in Hr3.
      eapply processBatch_fills; [exact Hbatch| |exact Hr3]. lia.
    + apply lookup_ge_None in Hr3. apply lookup_lt_Some in Hr'. lia.
  - eapply IH; [exact Hrun| |exact Hr']. lia.
Qed.

Lemma processColumn_fills c path s stats s' j r' :
  processColumn c path s = (Returned stats, s') ->
  rows s' !! j = Some r' -> filled (columnInfo_of c) r'.
Proof.
  intros Hrun Hr'.
  pose proof (processColumn_rows_kept _ _ _ _ _ Hrun) as [Hlen _].
  unfold processColumn in Hrun. rewrite bind_run in Hrun.
  unfold get_rows at 1 in Hrun. rewrite bind_run in Hrun.
  destruct (processColumn_loop _ _ _ _ _ _ _ _ _ s) as [[t|e|] s1] eqn:Hloop;
    [|done..].
  injection Hrun as _ <-.
  eapply processColumn_loop_fills; [exact Hloop| |exact Hr'].
  apply lookup_lt_Some in Hr'. lia.
Qed.

End Fills.

Lemma filled_has_fields columnInfo r :
  filled columnInfo r -> has_fields (target_columns columnInfo) r.
Proof.
  intros H k Hk. apply row_get_is_Some. destruct columnInfo as [c|cs]; simpl in *.
  - apply list_elem_of_singleton in Hk as ->. destruct H as [t ->]. by eexists.
  - destruct (H k Hk) as (v & -> & _). by eexists.
Qed.

Lemma row_kept_has_fields targets ks r r' :
  row_kept targets r r' -> has_fields ks r -> has_fields ks r'.
Proof.
  intros [_ (added & Heq & _)] H k Hk. rewrite Heq.
  apply elem_of_app. left. auto.
Qed.

Section Run.
Context {platform : Platform}.

Lemma process_columns_fills path cs : forall grand s grand' s' j r',
  process_columns cs path grand s = (Returned grand', s') ->
  rows s' !! j = Some r' -> has_fields (config_targets cs) r'.
Proof.
  induction cs as [|c cs IH]; intros grand s grand' s' j r' Hrun Hr'.
  { intros k Hk. by apply elem_of_nil in Hk. }
  cbn [process_columns] in Hrun. rewrite bind_run in Hrun.
  destruct (processColumn c path s) as [[columnStats|e|] s1] eqn:Hcol; [|done..].
  intros k Hk. unfold config_targets in Hk. cbn [flat_map] in Hk.
  apply elem_of_app in Hk as [Hk|Hk]; [|by eapply IH].
  pose proof (process_columns_rows_kept _ _ _ _ _ _ Hrun) as [Hlen Hkept].
  destruct (rows s1 !! j) as [r1|] eqn:Hr1.
  - destruct (Hkept j r1 r' Hr1 Hr') as [_ Hrow].
    eapply row_kept_has_fields; [exact Hrow| |exact Hk].
    apply filled_has_fields. by eapply processColumn_fills.
  - apply lookup_ge_None in Hr1. apply lookup_lt_Some in Hr'. lia.
Qed.

(** A run that completes went through every step of [main_body]. *)
Lemma main_completed cfg s grand s' :
  main cfg s = (Returned (Completed grand), s') ->
  exists cs s1 r0,
    validate_columns (columns cfg) = Some cs
    /\ process_columns cs (progress_path (outputFileName cfg)) no_stats s
       = (Returned grand, s1)
    /\ rows s1 !! 0 = Some r0
    /\ s' = {| rows := rows s1;
               world := (writeRecords (outputFileName cfg) (rows s1)
                           (Object_keys r0) (world s1)).2;
               trace := trace s1
                        ++ [WriteCSV (outputFileName cfg) (rows s1)
                              (Object_keys r0)] |}
    /\ (writeRecords (outputFileName cfg) (rows s1) (Object_keys r0)
          (world s1)).1 = None.
Proof.
  unfold main. rewrite bind_run. unfold settle at 1.
  destruct (main_body cfg s) as [[st|e|] s2] eqn:Hbody; [| |done].
  2:{ rewrite bind_run. unfold emit at 1. unfold mret, M_ret. done. }
  unfold mret, M_ret. intros [= -> ->].
  unfold main_body in Hbody.
  destruct (negb _); [done|].
  destruct (validate_columns (columns cfg)) as [cs|]; [|done].
  rewrite bind_run in Hbody. unfold get_rows at 1 in Hbody.
  destruct (length (rows s) =? 0)%nat; [done|].
  rewrite bind_run in Hbody.
  destruct (process_columns cs _ no_stats s) as [[g|e|] s1] eqn:Hcols; [|done..].
  rewrite bind_run in Hbody. unfold first_row_keys at 1 in Hbody.
  rewrite bind_run in Hbody. unfold get_rows at 1 in Hbody.
  destruct (rows s1 !! 0) as [r0|] eqn:Hr0; [|done].
  unfold mret at 1, M_ret at 1 in Hbody. rewrite bind_run in Hbody.
  unfold get_rows at 1 in Hbody. rewrite bind_run in Hbody.
  unfold writeCSV at 1 in Hbody.
  destruct (writeRecords _ _ _ (world s1)) as [[e|] w] eqn:Hw; [done|].
  unfold mret, M_ret in Hbody. injection Hbody as <- <-.
  exists cs, s1, r0. by rewrite Hw.
Qed.

End Run.

Lemma nonempty_false s : nonempty s = false <-> s = "".
Proof.
  unfold nonempty. rewrite negb_false_iff. apply String.eqb_eq.
Qed.

Lemma validate_column_None c : validate_column c = None <-> incomplete c.
Proof.
  destruct c as [n st|g cols st]; simpl.
  - destruct (nonempty n) eqn:E1, (nonempty (cfg_modelName st)) eqn:E2,
      (nonempty (cfg_prompt st)) eqn:E3; simpl;
      rewrite <- ?nonempty_false; split; try done; try tauto;
      intros [?|[?|?]]; congruence.
  - destruct (nonempty g) eqn:E1, (nonempty (cfg_modelName st)) eqn:E2,
      (nonempty (cfg_prompt st)) eqn:E3, cols as [|c0 cols]; simpl;
      rewrite <- ?nonempty_false; split; try done; try tauto;
      intros [?|[?|[?|?]]]; congruence.
Qed.

Lemma validate_column_defaults c c' :
  validate_column c = Some c' -> defaults_applied c c'.
Proof.
  destruct c as [n st|g cols st]; simpl.
  - destruct (_ && _); [|done]. intros [= <-]. by repeat split.
  - destruct (_ && _); [|done]. intros [= <-]. by repeat split.
Qed.

Lemma defaults_batchSize c c' :
  defaults_applied c c' -> 1 <= cfg_batchSize (settings_of c').
Proof.
  intros (_ & -> & _). destruct (_ =? 0)%nat eqn:E; [lia|].
  apply Nat.eqb_neq in E. lia.
Qed.

Lemma validate_columns_defaults cs cs' :
  validate_columns cs = Some cs' -> Forall2 defaults_applied cs cs'.
Proof.
  unfold validate_columns. rewrite mapM_Some. intros H.
  eapply Forall2_impl; [exact H|]. apply validate_column_defaults.
Qed.

Section Ends.
Context {platform : Platform}.

Lemma process_columns_ends path cs : forall grand s,
  path <> "" -> Forall (fun c => 1 <= cfg_batchSize (settings_of c)) cs ->
  (process_columns cs path grand s).1 <> OutOfFuel.
Proof.
  induction cs as [|c cs IH]; intros grand s Hpath Hall; [done|].
  apply Forall_cons in Hall as [Hc Hall].
  cbn [process_columns]. rewrite bind_run.
  destruct (processColumn c path s) as [o s1] eqn:Hcol.
  destruct (runs_inv _ _ _ _ _ (processColumn_runs c path s) Hcol)
    as (evs & _ & _ & _ & Ho).
  specialize (Ho Hpath Hc). destruct o as [columnStats|e|]; [|done..].
  by apply IH.
Qed.

Lemma main_body_ends cfg s : (main_body cfg s).1 <> OutOfFuel.
Proof.
  unfold main_body.
  destruct (nonempty (inputFileName cfg)) eqn:Hin; [|done].
  destruct (nonempty (outputFileName cfg)) eqn:Hout; [|done].
  cbn [andb negb].
  destruct (validate_columns (columns cfg)) as [cs|] eqn:Hcs; [|done].
  rewrite bind_run. unfold get_rows at 1.
  destruct (length (rows s) =? 0)%nat; [done|].
  rewrite bind_run.
  assert ((process_columns cs (progress_path (outputFileName cfg)) no_stats s).1
          <> OutOfFuel) as Hends.
  { apply process_columns_ends.
    - apply progress_path_nonempty. intros E. rewrite E in Hout. done.
    - apply validate_columns_defaults in Hcs.
      clear -Hcs. induction Hcs as [|c c' cs cs' Hc _ IH]; [done|].
      apply Forall_cons. split; [by eapply defaults_batchSize | done]. }
  destruct (process_columns cs _ no_stats s) as [[g|e|] s1]; [|done..].
  rewrite bind_run. unfold first_row_keys at 1.
  rewrite bind_run. unfold get_rows at 1.
  destruct (rows s1 !! 0) as [r0|]; [|done].
  unfold mret at 1, M_ret at 1. rewrite bind_run.
  unfold get_rows at 1. rewrite bind_run.
  unfold writeCSV at 1.
  by destruct (writeRecords _ _ _ (world s1)) as [[e|] w].
Qed.

Lemma main_ends cfg s : (main cfg s).1 <> OutOfFuel.
Proof.
  unfold main. rewrite bind_run. unfold settle at 1.
  pose proof (main_body_ends cfg s) as H.
  destruct (main_body cfg s) as [[st|e|] s1]; [done| |done].
  rewrite bind_run. by unfold emit at 1.
Qed.

Lemma main_body_invalid cfg s :
  inputFileName cfg = "" \/ outputFileName cfg = ""
  \/ (exists c, c ∈ columns cfg /\ incomplete c) \/ rows s = [] ->
  main_body cfg s = (Returned (Exited 1), s).
Proof.
  intros H. unfold main_body.
  destruct (nonempty (inputFileName cfg)) eqn:Hin; [|done].
  destruct (nonempty (outputFileName cfg)) eqn:Hout; [|done].
  cbn [andb negb].
  destruct (validate_columns (columns cfg)) as [cs|] eqn:Hcs; [|done].
  rewrite bind_run. unfold get_rows at 1.
  destruct (length (rows s) =? 0)%nat eqn:Hlen; [done|].
  exfalso. destruct H as [H|[H|[(c & Hc & Hinc)|H]]].
  - rewrite H in Hin. done.
  - rewrite H in Hout. done.
  - apply validate_column_None in Hinc.
    assert (validate_columns (columns cfg) = None) as Hnone.
    { apply mapM_None, Exists_exists. eauto. }
    congruence.
  - rewrite H in Hlen. done.
Qed.

End Ends.

Lemma summary_rows_add summary key n :
  summary_rows (summary_add summary key n) ≡ₚ n :: summary_rows summary.
Proof.
  unfold summary_rows. induction summary as [|[k ns] rest IH]; simpl.
  - done.
  - destruct (String.eqb k key); simpl.
    + rewrite <- app_assoc. simpl.
      by rewrite <- Permutation_middle.
    + rewrite IH. by rewrite <- Permutation_middle.
Qed.

Lemma sum_backoff rc : forall R,
  sum_list (map backoff (seq (S rc) R)) + 2 ^ S rc * 1000
  = 2 ^ (S rc + R) * 1000.
Proof.
  intros R. revert rc. induction R as [|R IH]; intros rc.
  - simpl seq. simpl sum_list. by rewrite Nat.add_0_r.
  - cbn [seq map sum_list]. unfold backoff at 1.
    specialize (IH (S rc)).
    replace (S rc + S R) with (S (S rc) + R) by lia.
    rewrite <- IH. rewrite (Nat.pow_succ_r' 2 (S rc)). unfold id.
    generalize (2 ^ S rc).
    generalize (sum_list (map backoff (seq (S (S rc)) R))). lia.
Qed.

Lemma round_bound k a b l l' :
  a <= l -> l' <= l -> b <= k * l' -> a + b <= S k * l.
Proof.
  intros Ha Hl Hb.
  assert (k * l' <= k * l) by (apply Nat.mul_le_mono_l; lia). lia.
Qed.

Section Cost.
Context {platform : Platform}.

Lemma summarize_from_rows failed : forall summary,
  Forall (fun f => is_rejected f = true) failed ->
  summary_rows (summarize_from summary failed)
  ≡ₚ summary_rows summary ++ row_numbers (map settled_index failed).
Proof.
  unfold summarize_from, row_numbers.
  induction failed as [|f failed IH]; intros summary Hall; simpl.
  - by rewrite app_nil_r.
  - apply Forall_cons in Hall as [Hf Hall]. destruct f as [res i|e i]; [done|].
    rewrite IH by done. rewrite summary_rows_add. simpl.
    by rewrite <- Permutation_middle.
Qed.

Lemma processBatch_loop_posts columnInfo modelName prompt plugins
    webSearchOptions maxRetries : forall fuel l acc rc s,
  rc <= maxRetries ->
  runs (processBatch_loop fuel columnInfo modelName prompt plugins
          webSearchOptions maxRetries l acc rc) s
    (fun _ _ evs => length (posts evs) <= (maxRetries + 1 - rc) * length l).
Proof.
  induction fuel as [|fuel IH]; intros l acc rc s Hrc.
  - exists OutOfFuel, s, []. rewrite app_nil_r. split; [done|].
    split; [done|]. apply Nat.le_0_l.
  - rewrite processBatch_loop_step.
    destruct ((0 <? length l)%nat && (rc <=? maxRetries)%nat);
      [|apply runs_ret; apply Nat.le_0_l].
    apply runs_bind. eapply runs_mono; [apply run_round_runs|].
    intros o s1 evs0 (results & -> & Hidx & _ & _ & _ & Hposts & _).
    cbn zeta.
    assert (length (map settled_index (rejected results)) <= length l) as Hle.
    { rewrite <- Hidx, !length_map. pose proof (settled_count results). lia. }
    destruct (0 <? length (map settled_index (rejected results)))%nat eqn:Hsome.
    + destruct (maxRetries <? S rc)%nat eqn:Hmax.
      * apply runs_bind, runs_emit_all, runs_throw.
        destruct (final_report_silent (map settled_index (rejected results))
                    maxRetries (summarize (rejected results))) as (Hp & _).
        rewrite !posts_app, Hp, !length_app. simpl.
        replace (maxRetries + 1 - rc) with (S (maxRetries - rc)) by lia.
        rewrite Nat.add_0_r. etrans; [exact Hposts|].
        cbn [Nat.mul]. apply Nat.le_add_r.
      * apply Nat.ltb_ge in Hmax.
        apply runs_bind, runs_emit_all, runs_bind, runs_emit.
        eapply runs_mono; [apply (IH _ _ (S rc)); lia|].
        intros o s2 evs2 Hp2. cbn beta.
        destruct (retry_report_silent (map settled_index (rejected results))
                    (S rc) maxRetries (summarize (rejected results))
                    (rejected results)) as (Hp & _).
        rewrite !posts_app, Hp, !length_app. simpl.
        replace (maxRetries + 1 - rc) with (S (maxRetries + 1 - S rc)) by lia.
        by eapply round_bound.
    + eapply runs_mono; [apply (IH _ _ rc); lia|].
      intros o s2 evs2 Hp2. cbn beta. rewrite posts_app, length_app.
      apply Nat.ltb_ge in Hsome.
      assert (length (map settled_index (rejected results)) = 0) as H0 by lia.
      rewrite H0, Nat.mul_0_r in Hp2.
      replace (maxRetries + 1 - rc) with (S (maxRetries - rc)) by lia.
      apply (round_bound _ _ _ _ 0); [done | lia | lia].
Qed.

End Cost.

Lemma Promise_all_cases results :
  match Previous.Promise_all (map as_promise results) with
  | inr rs => rejected results = [] /\ rs = fulfilled_results results
  | inl e => rejected results <> []
  end.
Proof.
  induction results as [|r rs IH]; [done|].
  destruct r as [res i|e i]; cbn [map as_promise Previous.Promise_all].
  - rewrite rejected_cons_fulfilled.
    destruct (Previous.Promise_all (map as_promise rs)) as [e|out]; [done|].
    destruct IH as [H1 ->]. done.
  - by rewrite rejected_cons_rejected.
Qed.

Section PreviousLoop.
Context {platform : Platform}.

Lemma batchPromises_runs columnName modelName prompt l s :
  runs (Previous.batchPromises columnName modelName prompt l) s
    (fun o s' evs =>
       exists results, o = Returned (map as_promise results)
       /\ map settled_index results = l
       /\ Forall well_indexed results
       /\ length (rows s') = length (rows s) /\ round_events evs
       /\ (Forall (fun i => i < length (rows s)) l ->
           length (posts evs) = length l)).
Proof.
  destruct (run_round_runs (SingleColumn columnName) modelName prompt None None
              l s)
    as (o & s' & evs & Hrun & Ht & results & -> & Hidx & Hwi & Hlen & Hev & _
        & Hposts & _).
  exists (Returned (map as_promise results)), s', evs.
  rewrite batchPromises_run_round, Hrun. split; [done|]. split; [done|].
  by exists results.
Qed.

Lemma Previous_processBatch_loop_runs batchStart batchEnd columnName modelName
    prompt maxRetries : forall fuel rc s,
  rc <= maxRetries -> maxRetries + 2 <= fuel + rc ->
  runs (Previous.processBatch_loop fuel batchStart batchEnd columnName
          modelName prompt maxRetries rc) s
    (previous_post batchStart batchEnd maxRetries rc s).
Proof.
  induction fuel as [|fuel IH]; intros rc s Hrc Hfuel; [lia|].
  rewrite Previous_processBatch_loop_step.
  assert ((rc <=? maxRetries)%nat = true) as -> by (apply Nat.leb_le; lia).
  apply runs_bind. eapply runs_mono; [apply batchPromises_runs|].
  intros o s1 evs0 (results & -> & Hidx & Hwi & Hlen & (Hs0 & Hw0 & _) & Hposts).
  pose proof (Promise_all_cases results) as Hall.
  destruct (Previous.Promise_all (map as_promise results)) as [error|rs].
  - cbn zeta. destruct (maxRetries <? S rc)%nat eqn:Hmax.
    + apply Nat.ltb_lt in Hmax.
      apply runs_bind, runs_emit_all, runs_throw.
      split; [done|]. split; [by rewrite !writes_app, Hw0|].
      exists 0. rewrite !sleeps_app, Hs0. split; [done|]. split; [lia|].
      split.
      { intros Hrange. rewrite !posts_app, !length_app. simpl.
        rewrite Hposts, length_seq; [lia|]. by apply seq_in_range. }
      split; [lia|]. exists error, evs0. by rewrite app_nil_r.
    + apply Nat.ltb_ge in Hmax.
      apply runs_bind, runs_emit_all, runs_bind, runs_emit.
      eapply runs_mono; [apply (IH (S rc)); lia|].
      intros o s2 evs2 (Hlen2 & Hw2 & R & Hs2 & HR & Hposts2 & Ho).
      cbn beta. split; [simpl in Hlen2; lia|].
      split; [by rewrite !writes_app, Hw0, Hw2|].
      exists (S R). split.
      { rewrite !sleeps_app, Hs0, Hs2. reflexivity. }
      split; [lia|]. split.
      { intros Hrange. rewrite !posts_app, !length_app. cbn [rows] in Hposts2.
        rewrite Hposts2 by lia. simpl.
        rewrite Hposts, length_seq; [lia|]. by apply seq_in_range. }
      destruct o as [[res|]|e|]; [done|done| |done].
      destruct Ho as [Ho (error' & before & He & Hevs)]. split; [lia|].
      exists error', (evs0
                      ++ [Warn (BatchFailedAttempt (S rc) maxRetries);
                          Warn (StatusAndError (status_code error)
                                  (Previous.batch_error_message error));
                          Warn (RetryingEntireBatch (2 ^ S rc))]
                      ++ [Sleep (2 ^ S rc * 1000)] ++ before).
      split; [done|]. rewrite Hevs. by rewrite <- !app_assoc.
  - destruct Hall as [Hnone ->]. apply runs_ret. rewrite app_nil_r.
    split; [done|]. split; [done|]. exists 0. split; [by rewrite Hs0|].
    split; [lia|]. split.
    { intros Hrange. rewrite Hposts, length_seq; [lia|]. by apply seq_in_range. }
    rewrite fulfilled_indices by done. done.
Qed.

Lemma Previous_processBatch_runs batchStart batchEnd columnName modelName
    prompt maxRetries s :
  runs (Previous.processBatch batchStart batchEnd columnName modelName prompt
          maxRetries) s (previous_post batchStart batchEnd maxRetries 0 s).
Proof. unfold Previous.processBatch. apply Previous_processBatch_loop_runs; lia. Qed.

End PreviousLoop.

Lemma drop_spaces_no_leading l : no_leading_space (drop_spaces l).
Proof.
  induction l as [|c l IH]; [done|]. simpl.
  destruct (is_space c) eqn:E; [done|]. simpl. done.
Qed.

Lemma drop_spaces_id l : no_leading_space l -> drop_spaces l = l.
Proof. destruct l as [|c l]; [done|]. simpl. by intros ->. Qed.

Lemma drop_spaces_suffix l : exists sp, l = sp ++ drop_spaces l.
Proof.
  induction l as [|c l [sp IH]]; [by exists []|]. simpl.
  destruct (is_space c).
  - exists (c :: sp). simpl. by f_equal.
  - by exists [].
Qed.

Lemma trim_chars_no_leading l :
  no_leading_space (trim_chars l) /\ no_leading_space (rev (trim_chars l)).
Proof.
  unfold trim_chars. rewrite rev_involutive.
  split; [|apply drop_spaces_no_leading].
  pose proof (drop_spaces_no_leading l) as Hx.
  destruct (drop_spaces_suffix (rev (drop_spaces l))) as [sp Hsp].
  apply (f_equal (@rev ascii)) in Hsp.
  rewrite rev_involutive, rev_app_distr in Hsp.
  destruct (rev (drop_spaces (rev (drop_spaces l)))) as [|c t]; [done|].
  rewrite Hsp in Hx. done.
Qed.

Lemma trim_chars_idem l : trim_chars (trim_chars l) = trim_chars l.
Proof.
  destruct (trim_chars_no_leading l) as [H1 H2].
  unfold trim_chars at 1. rewrite (drop_spaces_id _ H1).
  rewrite (drop_spaces_id _ H2). apply rev_involutive.
Qed.

Lemma trim_trimmed t : trim (trim t) = trim t /\ trimmed (trim t).
Proof.
  unfold trim. rewrite chars_text. split; [by rewrite trim_chars_idem|].
  destruct (trim_chars_no_leading (chars t)) as [H1 H2].
  split; intros c x E; rewrite chars_text in E.
  - by rewrite E in H1.
  - rewrite E, rev_app_distr in H2. done.
Qed.

Lemma set_columns_ext f g columns : forall r,
  (forall c, c ∈ columns -> f c = g c) ->
  set_columns f r columns = set_columns g r columns.
Proof.
  induction columns as [|c cs IH]; intros r H; [done|]. simpl.
  rewrite (H c) by apply list_elem_of_here. apply IH.
  intros c' Hc'. by apply H, list_elem_of_further.
Qed.

Lemma has_placeholder_chars prompt :
  has_placeholder (chars prompt) <-> with_placeholder prompt.
Proof.
  split.
  - intros (pre & n & post & Hn & E).
    exists (text pre), (text n), (text post). rewrite chars_text. split; [done|].
    apply chars_inj. rewrite !chars_app, !chars_text, E.
    unfold placeholder. by rewrite <- !app_assoc.
  - intros (pre & name & post & Hn & ->).
    exists (chars pre), (chars name), (chars post). split; [done|].
    rewrite !chars_app. unfold placeholder. by rewrite <- !app_assoc.
Qed.

Lemma no_brace_no_placeholder prompt :
  "{"%char ∉ chars prompt -> ~ with_placeholder prompt.
Proof.
  intros H (pre & name & post & _ & ->). apply H.
  rewrite !chars_app. apply elem_of_app. right. apply list_elem_of_here.
Qed.

Lemma placeholder_name_head n :
  placeholder_name n -> exists c t, n = c :: t /\ is_word c = true.
Proof.
  induction 1 as [w Hw Hall|n sp w Hn (c & t & -> & Hc) _ _ _ _].
  - destruct w as [|c t]; [done|]. apply Forall_cons in Hall as [Hc _]. eauto.
  - exists c, (t ++ sp ++ w). done.
Qed.

Lemma starts_with_before p c X : forall t,
  c ∉ p -> starts_with p (t ++ c :: X) = starts_with p t.
Proof.
  induction p as [|a p IH]; intros t Hc; [by destruct t|].
  apply not_elem_of_cons in Hc as [Hne Hc].
  destruct t as [|b t]; simpl.
  - destruct (ascii_eqb a c) eqn:E; [|done].
    apply ascii_eqb_eq in E. congruence.
  - by rewrite IH.
Qed.

Lemma trim_chars_id l :
  no_leading_space l -> no_leading_space (rev l) -> trim_chars l = l.
Proof.
  intros H1 H2. unfold trim_chars.
  rewrite (drop_spaces_id _ H1), (drop_spaces_id _ H2). apply rev_involutive.
Qed.

(** X7.  Of an opening fence only the three backquotes and the tag json,
    in lower case, are removed: any other tag stays at the head of the text
    that is handed to JSON.parse. *)
Theorem unfence_keeps_other_tags (tag body : string) (c : ascii)
    (t : list ascii) :
  chars tag = c :: t -> is_space c = false ->
  startsWith tag "json" = false ->
  unfence ("```" +:+ tag +:+ newline +:+ body +:+ newline +:+ "```")
  = tag +:+ newline +:+ body.
Proof.
  intros Htag Hc Hjson. unfold unfence, trim, startsWith in *.
  rewrite !chars_app.
  change (chars "```") with fence. change (chars newline) with [line_feed].
  replace (fence ++ chars tag ++ [line_feed] ++ chars body ++ [line_feed] ++ fence)
    with (fence ++ (chars tag ++ [line_feed] ++ chars body ++ [line_feed]) ++ fence)
    by (by rewrite <- !app_assoc).
  rewrite trim_chars_fenced, chars_text, starts_with_app.
  unfold strip_opening_fence. rewrite starts_with_app.
  change (drop 3 (fence ++ ?l)) with l.
  rewrite <- !app_assoc.
  change ([line_feed] ++ chars body ++ [line_feed] ++ fence)
    with (line_feed :: (chars body ++ [line_feed] ++ fence)).
  rewrite starts_with_before, Hjson
    by (vm_compute; intros H; repeat (apply elem_of_cons in H as [H|H]; [discriminate|]);
        by apply elem_of_nil in H).
  rewrite Htag. cbn [app]. rewrite drop_spaces_keep by done.
  replace (c :: t ++ line_feed :: chars body ++ line_feed :: fence)
    with ((c :: t ++ line_feed :: chars body) ++ line_feed :: fence)
    by (simpl; by rewrite <- !app_assoc).
  rewrite strip_closing_fenced.
  apply chars_inj. rewrite chars_text, !chars_app, Htag. done.
Qed.

Section Edges.
Context {platform : Platform}.

(** X1.  A template in which the placeholder expression has no match is
    returned as it is, whatever the row, and also when there is no row at
    all: the row is read only inside a match. *)
Theorem fillPromptTemplate_without_placeholder (prompt : string)
    (rowData : option Row) :
  ~ with_placeholder prompt -> fillPromptTemplate prompt rowData = inr prompt.
Proof.
  intros H. apply fillPromptTemplate_none. by rewrite has_placeholder_chars.
Qed.

(** X2.  Two pairs of braces around a text that is not a sequence of words
    separated by white space (a name with white space next to a brace, or
    with a character that is neither a word character nor white space) are
    not a placeholder: the text stays as it is, even when the row has a
    field of that name. *)
Theorem fillPromptTemplate_malformed_name (inner : string)
    (rowData : option Row) :
  "{"%char ∉ chars inner -> "}"%char ∉ chars inner ->
  ~ placeholder_name (chars inner) ->
  fillPromptTemplate ("{{" +:+ inner +:+ "}}") rowData
  = inr ("{{" +:+ inner +:+ "}}").
Proof.
  intros Ho Hc Hnot. apply fillPromptTemplate_none.
  rewrite !chars_app. apply braced_no_placeholder; [|done].
  apply Forall_forall. intros x Hx. unfold is_brace.
  destruct (ascii_eqb x "{") eqn:E1.
  { apply ascii_eqb_eq in E1 as ->. done. }
  destruct (ascii_eqb x "}") eqn:E2; [|done].
  apply ascii_eqb_eq in E2 as ->. done.
Qed.

(** X5.  A task whose row does not exist.  With a placeholder in the
    template the task fails on reading the first placeholder's field,
    before any request is sent: the state is unchanged.  Without a
    placeholder a single-column task sends its request and fails after it,
    the answer being lost. *)
Theorem processRow_missing_row (row rowIndex : nat) (columnName : string)
    (modelName prompt : string) (plugins webSearchOptions : option value)
    (s : state) :
  rows s !! row = None ->
  (forall pre name post,
     ~ with_placeholder pre -> placeholder_name (chars name) ->
     prompt = pre +:+ "{{" +:+ name +:+ "}}" +:+ post ->
     processRow row rowIndex (SingleColumn columnName) modelName prompt plugins
       webSearchOptions s
     = (Thrown (cannot_read "undefined" name), s))
  /\ (~ with_placeholder prompt ->
      exists e s',
        processRow row rowIndex (SingleColumn columnName) modelName prompt
          plugins webSearchOptions s = (Thrown e, s')
        /\ rows s' = rows s
        /\ trace s'
           = trace s
             ++ [Post (row_request modelName prompt plugins webSearchOptions)]).
Proof.
  intros Hr. split.
  - intros pre name post Hpre Hname ->.
    unfold processRow. rewrite bind_run. unfold get_rows at 1.
    rewrite bind_run, Hr.
    rewrite fillPromptTemplate_missing_row
      by (done || by rewrite has_placeholder_chars).
    done.
  - intros Hnone. unfold processRow. rewrite bind_run. unfold get_rows at 1.
    rewrite bind_run, Hr, fillPromptTemplate_none
      by (by rewrite has_placeholder_chars).
    cbn [lift]. unfold mret at 1, M_ret at 1. rewrite bind_run.
    unfold callOpenRouterAPI. rewrite bind_run. unfold post at 1.
    fold (row_request modelName prompt plugins webSearchOptions).
    destruct (axios_post _ (world s)) as [[body|e] w].
    + unfold mret at 1, M_ret at 1. rewrite bind_run.
      unfold row_assign at 1. cbn [rows]. rewrite Hr. by eexists _, _.
    + by eexists _, _.
Qed.

(** X4.  On a row that exists [processRow] fills the template without an
    error and sends one request with the filled prompt.  When the request
    fails, the error is thrown and no row has changed.  When it is answered,
    [processRow] returns a success with the cost and the token counts of
    the response, whatever the text of the response is, and only the row of
    the task has changed. *)
Theorem processRow_one_request (row rowIndex : nat) (columnInfo : column_info)
    (modelName prompt : string) (plugins webSearchOptions : option value)
    (s : state) (r : Row) :
  rows s !! row = Some r ->
  exists filledPrompt,
    fillPromptTemplate prompt (Some r) = inr filledPrompt
    /\ processRow row rowIndex columnInfo modelName prompt plugins
         webSearchOptions s
       = match axios_post
                 (row_request modelName filledPrompt plugins webSearchOptions)
                 (world s) with
         | (HttpOk body, w) =>
             (Returned (outcome_of (read_completion body) rowIndex),
              {| rows := <[row := row_after columnInfo (read_completion body) r]>
                           (rows s);
                 world := w;
                 trace := trace s
                          ++ Post (row_request modelName filledPrompt plugins
                                     webSearchOptions)
                             :: task_report rowIndex columnInfo
                                  (read_completion body) |})
         | (HttpFailed e, w) =>
             (Thrown e,
              {| rows := rows s; world := w;
                 trace := trace s
                          ++ [Post (row_request modelName filledPrompt plugins
                                      webSearchOptions)] |})
         end.
Proof.
  intros Hr. destruct (fillPromptTemplate_total prompt r) as [p Hp].
  exists p. split; [done|]. by apply processRow_present.
Qed.

(** X3.  [callOpenRouterAPI] sends exactly one request, which carries the
    model and the prompt, and leaves the rows alone.  The text it returns
    neither starts nor ends with white space, so trimming it again changes
    nothing. *)
Theorem callOpenRouterAPI_result_trimmed (modelName prompt : string)
    (plugins webSearchOptions : option value) (s : state) :
  match (callOpenRouterAPI modelName prompt plugins webSearchOptions s).1 with
  | Returned apiResult =>
      trimmed (result apiResult)
      /\ trim (result apiResult) = result apiResult
  | Thrown _ => True
  | OutOfFuel => False
  end
  /\ trace (callOpenRouterAPI modelName prompt plugins webSearchOptions s).2
     = trace s
       ++ [Post (row_request modelName prompt plugins webSearchOptions)]
  /\ rows (callOpenRouterAPI modelName prompt plugins webSearchOptions s).2
     = rows s.
Proof.
  assert (callOpenRouterAPI modelName prompt plugins webSearchOptions s
          = match axios_post
                    (row_request modelName prompt plugins webSearchOptions)
                    (world s) with
            | (o, w) =>
                (match o with
                 | HttpOk body => Returned (read_completion body)
                 | HttpFailed e => Thrown e
                 end,
                 {| rows := rows s; world := w;
                    trace := trace s
                             ++ [Post (row_request modelName prompt plugins
                                         webSearchOptions)] |})
            end) as ->.
  { unfold callOpenRouterAPI. rewrite bind_run. unfold post at 1.
    fold (row_request modelName prompt plugins webSearchOptions).
    by destruct (axios_post _ (world s)) as [[body|e] w]. }
  destruct (axios_post _ (world s)) as [[body|e] w]; [|done].
  cbn [fst snd read_completion result trace rows].
  destruct (trim_trimmed (content body)) as [H1 H2]. done.
Qed.

(** X10.  However a batch ends, it has paused R times, R not above
    [maxRetries], for 2^(R+1) - 2 seconds in all, and the requests it has
    sent are at most [maxRetries] + 1 times as many as the batch has
    rows. *)
Theorem processBatch_cost_bound (batchStart batchEnd : nat)
    (columnInfo : column_info) (modelName prompt : string)
    (plugins webSearchOptions : option value) (maxRetries : nat) (s : state) :
  exists evs R,
    trace (processBatch batchStart batchEnd columnInfo modelName prompt
             plugins webSearchOptions maxRetries s).2 = trace s ++ evs
    /\ length (sleeps evs) = R /\ R <= maxRetries
    /\ sum_list (sleeps evs) + 2000 = 2 ^ (R + 1) * 1000
    /\ length (posts evs) <= (maxRetries + 1) * (batchEnd - batchStart).
Proof.
  destruct (runs_and _ _ _ _
              (processBatch_runs batchStart batchEnd columnInfo modelName prompt
                 plugins webSearchOptions maxRetries s)
              (processBatch_loop_posts columnInfo modelName prompt plugins
                 webSearchOptions maxRetries (maxRetries + 2)
                 (seq batchStart (batchEnd - batchStart)) [] 0 s
                 (Nat.le_0_l _)))
    as (o & s' & evs & Hrun & Ht & (_ & _ & R & Hs & _ & HR & _) & Hposts).
  rewrite Hrun. exists evs, R.
  split; [done|]. rewrite Hs, length_map, length_seq. split; [done|].
  split; [lia|]. split.
  - pose proof (sum_backoff 0 R) as H. simpl in H.
    replace (R + 1) with (S R) by lia. simpl. lia.
  - rewrite length_seq, Nat.sub_0_r in Hposts. done.
Qed.

(** X11.  The row numbers listed in the error summary, over all its
    entries, are the numbers of the failed rows, each one once. *)
Theorem summarize_lists_each_failed_row_once (results : list settled) :
  summary_rows (summarize (rejected results))
  ≡ₚ row_numbers (map settled_index (rejected results)).
Proof.
  unfold summarize. rewrite summarize_from_rows by apply rejected_all. done.
Qed.

(** X15.  A run never runs out of fuel: every loop of [main] ends.  The
    entries that pass the check have their batch size replaced by 10 when
    it is 0 or missing, so that the loop over the batches advances, and
    keep their columns, cooldown, model and prompt. *)
Theorem main_terminates (cfg : config) (s : state) :
  (main cfg s).1 <> OutOfFuel
  /\ forall cs,
       validate_columns (columns cfg) = Some cs ->
       Forall2 defaults_applied (columns cfg) cs.
Proof. split; [apply main_ends | apply validate_columns_defaults]. Qed.

(** X16.  When a file name is missing, when some entry of the
    configuration lacks a name, a model or a prompt or is a group without
    columns, or when the input has no rows, the run ends with exit status 1
    before anything is processed: no request, no write, the rows as they
    were.  (The messages [main] prints on these exits are not part of the
    model.) *)
Theorem main_rejects_invalid (cfg : config) (s : state) :
  inputFileName cfg = "" \/ outputFileName cfg = ""
  \/ (exists c, c ∈ columns cfg /\ incomplete c) \/ rows s = [] ->
  exists s',
    main cfg s = (Returned (Exited 1), s')
    /\ rows s' = rows s /\ world s' = world s
    /\ posts (trace s') = posts (trace s)
    /\ writes (trace s') = writes (trace s).
Proof.
  intros H. exists s. unfold main. rewrite bind_run. unfold settle at 1.
  by rewrite main_body_invalid.
Qed.

(** X17.  The batch controller of the earlier revision always ends: with
    one outcome per row of the batch, in the order of the rows, or, after
    [maxRetries] pauses of 2, 4, 8, ... seconds, with an error whose message
    ends in the error message it has just printed, with the status, on the
    error console.  It never falls off the end of its loop. *)
Theorem Previous_processBatch_outcome (batchStart batchEnd : nat)
    (columnName modelName prompt : string) (maxRetries : nat) (s : state) :
  exists o s' evs R,
    Previous.processBatch batchStart batchEnd columnName modelName prompt
      maxRetries s = (o, s')
    /\ trace s' = trace s ++ evs
    /\ sleeps evs = map (fun r => 2 ^ r * 1000) (seq 1 R) /\ R <= maxRetries
    /\ match o with
       | Returned (Some res) =>
           map rowIndex res = seq batchStart (batchEnd - batchStart)
       | Returned None => False
       | Thrown e =>
           R = maxRetries
           /\ exists error before,
                e = Error ("Batch failed after " +:+ pretty maxRetries
                           +:+ " retries: "
                           +:+ Previous.batch_error_message error)
                /\ evs = before
                         ++ [ConsoleError (BatchFailed maxRetries);
                             ConsoleError
                               (StatusAndError (status_code error)
                                  (Previous.batch_error_message error))]
       | OutOfFuel => False
       end.
Proof.
  destruct (Previous_processBatch_runs batchStart batchEnd columnName modelName
              prompt maxRetries s)
    as (o & s' & evs & Hrun & Ht & _ & _ & R & Hs & HR & _ & Ho).
  exists o, s', evs, R. split; [done|]. split; [done|]. split; [done|].
  split; [lia|]. destruct o as [[res|]|e|]; [done|done| |done].
  destruct Ho as [Ho He]. split; [lia | done].
Qed.

(** X18.  In the earlier revision every round sends a request for every
    row of the batch: a batch inside the row set that paused R times has
    sent (R + 1) times as many requests as it has rows. *)
Theorem Previous_processBatch_resends_whole_batch (batchStart batchEnd : nat)
    (columnName modelName prompt : string) (maxRetries : nat) (s : state) :
  batchEnd <= length (rows s) ->
  exists evs,
    trace (Previous.processBatch batchStart batchEnd columnName modelName
             prompt maxRetries s).2 = trace s ++ evs
    /\ length (posts evs)
       = (length (sleeps evs) + 1) * (batchEnd - batchStart).
Proof.
  intros Hrange.
  destruct (Previous_processBatch_runs batchStart batchEnd columnName modelName
              prompt maxRetries s)
    as (o & s' & evs & Hrun & Ht & _ & _ & R & Hs & HR & Hposts & Ho).
  exists evs. rewrite Hrun. split; [done|].
  rewrite Hs, length_map, length_seq. auto.
Qed.

End Edges.

Section PreviousRunProofs.
Context {platform : Platform}.

Lemma PreviousRun_processColumn_loop_step fuel columnName st totalRows i t :
  PreviousRun.processColumn_loop (S fuel) columnName st totalRows i t
  = if (i <? totalRows)%nat then
      batchResults ← Previous.processBatch i
                       (Nat.min (i + cfg_batchSize st) totalRows) columnName
                       (cfg_modelName st) (cfg_prompt st) default_maxRetries;
      match batchResults with
      | None => throw PreviousRun.not_iterable
      | Some batchResults =>
          (if (Nat.min (i + cfg_batchSize st) totalRows <? totalRows)%nat
              && (0 <? cfg_cooldown st)%nat
           then sleep (cfg_cooldown st) else mret tt);;
          PreviousRun.processColumn_loop fuel columnName st totalRows
            (i + cfg_batchSize st) (foldl add_result t batchResults)
      end
    else mret t.
Proof. reflexivity. Qed.

Lemma PreviousRun_processColumn_loop_runs columnName st totalRows :
  forall fuel i t s,
  runs (PreviousRun.processColumn_loop fuel columnName st totalRows i t) s
    (fun o s' evs =>
       writes evs = []
       /\ (1 <= cfg_batchSize st ->
           batches_from totalRows (cfg_batchSize st) i < fuel ->
           o <> OutOfFuel)).
Proof.
  induction fuel as [|fuel IH]; intros i t s.
  { exists OutOfFuel, s, []. rewrite app_nil_r. split; [done|]. split; [done|].
    split; [done|]. lia. }
  rewrite PreviousRun_processColumn_loop_step.
  destruct (i <? totalRows)%nat eqn:Hi; [|by apply runs_ret].
  apply Nat.ltb_lt in Hi.
  apply runs_bind. eapply runs_mono; [apply Previous_processBatch_runs|].
  intros o s1 evs1 (_ & Hw1 & R & _ & _ & _ & Ho).
  destruct o as [[batchResults|]|e|]; [|done|done|done].
  apply runs_bind. eapply runs_mono; [apply cooldown_runs|].
  intros o2 s2 evs2 (-> & _ & Hw2).
  eapply runs_mono; [apply IH|].
  intros o3 s3 evs3 [Hw3 Ho3]. cbn beta.
  split; [by rewrite !writes_app, Hw1, Hw2, Hw3|].
  intros Hb Hfuel. apply Ho3; [done|].
  rewrite (batches_from_step totalRows (cfg_batchSize st) i) in Hfuel by done.
  lia.
Qed.

Lemma PreviousRun_processColumn_runs columnName st s :
  runs (PreviousRun.processColumn columnName st) s
    (fun o s' evs => writes evs = []
                     /\ (1 <= cfg_batchSize st -> o <> OutOfFuel)).
Proof.
  unfold PreviousRun.processColumn. apply runs_bind, runs_get_rows.
  apply runs_bind.
  eapply runs_mono; [apply PreviousRun_processColumn_loop_runs|].
  intros o s1 evs1 [Hw Ho]. destruct o as [t|e|].
  - apply runs_ret. rewrite app_nil_r. done.
  - done.
  - split; [done|]. intros Hb. exfalso. apply Ho; [done| |done].
    by apply batches_from_bound.
Qed.

Lemma PreviousRun_process_columns_runs cs : forall grand s,
  runs (PreviousRun.process_columns cs grand) s
    (fun o s' evs => writes evs = []
                     /\ (Forall (fun c => 1 <= cfg_batchSize c.2) cs ->
                         o <> OutOfFuel)).
Proof.
  induction cs as [|[columnName st] cs IH]; intros grand s;
    cbn [PreviousRun.process_columns].
  - by apply runs_ret.
  - apply runs_bind.
    eapply runs_mono; [apply PreviousRun_processColumn_runs|].
    intros o s1 evs1 [Hw Ho]. destruct o as [columnStats|e|].
    + eapply runs_mono; [apply IH|]. intros o2 s2 evs2 [Hw2 Ho2]. cbn beta.
      split; [by rewrite writes_app, Hw, Hw2|].
      intros [_ Hall]%Forall_cons. auto.
    + done.
    + split; [done|]. intros [Hc _]%Forall_cons. auto.
Qed.

Lemma PreviousRun_validate_batchSize cs cs' :
  PreviousRun.validate_columns cs = Some cs' ->
  Forall (fun c => 1 <= cfg_batchSize c.2) cs'.
Proof.
  unfold PreviousRun.validate_columns. rewrite mapM_Some.
  induction 1 as [|c c' cs cs' Hc _ IH]; [done|].
  apply Forall_cons. split; [|done].
  destruct c as [n st|g cols st]; simpl in Hc; [|done].
  destruct (_ && _); [|done]. injection Hc as <-. simpl.
  unfold default_batchSize. destruct (_ =? 0)%nat eqn:E; [lia|].
  apply Nat.eqb_neq in E. lia.
Qed.

Lemma PreviousRun_main_body_runs cfg s :
  runs (PreviousRun.main_body cfg) s (fun o s' evs =>
    match o with
    | Returned (Completed _) =>
        exists r0, rows s' !! 0 = Some r0
                   /\ writes evs
                      = [(outputFileName cfg, rows s', Object_keys r0)]
    | Returned (Exited _) => writes evs = []
    | Thrown _ =>
        writes evs = []
        \/ exists r0, rows s' !! 0 = Some r0
                      /\ writes evs
                         = [(outputFileName cfg, rows s', Object_keys r0)]
    | OutOfFuel => False
    end).
Proof.
  unfold PreviousRun.main_body.
  destruct (negb _); [by apply runs_ret|].
  destruct (PreviousRun.validate_columns (columns cfg)) as [cs|] eqn:Hcs;
    [|by apply runs_ret].
  apply runs_bind, runs_get_rows.
  destruct (length (rows s) =? 0)%nat; [by apply runs_ret|].
  apply runs_bind.
  eapply runs_mono; [apply PreviousRun_process_columns_runs|].
  intros o s1 evs1 [Hw1 Ho].
  specialize (Ho (PreviousRun_validate_batchSize _ _ Hcs)).
  destruct o as [grand|e|]; [|by left|done].
  unfold first_row_keys. apply runs_bind, runs_bind, runs_get_rows.
  destruct (rows s1 !! 0) as [r0|] eqn:Hr0.
  2:{ apply runs_throw. rewrite !app_nil_r. by left. }
  apply runs_ret, runs_bind, runs_get_rows, runs_bind.
  unfold runs, writeCSV.
  destruct (writeRecords _ _ _ (world s1)) as [[e|] w];
    eexists _, _, _; (split; [done|]); (split; [done|]).
  - right. exists r0. cbn [rows app]. split; [done|].
    by rewrite writes_app, Hw1.
  - apply runs_ret. exists r0. cbn [rows app]. split; [done|].
    by rewrite writes_app, Hw1.
Qed.

(** X19.  A run of the earlier revision always ends, and writes at most
    once: the output file, with all the rows under the keys of the first
    row.  A run that completes has made that write; no other file is ever
    written. *)
Theorem PreviousRun_main_writes_only_the_output (cfg : config) (s : state) :
  exists evs,
    trace (PreviousRun.main cfg s).2 = trace s ++ evs
    /\ (PreviousRun.main cfg s).1 <> OutOfFuel
    /\ (writes evs = []
        \/ exists r0,
             rows (PreviousRun.main cfg s).2 !! 0 = Some r0
             /\ writes evs
                = [(outputFileName cfg, rows (PreviousRun.main cfg s).2,
                    Object_keys r0)])
    /\ forall grand,
         (PreviousRun.main cfg s).1 = Returned (Completed grand) ->
         writes evs <> [].
Proof.
  assert (runs (PreviousRun.main cfg) s (fun o s' evs =>
            o <> OutOfFuel
            /\ (writes evs = []
                \/ exists r0, rows s' !! 0 = Some r0
                              /\ writes evs
                                 = [(outputFileName cfg, rows s', Object_keys r0)])
            /\ forall grand, o = Returned (Completed grand) -> writes evs <> []))
    as (o & s' & evs & Hrun & Ht & Ho & Hw & Hc).
  { unfold PreviousRun.main. apply runs_bind, runs_settle.
    eapply runs_mono; [apply PreviousRun_main_body_runs|].
    intros o s1 evs1 H1. destruct o as [[grand|code]|e|]; [| | |done].
    - apply runs_ret. rewrite app_nil_r. destruct H1 as (r0 & Hr0 & Hw).
      split; [done|]. split; [right; by exists r0|]. intros g _. by rewrite Hw.
    - apply runs_ret. rewrite app_nil_r. split; [done|]. split; [by left|]. done.
    - apply runs_bind, runs_emit, runs_ret. rewrite app_nil_r, writes_app.
      cbn [rows]. simpl (writes [_]). rewrite app_nil_r.
      split; [done|]. split; [done|]. done. }
  exists evs. rewrite Hrun. done.
Qed.

End PreviousRunProofs.

(** X8.  An opening fence without a closing one is removed all the same:
    the body comes out unchanged when it neither starts nor ends with white
    space and does not end in three backquotes. *)
Theorem unfence_unterminated (tag body : string) (c : ascii)
    (t : list ascii) :
  tag = "" \/ tag = "json" ->
  chars body = c :: t -> is_space c = false ->
  no_leading_space (rev (chars body)) ->
  starts_with fence (rev (chars body)) = false ->
  unfence ("```" +:+ tag +:+ newline +:+ body) = body.
Proof.
  intros Htag Hbody Hc Hlast Hfence. unfold unfence, trim, startsWith.
  rewrite !chars_app.
  change (chars "```") with fence. change (chars newline) with [line_feed].
  rewrite trim_chars_id.
  2:{ done. }
  2:{ rewrite !rev_app_distr. rewrite Hbody in *.
      destruct (rev (c :: t)) as [|x y] eqn:E; [|done].
      apply (f_equal (@length ascii)) in E. rewrite length_rev in E. done. }
  rewrite chars_text, starts_with_app.
  unfold strip_opening_fence. rewrite starts_with_app.
  change (drop 3 (fence ++ ?l)) with l.
  assert (drop_spaces
            (if starts_with (chars "json") (chars tag ++ [line_feed] ++ chars body)
             then drop 4 (chars tag ++ [line_feed] ++ chars body)
             else chars tag ++ [line_feed] ++ chars body)
          = chars body) as ->.
  { destruct Htag as [-> | ->].
    - change (chars "") with (@nil ascii). rewrite app_nil_l.
      change (starts_with (chars "json") ([line_feed] ++ chars body)) with false.
      cbv iota. rewrite Hbody. simpl. by rewrite Hc.
    - rewrite starts_with_app.
      change (drop 4 (chars "json" ++ ?l)) with l.
      rewrite Hbody. simpl. by rewrite Hc. }
  unfold strip_closing_fence.
  rewrite (drop_spaces_id _ Hlast), Hfence. apply text_chars.
Qed.

(** * The rounds of a batch, the writes of a run, ordinary names *)

(** ** The rounds of a batch *)

Section Rounds.
Context {platform : Platform}.

Lemma task_report_silent rowIndex columnInfo apiResult :
  posts (task_report rowIndex columnInfo apiResult) = []
  /\ sleeps (task_report rowIndex columnInfo apiResult) = []
  /\ writes (task_report rowIndex columnInfo apiResult) = []
  /\ retried (task_report rowIndex columnInfo apiResult) = [].
Proof.
  apply console_errors_silent.
  destruct columnInfo as [c|columns]; cbn [task_report]; [constructor|].
  unfold distribute_report.
  destruct (JSON_parse _) as [v|m]; [destruct columns as [|c cs]|].
  - constructor.
  - destruct (Get v c); [|constructor].
    unfold parse_failure_report. repeat constructor.
  - unfold parse_failure_report. repeat constructor.
Qed.

Lemma settled_row_ext columnInfo rs1 rs2 rs' x :
  rs1 !! settled_index x = rs2 !! settled_index x ->
  settled_row columnInfo rs1 rs' x -> settled_row columnInfo rs2 rs' x.
Proof.
  destruct x as [res i|e i]; cbn [settled_row settled_index]; intros E.
  - intros (r & body & H1 & H2 & H3). exists r, body. by rewrite <- E.
  - intros ->. done.
Qed.

(** A round over rows that exist, no row twice: every task sends the request
    made from its row as the round found it, a fulfilled task has assigned
    its result, a rejected task has changed nothing. *)
Lemma run_round_exact columnInfo modelName prompt plugins webSearchOptions :
  forall l s,
    NoDup l -> Forall (fun i => i < length (rows s)) l ->
    exists results s' evs,
      run_round columnInfo modelName prompt plugins webSearchOptions l s
      = (Returned results, s')
      /\ trace s' = trace s ++ evs
      /\ map settled_index results = l
      /\ Forall well_indexed results
      /\ round_trace
           (fun i => task_request modelName prompt plugins webSearchOptions
                       (rows s !! i)) l evs
      /\ length (rows s') = length (rows s)
      /\ (forall i, i ∉ l -> rows s' !! i = rows s !! i)
      /\ Forall (settled_row columnInfo (rows s) (rows s')) results.
Proof.
  induction l as [|i l IH]; intros s Hnd Hrange.
  { exists [], s, []. cbn [run_round]. rewrite app_nil_r.
    repeat split; try done; constructor. }
  apply NoDup_cons in Hnd as [Hi Hnd].
  apply Forall_cons in Hrange as [Hlt Hrange].
  destruct (lookup_lt_is_Some_2 _ _ Hlt) as [r Hr].
  destruct (fillPromptTemplate_total prompt r) as [filledPrompt Hfill].
  cbn [run_round]. rewrite bind_run. unfold row_task at 1.
  rewrite bind_run. unfold settle at 1.
  rewrite (processRow_present _ _ _ _ _ _ _ _ _ _ Hr Hfill). cbn zeta.
  set (req := row_request modelName filledPrompt plugins webSearchOptions).
  assert (task_request modelName prompt plugins webSearchOptions (rows s !! i)
          = req) as Hreq.
  { unfold task_request. by rewrite Hr, Hfill. }
  destruct (axios_post req (world s)) as [[body|e] w].
  - set (s1 := {| rows := <[i := row_after columnInfo (read_completion body) r]>
                            (rows s);
                  world := w;
                  trace := trace s
                           ++ Post req
                              :: task_report i columnInfo (read_completion body) |}).
    assert (Forall (fun j => j < length (rows s1)) l) as Hrange1.
    { cbn [s1 rows]. by rewrite length_insert. }
    destruct (IH s1 Hnd Hrange1)
      as (results & s' & evs & Hrun & Ht & Hidx & Hwi & Hround & Hlen & Hout
          & Hrows).
    exists (Fulfilled (outcome_of (read_completion body) i) i :: results), s',
      (Post req :: task_report i columnInfo (read_completion body) ++ evs).
    change (@mret M M_ret settled ?a s1) with (Returned a, s1).
    cbv iota. rewrite bind_run, Hrun.
    split; [done|].
    split. { rewrite Ht. cbn [s1 trace]. by rewrite <- app_assoc. }
    split. { cbn [map settled_index]. by rewrite Hidx. }
    split. { constructor; [done|exact Hwi]. }
    split.
    { destruct Hround as (Hp & Hs & Hw & Hre).
      destruct (task_report_silent i columnInfo (read_completion body))
        as (Hp0 & Hs0 & Hw0 & Hre0).
      change (Post req :: ?a ++ evs) with ([Post req] ++ a ++ evs).
      unfold round_trace.
      rewrite !posts_app, !sleeps_app, !writes_app, !retried_app.
      rewrite Hp0, Hs0, Hw0, Hre0, Hs, Hw, Hre, Hp.
      split; [|done]. cbn [posts omap map app]. rewrite Hreq. f_equal.
      apply map_ext_in. intros j Hj%list_elem_of_In.
      cbn [s1 rows]. rewrite list_lookup_insert_ne; [done|].
      intros ->. done. }
    split. { rewrite Hlen. cbn [s1 rows]. by rewrite length_insert. }
    split.
    { intros j Hj. apply not_elem_of_cons in Hj as [Hne Hj].
      rewrite (Hout j Hj). cbn [s1 rows].
      by rewrite list_lookup_insert_ne. }
    constructor.
    + cbn [settled_row]. exists r, body. split; [done|]. split; [|done].
      rewrite (Hout i Hi). cbn [s1 rows].
      by rewrite list_lookup_insert_eq.
    + rewrite Forall_forall in Hrows. apply Forall_forall. intros x Hx.
      apply (settled_row_ext columnInfo (rows s1)); [|by apply Hrows].
      cbn [s1 rows]. rewrite list_lookup_insert_ne; [done|].
      intros ->. apply Hi. rewrite <- Hidx.
      apply list_elem_of_fmap. by exists x.
  - set (s1 := {| rows := rows s; world := w; trace := trace s ++ [Post req] |}).
    destruct (IH s1 Hnd Hrange)
      as (results & s' & evs & Hrun & Ht & Hidx & Hwi & Hround & Hlen & Hout
          & Hrows).
    exists (Rejected e i :: results), s', (Post req :: evs).
    change (@mret M M_ret settled ?a s1) with (Returned a, s1).
    cbv iota. rewrite bind_run, Hrun.
    split; [done|].
    split. { rewrite Ht. cbn [s1 trace]. by rewrite <- app_assoc. }
    split. { cbn [map settled_index]. by rewrite Hidx. }
    split. { constructor; [done|exact Hwi]. }
    split.
    { destruct Hround as (Hp & Hs & Hw & Hre).
      change (Post req :: evs) with ([Post req] ++ evs).
      unfold round_trace.
      rewrite !posts_app, !sleeps_app, !writes_app, !retried_app.
      rewrite Hp, Hs, Hw, Hre. split; [|done].
      cbn [posts omap map app]. by rewrite Hreq. }
    split; [exact Hlen|].
    split.
    { intros j Hj. apply not_elem_of_cons in Hj as [Hne Hj].
      by rewrite (Hout j Hj). }
    constructor.
    + cbn [settled_row]. by rewrite (Hout i Hi).
    + exact Hrows.
Qed.

End Rounds.

Lemma list_difference_skip (l k : list nat) i :
  i ∉ l -> list_difference l (i :: k) = list_difference l k.
Proof.
  induction l as [|x l IH]; [done|]. intros Hi.
  apply not_elem_of_cons in Hi as [Hne Hi]. cbn [list_difference].
  rewrite (IH Hi).
  destruct (decide_rel elem_of x (i :: k)) as [H1|H1],
           (decide_rel elem_of x k) as [H2|H2]; try done.
  - apply elem_of_cons in H1 as [->|H1]; done.
  - exfalso. apply H1. by right.
Qed.

Lemma list_difference_sublist (l k : list nat) :
  NoDup l -> sublist k l -> list_difference l k ++ k ≡ₚ l.
Proof.
  intros Hnd Hsub. apply NoDup_Permutation.
  - apply NoDup_app. split; [by apply NoDup_list_difference|]. split.
    + intros x Hx%list_elem_of_difference. tauto.
    + by eapply sublist_NoDup.
  - done.
  - intros x. rewrite elem_of_app, list_elem_of_difference.
    split.
    + intros [[Hx _]|Hx]; [done|]. by eapply elem_of_sublist.
    + intros Hx. destruct (decide (x ∈ k)); tauto.
Qed.

Lemma sublist_elem_of_nat (k l : list nat) i : sublist k l -> i ∈ k -> i ∈ l.
Proof. intros Hsub Hi. by eapply elem_of_sublist. Qed.

Section RoundsOfLoop.
Context {platform : Platform}.

Lemma sublist_rejected results :
  sublist (map settled_index (rejected results)) (map settled_index results).
Proof.
  induction results as [|[res i|e i] rs IH]; [constructor| |].
  - rewrite rejected_cons_fulfilled. cbn [map]. by apply sublist_cons.
  - rewrite rejected_cons_rejected. cbn [map]. by apply sublist_skip.
Qed.

Lemma fulfilled_difference results :
  NoDup (map settled_index results) -> Forall well_indexed results ->
  map rowIndex (fulfilled_results results)
  = list_difference (map settled_index results)
      (map settled_index (rejected results)).
Proof.
  induction results as [|[res i|e i] rs IH]; intros Hnd Hwi; [done| |].
  - cbn [map settled_index] in Hnd. apply NoDup_cons in Hnd as [Hi Hnd].
    apply Forall_cons in Hwi as [Hres Hwi]. cbn [well_indexed] in Hres.
    rewrite rejected_cons_fulfilled.
    change (fulfilled_results (Fulfilled res i :: rs))
      with (res :: fulfilled_results rs).
    cbn [map settled_index list_difference]. rewrite Hres.
    destruct (decide_rel elem_of i (map settled_index (rejected rs))) as [Hin|_].
    + exfalso. by apply Hi, rejected_indices_subset.
    + f_equal. by apply IH.
  - cbn [map settled_index] in Hnd. apply NoDup_cons in Hnd as [Hi Hnd].
    apply Forall_cons in Hwi as [_ Hwi].
    rewrite rejected_cons_rejected.
    change (fulfilled_results (Rejected e i :: rs)) with (fulfilled_results rs).
    cbn [map settled_index list_difference].
    destruct (decide_rel elem_of i (i :: map settled_index (rejected rs)))
      as [_|Hout]; [|exfalso; apply Hout; by left].
    rewrite (list_difference_skip _ _ _ Hi). by apply IH.
Qed.

Lemma round_trace_ext req req' l round :
  (forall i, i ∈ l -> req i = req' i) ->
  round_trace req l round -> round_trace req' l round.
Proof.
  intros E (Hp & H). split; [|exact H]. rewrite Hp.
  apply map_ext_in. intros i Hi%list_elem_of_In. by apply E.
Qed.

Lemma batch_trace_ext req req' maxRetries rc l evs done left :
  (forall i, i ∈ l -> req i = req' i) ->
  batch_trace req maxRetries rc l evs done left ->
  batch_trace req' maxRetries rc l evs done left.
Proof.
  intros E H. induction H as [rc l round Hr|l round failed Hr Hne Hall Hsub
                              |rc l round l' report rest done left Hrc Hr Hne
                                 Hsub Hp Hs Hw Hre Hrest IH].
  - constructor. by eapply round_trace_ext.
  - constructor; try done. by eapply round_trace_ext.
  - constructor; try done; [by eapply round_trace_ext|].
    apply IH. intros i Hi. apply E. by eapply sublist_elem_of_nat.
Qed.

(** What the events of a batch show of its pauses: after [rc] retries, the
    pauses are those of the retries [rc + 1], ..., [rc + R], one for each
    announcement; a batch that leaves rows has made every retry. *)
Lemma batch_trace_sleeps req maxRetries rc l evs done left :
  rc <= maxRetries ->
  batch_trace req maxRetries rc l evs done left ->
  exists R,
    sleeps evs = map backoff (seq (S rc) R)
    /\ length (retried evs) = R /\ rc + R <= maxRetries
    /\ (left <> [] -> rc + R = maxRetries).
Proof.
  intros Hle H. induction H as [rc l round Hr|l round failed Hr Hne Hall Hsub
                                |rc l round l' report rest done left Hrc Hr Hne
                                   Hsub Hp Hs Hw Hre Hrest IH].
  - destruct Hr as (_ & Hs & _ & Hre). exists 0. rewrite Hs, Hre.
    repeat split; [lia|done].
  - destruct Hr as (_ & Hs & _ & Hre).
    destruct (final_report_silent (map settled_index failed) maxRetries
                (summarize failed)) as (_ & Hs' & _ & Hre').
    exists 0. rewrite sleeps_app, retried_app, Hs, Hre, Hs', Hre'.
    repeat split; lia.
  - destruct Hr as (_ & Hs0 & _ & Hre0).
    destruct (IH Hrc) as (R & HsR & HreR & HR & Hleft).
    exists (S R).
    split. { rewrite !sleeps_app, Hs0, Hs, HsR. reflexivity. }
    split. { rewrite !retried_app, Hre0, Hre, !length_app, HreR. reflexivity. }
    split; [lia|]. intros Hl. specialize (Hleft Hl). lia.
Qed.

(** The requests of a batch: one for each row of the first round and one
    for each row of each announced retry. *)
Lemma batch_trace_posts req maxRetries rc l evs done left :
  batch_trace req maxRetries rc l evs done left ->
  length (posts evs) = length l + sum_list (map length (retried evs)).
Proof.
  intros H. induction H as [rc l round Hr|l round failed Hr Hne Hall Hsub
                            |rc l round l' report rest done left Hrc Hr Hne
                               Hsub Hp Hs Hw Hre Hrest IH].
  - destruct Hr as (Hp & _ & _ & Hre). rewrite Hp, Hre, length_map. simpl. lia.
  - destruct Hr as (Hp & _ & _ & Hre).
    destruct (final_report_silent (map settled_index failed) maxRetries
                (summarize failed)) as (Hp' & _ & _ & Hre').
    rewrite posts_app, retried_app, Hp, Hre, Hp', Hre', length_app, length_map.
    simpl. lia.
  - destruct Hr as (Hp0 & _ & _ & Hre0).
    rewrite !posts_app, !retried_app, Hp0, Hre0, Hp, Hre, !length_app,
      length_map, IH.
    change (retried [Sleep (2 ^ S rc * 1000)]) with (@nil (list nat)).
    change (posts [Sleep (2 ^ S rc * 1000)]) with (@nil request).
    cbn [app length map sum_list sum_list_with].
    unfold row_numbers. rewrite length_map. unfold id. lia.
Qed.

Lemma batch_trace_left req maxRetries rc l evs done left :
  batch_trace req maxRetries rc l evs done left -> sublist left l.
Proof.
  intros H. induction H as [rc l round Hr|l round failed Hr Hne Hall Hsub
                            |rc l round l' report rest done left Hrc Hr Hne
                               Hsub Hp Hs Hw Hre Hrest IH].
  - apply sublist_nil_l.
  - done.
  - by etrans.
Qed.

(** The rows of a batch are those that succeeded and those that are left. *)
Lemma batch_trace_done req maxRetries rc l evs done left :
  NoDup l ->
  batch_trace req maxRetries rc l evs done left -> done ++ left ≡ₚ l.
Proof.
  intros Hnd H. induction H as [rc l round Hr|l round failed Hr Hne Hall Hsub
                                |rc l round l' report rest done left Hrc Hr Hne
                                   Hsub Hp Hs Hw Hre Hrest IH].
  - by rewrite app_nil_r.
  - by apply list_difference_sublist.
  - rewrite <- app_assoc, IH; [|by eapply sublist_NoDup].
    by apply list_difference_sublist.
Qed.

(** A batch that leaves rows ends with the final report of those rows. *)
Lemma batch_trace_report req maxRetries rc l evs done left :
  batch_trace req maxRetries rc l evs done left ->
  left <> [] ->
  exists before failed,
    evs = before ++ final_report left maxRetries (summarize failed)
    /\ map settled_index failed = left
    /\ Forall (fun f => is_rejected f = true) failed.
Proof.
  intros H. induction H as [rc l round Hr|l round failed Hr Hne Hall Hsub
                            |rc l round l' report rest done left Hrc Hr Hne
                               Hsub Hp Hs Hw Hre Hrest IH]; intros Hleft.
  - done.
  - by exists round, failed.
  - destruct (IH Hleft) as (before & failed & -> & E & Hall).
    exists (round ++ report ++ [Sleep (2 ^ S rc * 1000)] ++ before), failed.
    by rewrite <- !app_assoc.
Qed.

Lemma settled_row_rejected columnInfo rs rs' results i :
  Forall (settled_row columnInfo rs rs') results ->
  i ∈ map settled_index (rejected results) -> rs' !! i = rs !! i.
Proof.
  intros Hrows (x & -> & Hx)%list_elem_of_fmap.
  apply list_elem_of_filter in Hx as [Hrej Hx].
  rewrite Forall_forall in Hrows. specialize (Hrows x Hx).
  by destruct x.
Qed.

Lemma settled_row_fulfilled columnInfo rs rs' results i r :
  NoDup (map settled_index results) ->
  Forall (settled_row columnInfo rs rs') results ->
  i ∈ map settled_index results ->
  i ∉ map settled_index (rejected results) ->
  rs !! i = Some r ->
  exists body,
    rs' !! i = Some (row_after columnInfo (read_completion body) r).
Proof.
  intros Hnd Hrows Hi Hnot Hr.
  destruct (settled_cases results i Hi) as [[res Hres]|Hrej]; [|done].
  rewrite Forall_forall in Hrows. specialize (Hrows _ Hres).
  destruct Hrows as (r0 & body & Hr0 & Hr' & _).
  exists body. rewrite Hr0 in Hr. by injection Hr as <-.
Qed.

(** The retry loop, round by round. *)
Lemma processBatch_loop_rounds columnInfo modelName prompt plugins
    webSearchOptions maxRetries : forall fuel l acc rc s,
  NoDup l -> Forall (fun i => i < length (rows s)) l ->
  rc <= maxRetries -> maxRetries + 2 <= fuel + rc ->
  exists o s' evs done left,
    processBatch_loop fuel columnInfo modelName prompt plugins
      webSearchOptions maxRetries l acc rc s = (o, s')
    /\ trace s' = trace s ++ evs
    /\ batch_trace
         (fun i => task_request modelName prompt plugins webSearchOptions
                     (rows s !! i)) maxRetries rc l evs done left
    /\ length (rows s') = length (rows s)
    /\ (forall i, i ∉ l -> rows s' !! i = rows s !! i)
    /\ (forall i, i ∈ left -> rows s' !! i = rows s !! i)
    /\ (forall i r,
          i ∈ l -> i ∉ left -> rows s !! i = Some r ->
          exists body,
            rows s' !! i
            = Some (row_after columnInfo (read_completion body) r))
    /\ match o with
       | Returned res =>
           left = [] /\ exists more, res = acc ++ more /\ map rowIndex more = done
       | Thrown e =>
           left <> [] /\ e = Error (failed_message (length left) maxRetries)
       | OutOfFuel => False
       end.
Proof.
  induction fuel as [|fuel IH]; intros l acc rc s Hnd Hrange Hrc Hfuel; [lia|].
  rewrite processBatch_loop_step.
  destruct l as [|i0 l0] eqn:El.
  { exists (Returned acc), s, [], [], [].
    cbn [length Nat.ltb Nat.leb andb]. rewrite app_nil_r.
    split; [done|]. split; [done|].
    split. { constructor. by repeat split. }
    split; [done|]. split; [done|]. split; [done|].
    split. { intros i r Hi. by apply elem_of_nil in Hi. }
    split; [done|]. exists []. by rewrite app_nil_r. }
  rewrite <- El in *.
  assert ((0 <? length l)%nat = true) as Hpos by (by rewrite El).
  rewrite Hpos.
  assert ((rc <=? maxRetries)%nat = true) as -> by (by apply Nat.leb_le).
  cbn [andb]. rewrite bind_run.
  destruct (run_round_exact columnInfo modelName prompt plugins
              webSearchOptions l s Hnd Hrange)
    as (results & s1 & evs0 & Hround & Ht0 & Hidx & Hwi & Htr0 & Hlen0 & Hout0
        & Hrows0).
  rewrite Hround. cbn zeta.
  set (req := fun i => task_request modelName prompt plugins webSearchOptions
                         (rows s !! i)) in *.
  assert (NoDup (map settled_index results)) as Hnd0 by (by rewrite Hidx).
  pose proof (rejected_indices_NoDup results Hnd0) as Hnd'.
  pose proof (sublist_rejected results) as Hsub. rewrite Hidx in Hsub.
  pose proof (fulfilled_difference results Hnd0 Hwi) as Hdone.
  rewrite Hidx in Hdone.
  set (l' := map settled_index (rejected results)) in *.
  destruct (0 <? length l')%nat eqn:Hsome.
  - assert (l' <> []) as Hne.
    { intros E. rewrite E in Hsome. done. }
    destruct (maxRetries <? S rc)%nat eqn:Hmax.
    + (* the retries are used up *)
      apply Nat.ltb_lt in Hmax. assert (rc = maxRetries) as -> by lia.
      rewrite bind_run. unfold emit_all at 1. unfold throw.
      eexists _, _, _, _, l'. split; [reflexivity|]. cbn [trace rows].
      split. { rewrite Ht0, <- app_assoc. reflexivity. }
      split.
      { apply batch_gives_up; [exact Htr0| |apply rejected_all|exact Hsub].
        intros E. apply Hne. unfold l'. by rewrite E. }
      split; [exact Hlen0|]. split; [exact Hout0|].
      split. { intros i Hi. by eapply settled_row_rejected. }
      split.
      { intros i r Hi Hnot Hr.
        apply (settled_row_fulfilled columnInfo (rows s) (rows s1) results i r
                 Hnd0 Hrows0); [by rewrite Hidx|exact Hnot|exact Hr]. }
      split; [exact Hne|]. unfold l'. by rewrite length_map.
    + (* another round *)
      apply Nat.ltb_ge in Hmax.
      rewrite bind_run. unfold emit_all at 1. rewrite bind_run.
      unfold sleep at 1, emit at 1. cbn [rows world trace].
      set (report := retry_report l' (S rc) maxRetries
                       (summarize (rejected results)) (rejected results)).
      match goal with |- context [processBatch_loop _ _ _ _ _ _ _ _ _ _ ?st] =>
        set (s1' := st)
      end.
      assert (Forall (fun i => i < length (rows s1')) l') as Hrange'.
      { cbn [s1' rows]. rewrite Hlen0. rewrite Forall_forall in Hrange.
        apply Forall_forall. intros i Hi. apply Hrange.
        by eapply sublist_elem_of_nat. }
      destruct (IH l' (acc ++ fulfilled_results results) (S rc) s1' Hnd' Hrange'
                  Hmax ltac:(lia))
        as (o & s' & evs & done & left & Hrun & Ht & Htrace & Hlen & Hout & Hleft
            & Hgot & Ho).
      exists o, s', (evs0 ++ report ++ [Sleep (2 ^ S rc * 1000)] ++ evs),
        (list_difference l l' ++ done), left.
      split; [exact Hrun|].
      split. { rewrite Ht. cbn [s1' trace]. rewrite Ht0, <- !app_assoc. done. }
      destruct (retry_report_silent l' (S rc) maxRetries
                  (summarize (rejected results)) (rejected results))
        as (Hp & Hs & Hw & Hre).
      split.
      { apply batch_retries;
          [lia|exact Htr0|exact Hne|exact Hsub|exact Hp|exact Hs|exact Hw
          |exact Hre|].
        eapply batch_trace_ext; [|exact Htrace].
        intros i Hi. unfold req. cbn [s1' rows]. cbv beta.
        by rewrite (settled_row_rejected _ _ _ _ _ Hrows0 Hi). }
      split. { rewrite Hlen. cbn [s1' rows]. exact Hlen0. }
      split.
      { intros i Hi. rewrite Hout, <- Hout0; [done|done|].
        intros Hin. apply Hi. by eapply sublist_elem_of_nat. }
      pose proof (batch_trace_left _ _ _ _ _ _ _ Htrace) as Hsubleft.
      split.
      { intros i Hi. rewrite (Hleft i Hi). cbn [s1' rows].
        eapply settled_row_rejected; [exact Hrows0|].
        by eapply sublist_elem_of_nat. }
      split.
      { intros i r Hi Hnot Hr.
        destruct (decide (i ∈ l')) as [Hin|Hnin].
        - apply (Hgot i r Hin Hnot). cbn [s1' rows].
          by rewrite (settled_row_rejected _ _ _ _ _ Hrows0 Hin).
        - rewrite (Hout i Hnin). cbn [s1' rows].
          apply (settled_row_fulfilled columnInfo (rows s) (rows s1) results i
                   r Hnd0 Hrows0); [by rewrite Hidx|exact Hnin|exact Hr]. }
      destruct o as [res|e|]; [|exact Ho|exact Ho].
      destruct Ho as (-> & more & -> & Hmore). split; [done|].
      exists (fulfilled_results results ++ more).
      split; [by rewrite app_assoc|]. by rewrite map_app, Hdone, Hmore.
  - (* every row succeeded *)
    assert (l' = []) as E.
    { destruct l'; [done|]. done. }
    destruct fuel as [|fuel]; [lia|].
    rewrite E, processBatch_loop_done.
    exists (Returned (acc ++ fulfilled_results results)), s1, evs0, l, [].
    split; [done|]. split; [exact Ht0|].
    split. { by constructor. }
    split; [exact Hlen0|]. split; [exact Hout0|].
    split. { intros i Hi. by apply elem_of_nil in Hi. }
    split.
    { intros i r Hi _ Hr.
      apply (settled_row_fulfilled columnInfo (rows s) (rows s1) results i r
               Hnd0 Hrows0); [by rewrite Hidx| |exact Hr].
      fold l'. rewrite E. apply not_elem_of_nil. }
    split; [done|]. exists (fulfilled_results results). split; [done|].
    rewrite Hdone, E. clear. induction l as [|x l IHl]; [done|].
    cbn [list_difference].
    destruct (decide_rel elem_of x []) as [H|_]; [by apply elem_of_nil in H|].
    by rewrite IHl.
Qed.

(** The controller, round by round. *)
Lemma processBatch_rounds batchStart batchEnd columnInfo modelName prompt
    plugins webSearchOptions maxRetries s :
  batchEnd <= length (rows s) ->
  exists o s' evs done left,
    processBatch batchStart batchEnd columnInfo modelName prompt plugins
      webSearchOptions maxRetries s = (o, s')
    /\ trace s' = trace s ++ evs
    /\ batch_trace
         (fun i => task_request modelName prompt plugins webSearchOptions
                     (rows s !! i)) maxRetries 0
         (seq batchStart (batchEnd - batchStart)) evs done left
    /\ length (rows s') = length (rows s)
    /\ (forall i, ~ batchStart <= i < batchEnd -> rows s' !! i = rows s !! i)
    /\ (forall i, i ∈ left -> rows s' !! i = rows s !! i)
    /\ (forall i r,
          batchStart <= i < batchEnd -> i ∉ left -> rows s !! i = Some r ->
          exists body,
            rows s' !! i
            = Some (row_after columnInfo (read_completion body) r))
    /\ match o with
       | Returned res => left = [] /\ map rowIndex res = done
       | Thrown e =>
           left <> [] /\ e = Error (failed_message (length left) maxRetries)
       | OutOfFuel => False
       end.
Proof.
  intros Hrange.
  destruct (processBatch_loop_rounds columnInfo modelName prompt plugins
              webSearchOptions maxRetries (maxRetries + 2)
              (seq batchStart (batchEnd - batchStart)) [] 0 s
              (NoDup_seq _ _) (seq_in_range _ _ _ Hrange) ltac:(lia) ltac:(lia))
    as (o & s' & evs & done & left & Hrun & Ht & Htrace & Hlen & Hout & Hleft
        & Hgot & Ho).
  exists o, s', evs, done, left. split; [exact Hrun|]. split; [exact Ht|].
  split; [exact Htrace|]. split; [exact Hlen|].
  split. { intros i Hi. apply Hout. rewrite elem_of_seq. lia. }
  split; [exact Hleft|].
  split. { intros i r Hi. apply Hgot. rewrite elem_of_seq. lia. }
  destruct o as [res|e|]; [|exact Ho|exact Ho].
  destruct Ho as (-> & more & -> & Hmore). done.
Qed.

End RoundsOfLoop.

(** ** From one round to the next *)

Section Steps.
Context {platform : Platform}.

Lemma run_round_nil_inv columnInfo modelName prompt plugins webSearchOptions
    s results s1 :
  run_round columnInfo modelName prompt plugins webSearchOptions [] s
  = (Returned results, s1) -> results = [].
Proof. cbn [run_round]. by intros [= <- _]. Qed.

Lemma rejected_positive results :
  rejected results <> [] ->
  (0 <? length (map settled_index (rejected results)))%nat = true.
Proof.
  intros Hne. rewrite length_map. apply Nat.ltb_lt.
  destruct (rejected results); [done|simpl; lia].
Qed.

Lemma round_positive columnInfo modelName prompt plugins webSearchOptions
    l s results s1 :
  run_round columnInfo modelName prompt plugins webSearchOptions l s
  = (Returned results, s1) ->
  rejected results <> [] -> (0 <? length l)%nat = true.
Proof.
  intros Hround Hne. destruct l; [|done].
  apply run_round_nil_inv in Hround as ->. done.
Qed.

(** A round that rejects rows while retries remain: the report, one pause,
    and the loop goes round on the rejected rows. *)
Lemma processBatch_loop_retry fuel columnInfo modelName prompt plugins
    webSearchOptions maxRetries l acc rc s results s1 :
  rc < maxRetries ->
  run_round columnInfo modelName prompt plugins webSearchOptions l s
  = (Returned results, s1) ->
  rejected results <> [] ->
  processBatch_loop (S fuel) columnInfo modelName prompt plugins
    webSearchOptions maxRetries l acc rc s
  = processBatch_loop fuel columnInfo modelName prompt plugins
      webSearchOptions maxRetries (map settled_index (rejected results))
      (acc ++ fulfilled_results results) (S rc)
      (with_events s1
         (retry_report (map settled_index (rejected results)) (S rc)
            maxRetries (summarize (rejected results)) (rejected results)
          ++ [Sleep (2 ^ S rc * 1000)])).
Proof.
  intros Hrc Hround Hne.
  rewrite processBatch_loop_step, (round_positive _ _ _ _ _ _ _ _ _ Hround Hne).
  assert ((rc <=? maxRetries)%nat = true) as -> by (apply Nat.leb_le; lia).
  cbn [andb]. rewrite bind_run, Hround. cbn zeta.
  rewrite (rejected_positive _ Hne).
  assert ((maxRetries <? S rc)%nat = false) as -> by (apply Nat.ltb_ge; lia).
  rewrite bind_run. unfold emit_all at 1. rewrite bind_run.
  unfold sleep at 1, emit at 1. cbn [rows world trace].
  unfold with_events. by rewrite <- app_assoc.
Qed.

(** A round that rejects rows when the retries are used up: the final
    report of the rejected rows, and the error that counts them. *)
Lemma processBatch_loop_give_up fuel columnInfo modelName prompt plugins
    webSearchOptions maxRetries l acc s results s1 :
  run_round columnInfo modelName prompt plugins webSearchOptions l s
  = (Returned results, s1) ->
  rejected results <> [] ->
  processBatch_loop (S fuel) columnInfo modelName prompt plugins
    webSearchOptions maxRetries l acc maxRetries s
  = (Thrown (Error (failed_message (length (rejected results)) maxRetries)),
     with_events s1
       (final_report (map settled_index (rejected results)) maxRetries
          (summarize (rejected results)))).
Proof.
  intros Hround Hne.
  rewrite processBatch_loop_step, (round_positive _ _ _ _ _ _ _ _ _ Hround Hne).
  rewrite Nat.leb_refl. cbn [andb]. rewrite bind_run, Hround. cbn zeta.
  rewrite (rejected_positive _ Hne).
  assert ((maxRetries <? S maxRetries)%nat = true) as ->
    by (apply Nat.ltb_lt; lia).
  rewrite bind_run. unfold emit_all at 1. unfold throw, with_events.
  by rewrite length_map.
Qed.

End Steps.

(** ** The writes of a run *)

Section WritesOfRun.
Context {platform : Platform}.

Lemma process_columns_checkpoints cs path : forall grand s,
  path <> "" -> Forall (fun c => 1 <= cfg_batchSize (settings_of c)) cs ->
  runs (process_columns cs path grand) s (fun o s' evs =>
    length (rows s') = length (rows s)
    /\ Forall (checkpoint_of path (length (rows s))) (writes evs)
    /\ match o with
       | Returned _ => length (writes evs) = batches_of (length (rows s)) cs
       | Thrown _ => True
       | OutOfFuel => False
       end).
Proof.
  induction cs as [|c cs IH]; intros grand s Hpath Hall; cbn [process_columns].
  - step. split; [done|]. split; [apply Forall_nil_2|done].
  - apply Forall_cons in Hall as [Hc Hall].
    step. eapply runs_mono; [apply processColumn_runs|]. cbn beta.
    intros o s1 evs1 (Hlen1 & Hall1 & Ho1). specialize (Ho1 Hpath Hc).
    destruct o as [columnStats|e|]; [|done..].
    eapply runs_mono; [by apply IH|]. cbn beta.
    intros o s2 evs2 (Hlen2 & Hall2 & Ho2).
    split; [congruence|]. rewrite writes_app. split.
    { apply Forall_app. split; [done|]. by rewrite Hlen1 in Hall2. }
    destruct o as [g|e|]; [|done..].
    rewrite length_app, Ho1, Ho2, Hlen1. reflexivity.
Qed.

Lemma validate_columns_batchSize cs cs' :
  validate_columns cs = Some cs' ->
  Forall (fun c => 1 <= cfg_batchSize (settings_of c)) cs'.
Proof.
  intros H%validate_columns_defaults.
  induction H as [|c c' cs cs' Hc _ IH]; constructor; [|done].
  by eapply defaults_batchSize.
Qed.

(** The writes of a run: the checkpoints, all of them to the progress path,
    and after them at most one write, to the output file; a run that
    completes has made that write, and one checkpoint for every batch of
    every column. *)
Lemma main_writes cfg s :
  runs (main cfg) s (fun o s' evs =>
    exists checkpoints final,
      writes evs = checkpoints ++ final
      /\ Forall (checkpoint_of (progress_path (outputFileName cfg))
                   (length (rows s))) checkpoints
      /\ (final = []
          \/ exists records headers,
               final = [(outputFileName cfg, records, headers)])
      /\ forall grand,
           o = Returned (Completed grand) ->
           final <> []
           /\ exists cs,
                validate_columns (columns cfg) = Some cs
                /\ length checkpoints = batches_of (length (rows s)) cs).
Proof.
  set (Q := fun (o : outcome exit_status) (s' : state) (evs : list event) =>
    exists checkpoints final,
      writes evs = checkpoints ++ final
      /\ Forall (checkpoint_of (progress_path (outputFileName cfg))
                   (length (rows s))) checkpoints
      /\ (final = []
          \/ exists records headers,
               final = [(outputFileName cfg, records, headers)])
      /\ forall grand,
           o = Returned (Completed grand) ->
           final <> []
           /\ exists cs,
                validate_columns (columns cfg) = Some cs
                /\ length checkpoints = batches_of (length (rows s)) cs).
  assert (forall o s', (forall grand, o <> Returned (Completed grand)) ->
                       Q o s' []) as Hnone.
  { intros o s' Ho. exists [], []. split; [done|]. split; [constructor|].
    split; [by left|]. intros grand E. by destruct (Ho grand). }
  assert (runs (main_body cfg) s Q) as Hbody.
  { unfold main_body.
    destruct (nonempty (inputFileName cfg) && nonempty (outputFileName cfg))
      eqn:Hnames; cbn [negb]; [|step; by apply Hnone].
    apply andb_prop in Hnames as [_ Hout].
    destruct (validate_columns (columns cfg)) as [cs|] eqn:Hcs;
      [|step; by apply Hnone].
    step. step.
    destruct (length (rows s) =? 0)%nat; [step; by apply Hnone|].
    step.
    assert (progress_path (outputFileName cfg) <> "") as Hpath.
    { apply progress_path_nonempty. intros E. rewrite E in Hout. done. }
    eapply runs_mono;
      [apply (process_columns_checkpoints cs _ no_stats s Hpath
                (validate_columns_batchSize _ _ Hcs))|].
    cbn beta. intros o s1 evs1 (_ & Hall & Ho).
    assert (forall o' s' final,
              (final = []
               \/ exists records headers,
                    final = [(outputFileName cfg, records, headers)]) ->
              (forall grand, o' = Returned (Completed grand) ->
                             final <> [] /\ o = Returned grand) ->
              forall evs', writes evs' = final -> Q o' s' (evs1 ++ evs')) as Hend.
    { intros o' s' final Hfinal Hdone evs' Hw.
      exists (writes evs1), final. rewrite writes_app, Hw.
      split; [done|]. split; [done|]. split; [done|].
      intros grand E. destruct (Hdone grand E) as [Hne ->].
      split; [done|]. by exists cs. }
    destruct o as [grand|e|]; [| |done].
    2:{ rewrite <- (app_nil_r evs1). apply (Hend _ _ []); [by left| |done].
        intros g [=]. }
    step. eapply runs_mono; [apply first_row_keys_runs|]. cbn beta.
    intros o s2 evs2 ->.
    destruct o as [allHeaders|e|].
    2:{ apply (Hend _ _ []); [by left| |done]. intros g [=]. }
    2:{ apply (Hend _ _ []); [by left| |done]. intros g [=]. }
    step. step. step. eapply runs_mono; [apply writeCSV_runs|]. cbn beta.
    intros o s3 evs3 Hw3. rewrite app_nil_l.
    assert (forall o' s', (forall g, o' = Returned (Completed g) -> g = grand) ->
                          Q o' s' (evs1 ++ evs3)) as Hwritten.
    { intros o' s' Hg.
      apply (Hend _ _ [(outputFileName cfg, rows s2, allHeaders)]);
        [right; by eexists _, _| |exact Hw3].
      intros g E. split; [done|]. by rewrite (Hg g E). }
    destruct o as [[]|e|].
    - step. rewrite app_nil_r. apply Hwritten. by intros g [= <-].
    - apply Hwritten. intros g [=].
    - apply Hwritten. intros g [=]. }
  unfold main. step. step.
  eapply runs_mono; [exact Hbody|]. cbn beta. intros o s1 evs1 HQ.
  destruct o as [st|e|].
  - step. by rewrite app_nil_r.
  - step. step. step. rewrite app_nil_r.
    destruct HQ as (checkpoints & final & Hw & Hall & Hfinal & _).
    exists checkpoints, final. rewrite writes_app. cbn. rewrite app_nil_r.
    split; [done|]. split; [done|]. split; [done|]. intros g [=].
  - destruct HQ as (checkpoints & final & Hw & Hall & Hfinal & _).
    exists checkpoints, final.
    split; [done|]. split; [done|]. split; [done|]. intros g [=].
Qed.

End WritesOfRun.

Section RetriedRows.
Context {platform : Platform}.

(** C1, as the code has it.  Take a batch inside the row set.

    The whole batch.  Its events are those of a first round over all its
    rows and, for as long as a round rejects rows and retries remain, a
    report, one pause and a round over the rejected rows ([batch_trace]):
    each round sends one request for each of its rows, made from that row,
    and no other request; the rows of a retry round are rows the round
    before it rejected, in their order, and they are the rows announced.
    So the requests number N, the size of the batch, plus the number of
    rows of every retry round.  When the batch returns, the outcomes are
    those of the N rows, in the order in which the rows succeeded; and with
    exactly one retry round, of K rows, the requests number N + K.

    Every round.  Whenever a round of the loop rejects rows and retries
    remain, the loop goes on with the indices of the rejected rows as the
    rows to process, the outcomes of the fulfilled rows being kept; no
    fulfilled row is among them.

    The earlier revision.  The controller of part_000 sends a request for
    every row of the batch in every round: (R + 1) * N requests when it has
    paused R times. *)
Theorem processBatch_retries_failed_rows_only (batchStart batchEnd : nat)
    (columnInfo : column_info) (modelName prompt : string)
    (plugins webSearchOptions : option value) (maxRetries : nat)
    (s : state) :
  batchEnd <= length (rows s) ->
  (exists o s' evs done left,
     processBatch batchStart batchEnd columnInfo modelName prompt plugins
       webSearchOptions maxRetries s = (o, s')
     /\ trace s' = trace s ++ evs
     /\ batch_trace
          (fun i => task_request modelName prompt plugins webSearchOptions
                      (rows s !! i)) maxRetries 0
          (seq batchStart (batchEnd - batchStart)) evs done left
     /\ done ++ left ≡ₚ seq batchStart (batchEnd - batchStart)
     /\ length (posts evs)
        = (batchEnd - batchStart) + sum_list (map length (retried evs))
     /\ forall res,
          o = Returned res ->
          map rowIndex res = done
          /\ length res = batchEnd - batchStart
          /\ forall failedRows,
               retried evs = [failedRows] ->
               length (posts evs) = (batchEnd - batchStart) + length failedRows)
  /\ (forall fuel l acc rc s0 results s1,
        rc < maxRetries ->
        run_round columnInfo modelName prompt plugins webSearchOptions l s0
        = (Returned results, s1) ->
        rejected results <> [] ->
        processBatch_loop (S fuel) columnInfo modelName prompt plugins
          webSearchOptions maxRetries l acc rc s0
        = processBatch_loop fuel columnInfo modelName prompt plugins
            webSearchOptions maxRetries (map settled_index (rejected results))
            (acc ++ fulfilled_results results) (S rc)
            (with_events s1
               (retry_report (map settled_index (rejected results)) (S rc)
                  maxRetries (summarize (rejected results)) (rejected results)
                ++ [Sleep (2 ^ S rc * 1000)]))
        /\ map settled_index results = l
        /\ forall res i,
             NoDup l -> Fulfilled res i ∈ results ->
             i ∉ map settled_index (rejected results))
  /\ (forall columnName,
        exists evs,
          trace (Previous.processBatch batchStart batchEnd columnName
                   modelName prompt maxRetries s).2 = trace s ++ evs
          /\ length (posts evs)
             = (length (sleeps evs) + 1) * (batchEnd - batchStart)).
Proof.
  intros Hrange. split; [|split].
  - destruct (processBatch_rounds batchStart batchEnd columnInfo modelName
                prompt plugins webSearchOptions maxRetries s Hrange)
      as (o & s' & evs & done & left & Hrun & Ht & Htrace & _ & _ & _ & _ & Ho).
    exists o, s', evs, done, left.
    pose proof (batch_trace_done _ _ _ _ _ _ _ (NoDup_seq _ _) Htrace) as Hperm.
    pose proof (batch_trace_posts _ _ _ _ _ _ _ Htrace) as Hposts.
    rewrite length_seq in Hposts.
    split; [exact Hrun|]. split; [exact Ht|]. split; [exact Htrace|].
    split; [exact Hperm|]. split; [exact Hposts|].
    intros res ->. destruct Ho as [-> Hdone]. split; [exact Hdone|].
    split.
    { rewrite <- (length_map rowIndex), Hdone.
      rewrite app_nil_r in Hperm. by rewrite Hperm, length_seq. }
    intros failedRows E. rewrite Hposts, E. simpl. unfold id. lia.
  - intros fuel l acc rc s0 results s1 Hrc Hround Hne.
    split; [by apply processBatch_loop_retry|].
    destruct (runs_inv _ _ _ _ _
                (run_round_runs columnInfo modelName prompt plugins
                   webSearchOptions l s0) Hround)
      as (evs0 & _ & results' & [= <-] & Hidx & _).
    split; [exact Hidx|].
    intros res i Hnd Hin. apply (fulfilled_not_rejected results res i);
      [by rewrite Hidx|exact Hin].
  - intros columnName.
    destruct (Previous_processBatch_runs batchStart batchEnd columnName
                modelName prompt maxRetries s)
      as (o & s' & evs & Hrun & Ht & _ & _ & R & Hs & HR & Hposts & Ho).
    exists evs. rewrite Hrun. split; [done|].
    rewrite Hs, length_map, length_seq. auto.
Qed.

End RetriedRows.

Section FatalError.
Context {platform : Platform}.

(** C2, as the code has it.

    A batch inside the row set always ends, and its events are those of
    its rounds ([batch_trace]); [left] are the rows that no round
    fulfilled: they are rows of the batch, no result was assigned to them,
    and every other row of the batch holds its result.  The batch returns
    exactly when no row is left, with the outcomes of all its rows.  It
    throws exactly when rows are left, and then it has paused [maxRetries]
    times; the error thrown is [Error] with the message made of the number
    of rows left and the ceiling, and nothing else; the last events before
    the throw are the final report, printed with console.error, which
    holds the numbers of all the rows left and, for every distinct error
    signature among their rejections, one entry with the signature and one
    with the rows it affected, no signature twice and every row left under
    one signature.

    Every round.  Whenever a round of the loop rejects rows while retries
    remain, the loop goes on to a round over the rejected rows, one retry
    more being counted; whenever a round rejects rows when the retries are
    used up, the loop throws at once: the rows reported and counted are
    exactly the rows that round rejected, and the summary is that of their
    rejections.  So rows that fail in every round make the batch throw.

    The error is caught nowhere below [main]: it leaves the loop of
    [processColumn], it leaves [process_columns] with the columns that
    remain unprocessed, and [main] ends the run with exit status 1 after
    printing the message. *)
Theorem processBatch_gives_up (batchStart batchEnd : nat)
    (columnInfo : column_info) (modelName prompt : string)
    (plugins webSearchOptions : option value) (maxRetries : nat) (s : state) :
  (batchEnd <= length (rows s) ->
   exists o s' evs done left,
     processBatch batchStart batchEnd columnInfo modelName prompt plugins
       webSearchOptions maxRetries s = (o, s')
     /\ trace s' = trace s ++ evs
     /\ batch_trace
          (fun i => task_request modelName prompt plugins webSearchOptions
                      (rows s !! i)) maxRetries 0
          (seq batchStart (batchEnd - batchStart)) evs done left
     /\ (forall i, i ∈ left ->
                   batchStart <= i < batchEnd /\ rows s' !! i = rows s !! i)
     /\ (forall i r,
           batchStart <= i < batchEnd -> i ∉ left -> rows s !! i = Some r ->
           exists body,
             rows s' !! i
             = Some (row_after columnInfo (read_completion body) r))
     /\ match o with
        | Returned res =>
            left = []
            /\ map rowIndex res ≡ₚ seq batchStart (batchEnd - batchStart)
        | Thrown e =>
            left <> []
            /\ length (sleeps evs) = maxRetries
            /\ e = Error (pretty (length left) +:+ " row(s) failed after "
                          +:+ pretty maxRetries +:+ " retries")
            /\ exists failed before,
                 map settled_index failed = left
                 /\ Forall (fun f => is_rejected f = true) failed
                 /\ evs = before
                          ++ final_report left maxRetries (summarize failed)
                 /\ ConsoleError (FailedRows (row_numbers left)) ∈ evs
                 /\ NoDup (map fst (summarize failed))
                 /\ summary_rows (summarize failed) ≡ₚ row_numbers left
                 /\ (forall key ns,
                       (key, ns) ∈ summarize failed <->
                       ns <> [] /\ ns = rows_with_key key failed)
                 /\ (forall key,
                       rows_with_key key failed <> [] ->
                       ConsoleError (SummaryError key) ∈ evs
                       /\ ConsoleError (AffectedRows (rows_with_key key failed))
                          ∈ evs)
        | OutOfFuel => False
        end)
  /\ (forall fuel l acc rc s0 results s1,
        run_round columnInfo modelName prompt plugins webSearchOptions l s0
        = (Returned results, s1) ->
        rejected results <> [] ->
        (rc < maxRetries ->
         processBatch_loop (S fuel) columnInfo modelName prompt plugins
           webSearchOptions maxRetries l acc rc s0
         = processBatch_loop fuel columnInfo modelName prompt plugins
             webSearchOptions maxRetries (map settled_index (rejected results))
             (acc ++ fulfilled_results results) (S rc)
             (with_events s1
                (retry_report (map settled_index (rejected results)) (S rc)
                   maxRetries (summarize (rejected results)) (rejected results)
                 ++ [Sleep (2 ^ S rc * 1000)])))
        /\ (rc = maxRetries ->
            processBatch_loop (S fuel) columnInfo modelName prompt plugins
              webSearchOptions maxRetries l acc rc s0
            = (Thrown (Error (failed_message (length (rejected results))
                                maxRetries)),
               with_events s1
                 (final_report (map settled_index (rejected results))
                    maxRetries (summarize (rejected results))))))
  /\ (forall fuel st progressFilePath totalRows t e s',
        batchStart < totalRows ->
        batchEnd = Nat.min (batchStart + cfg_batchSize st) totalRows ->
        processBatch batchStart batchEnd columnInfo (cfg_modelName st)
          (cfg_prompt st) plugins webSearchOptions default_maxRetries s
        = (Thrown e, s') ->
        processColumn_loop (S fuel) columnInfo st plugins webSearchOptions
          progressFilePath totalRows batchStart t s = (Thrown e, s'))
  /\ (forall c rest progressFilePath grand e s',
        processColumn c progressFilePath s = (Thrown e, s') ->
        process_columns (c :: rest) progressFilePath grand s = (Thrown e, s'))
  /\ (forall cfg e s',
        main_body cfg s = (Thrown e, s') ->
        main cfg s
        = (Returned (Exited 1),
           with_events s' [ConsoleError (FatalError (error_message e))])).
Proof.
  split; [|split; [|split; [|split]]].
  - intros Hrange.
    destruct (processBatch_rounds batchStart batchEnd columnInfo modelName
                prompt plugins webSearchOptions maxRetries s Hrange)
      as (o & s' & evs & done & left & Hrun & Ht & Htrace & _ & _ & Hleft
          & Hgot & Ho).
    exists o, s', evs, done, left.
    pose proof (batch_trace_left _ _ _ _ _ _ _ Htrace) as Hsub.
    pose proof (batch_trace_done _ _ _ _ _ _ _ (NoDup_seq _ _) Htrace) as Hperm.
    split; [exact Hrun|]. split; [exact Ht|]. split; [exact Htrace|].
    split.
    { intros i Hi. split; [|by apply Hleft].
      apply (sublist_elem_of_nat _ _ _ Hsub) in Hi.
      apply elem_of_seq in Hi. lia. }
    split; [exact Hgot|].
    destruct o as [res|e|]; [| |done].
    + destruct Ho as [-> Hdone]. split; [done|].
      rewrite app_nil_r in Hperm. by rewrite Hdone.
    + destruct Ho as [Hne ->]. split; [exact Hne|].
      destruct (batch_trace_sleeps _ _ _ _ _ _ _ (Nat.le_0_l _) Htrace)
        as (R & Hs & _ & _ & HR).
      split. { rewrite Hs, length_map, length_seq. by apply HR. }
      split; [done|].
      destruct (batch_trace_report _ _ _ _ _ _ _ Htrace Hne)
        as (before & failed & -> & Hidx & Hall).
      exists failed, before.
      destruct (final_report_names left maxRetries (summarize failed))
        as [Hrows Hkeys].
      destruct (summarize_spec failed) as [Hnd Hsum].
      split; [exact Hidx|]. split; [exact Hall|]. split; [done|].
      split; [apply elem_of_app; by right|]. split; [exact Hnd|].
      split.
      { rewrite <- Hidx. unfold summarize.
        by rewrite (summarize_from_rows failed [] Hall). }
      split; [exact Hsum|]. intros key Hkey.
      destruct (Hkeys key (rows_with_key key failed)) as [H1 H2].
      { by apply Hsum. }
      split; apply elem_of_app; by right.
  - intros fuel l acc rc s0 results s1 Hround Hne. split.
    + intros Hrc. by apply processBatch_loop_retry.
    + intros ->. by apply processBatch_loop_give_up.
  - intros fuel st path totalRows t e s' Hlt -> Hthrow.
    rewrite processColumn_loop_step.
    assert ((batchStart <? totalRows)%nat = true) as -> by (by apply Nat.ltb_lt).
    by rewrite bind_run, Hthrow.
  - intros c rest path grand e s' Hthrow. cbn [process_columns].
    by rewrite bind_run, Hthrow.
  - intros cfg e s'. apply main_catches.
Qed.

End FatalError.

Section Backoff.
Context {platform : Platform}.

(** C4.  Whatever a batch meets, the pauses of [processBatch] are, in
    order, of 2^1, 2^2, ..., 2^R seconds (in milliseconds: [2 ^ r * 1000])
    for some R not above [maxRetries], as many as there are retry
    announcements: each pause is twice the one before, the first is of two
    seconds.

    The pauses are where the retries are.  The events of a batch inside
    the row set are those of its rounds ([batch_trace]): the requests of
    the first round; then, for each retry r = 1, 2, ..., the report that
    announces the rows to retry, which sends nothing, exactly one pause, of
    2^r seconds, and the requests of retry round r, one for each announced
    row.  No round holds a pause, so the rows of a round do not wait one by
    one: the one pause is made for the whole batch.

    Every round.  Whenever a round of the loop rejects rows at retry count
    r - 1, retries remaining, the loop prints the report, pauses once for
    2^r seconds and only then starts round r on the rejected rows. *)
Theorem processBatch_backoff (batchStart batchEnd : nat)
    (columnInfo : column_info) (modelName prompt : string)
    (plugins webSearchOptions : option value) (maxRetries : nat) (s : state) :
  (exists evs R,
     trace (processBatch batchStart batchEnd columnInfo modelName prompt
              plugins webSearchOptions maxRetries s).2 = trace s ++ evs
     /\ R <= maxRetries
     /\ sleeps evs = map (fun r => 2 ^ r * 1000) (seq 1 R)
     /\ length (retried evs) = R
     /\ forall k a b,
          sleeps evs !! k = Some a -> sleeps evs !! S k = Some b -> b = 2 * a)
  /\ (batchEnd <= length (rows s) ->
      exists evs done left,
        trace (processBatch batchStart batchEnd columnInfo modelName prompt
                 plugins webSearchOptions maxRetries s).2 = trace s ++ evs
        /\ batch_trace
             (fun i => task_request modelName prompt plugins webSearchOptions
                         (rows s !! i)) maxRetries 0
             (seq batchStart (batchEnd - batchStart)) evs done left)
  /\ (forall fuel l acc r s0 results s1,
        1 <= r <= maxRetries ->
        run_round columnInfo modelName prompt plugins webSearchOptions l s0
        = (Returned results, s1) ->
        rejected results <> [] ->
        processBatch_loop (S fuel) columnInfo modelName prompt plugins
          webSearchOptions maxRetries l acc (r - 1) s0
        = processBatch_loop fuel columnInfo modelName prompt plugins
            webSearchOptions maxRetries (map settled_index (rejected results))
            (acc ++ fulfilled_results results) r
            (with_events s1
               (retry_report (map settled_index (rejected results)) r
                  maxRetries (summarize (rejected results)) (rejected results)
                ++ [Sleep (2 ^ r * 1000)]))
        /\ sleeps (retry_report (map settled_index (rejected results)) r
                     maxRetries (summarize (rejected results))
                     (rejected results)) = []
        /\ posts (retry_report (map settled_index (rejected results)) r
                    maxRetries (summarize (rejected results))
                    (rejected results)) = []).
Proof.
  split; [|split].
  - destruct (processBatch_runs batchStart batchEnd columnInfo modelName prompt
                plugins webSearchOptions maxRetries s)
      as (o & s' & evs & Hrun & Htrace & _ & _ & R & Hs & Hr & HR & _).
    exists evs, R. rewrite Hrun. split; [done|]. split; [lia|].
    split; [done|]. split; [done|].
    intros k a b. rewrite Hs, !list_lookup_fmap.
    intros Ha Hb.
    destruct (seq 1 R !! k) as [x|] eqn:Hx; [|done].
    destruct (seq 1 R !! S k) as [y|] eqn:Hy; [|done].
    apply lookup_seq in Hx as [-> _]. apply lookup_seq in Hy as [-> _].
    injection Ha as <-. injection Hb as <-.
    unfold backoff. replace (1 + S k) with (S (1 + k)) by lia.
    rewrite Nat.pow_succ_r'. lia.
  - intros Hrange.
    destruct (processBatch_rounds batchStart batchEnd columnInfo modelName
                prompt plugins webSearchOptions maxRetries s Hrange)
      as (o & s' & evs & done & left & Hrun & Ht & Htrace & _).
    exists evs, done, left. by rewrite Hrun.
  - intros fuel l acc r s0 results s1 Hr Hround Hne.
    destruct r as [|rc]; [lia|]. replace (S rc - 1) with rc by lia.
    split; [apply processBatch_loop_retry; [lia|done|done]|].
    destruct (retry_report_silent (map settled_index (rejected results)) (S rc)
                maxRetries (summarize (rejected results)) (rejected results))
      as (Hp & Hs & _). by split.
Qed.

End Backoff.

Section CheckpointPath.
Context {platform : Platform}.

(** C9.  [progress_path] replaces a final .csv, in any mix of upper and
    lower case, by .progress, and returns every other name unchanged.

    [main] hands that path to the Column Driver: with a valid
    configuration and rows to process, [main_body] is the loop over the
    columns run with [progress_path (outputFileName cfg)], then the write of
    the output file; and the loop hands the path it was given to
    [processColumn], column by column.  The checkpoints of a column are
    written to the path it was given and to no other.

    So the writes of a run are its checkpoints, every one of them to
    [progress_path (outputFileName cfg)] and of the whole row set, followed
    by at most one write, to the output file; a run that completes has made
    that last write, and one checkpoint for each batch of each column.
    When the output file name does not end in .csv the progress path is
    the output file, and every write of the run goes to the output file
    itself. *)
Theorem progress_path_replaces_csv_suffix (cfg : config) (s : state) :
  (forall base ext,
     csv_suffix ext -> progress_path (base +:+ ext) = base +:+ ".progress")
  /\ (forall out,
        (forall base ext, out = base +:+ ext -> ~ csv_suffix ext) ->
        progress_path out = out)
  /\ (forall cs,
        nonempty (inputFileName cfg) = true ->
        nonempty (outputFileName cfg) = true ->
        validate_columns (columns cfg) = Some cs ->
        rows s <> [] ->
        main_body cfg s
        = (grand ← process_columns cs (progress_path (outputFileName cfg))
                     no_stats;
           allHeaders ← first_row_keys;
           all ← get_rows;
           writeCSV (outputFileName cfg) all allHeaders;;
           mret (Completed grand)) s)
  /\ (forall c rest path grand s0,
        process_columns (c :: rest) path grand s0
        = (columnStats ← processColumn c path;
           process_columns rest path (add_stats grand columnStats)) s0)
  /\ (forall c path,
        exists evs,
          trace (processColumn c path s).2 = trace s ++ evs
          /\ Forall (fun w => w.1.1 = path) (writes evs))
  /\ exists evs checkpoints final,
       trace (main cfg s).2 = trace s ++ evs
       /\ writes evs = checkpoints ++ final
       /\ Forall (fun w => w.1.1 = progress_path (outputFileName cfg)
                           /\ length w.1.2 = length (rows s)) checkpoints
       /\ (final = []
           \/ exists records headers,
                final = [(outputFileName cfg, records, headers)])
       /\ (forall grand,
             (main cfg s).1 = Returned (Completed grand) ->
             final <> []
             /\ exists cs,
                  validate_columns (columns cfg) = Some cs
                  /\ length checkpoints = batches_of (length (rows s)) cs)
       /\ ((forall base ext,
              outputFileName cfg = base +:+ ext -> ~ csv_suffix ext) ->
           Forall (fun w => w.1.1 = outputFileName cfg) (writes evs)).
Proof.
  split; [apply progress_path_csv|]. split; [apply progress_path_other|].
  split; [intros cs; apply main_body_processing|].
  split; [reflexivity|].
  split.
  - intros c path.
    destruct (processColumn_runs c path s)
      as (o & s' & evs & Hrun & Ht & _ & Hall & _).
    exists evs. rewrite Hrun. split; [done|].
    eapply Forall_impl; [exact Hall|]. by intros w [Hw _].
  - destruct (main_writes cfg s)
      as (o & s' & evs & Hrun & Ht & checkpoints & final & Hw & Hall & Hfinal
          & Hdone).
    exists evs, checkpoints, final. rewrite Hrun. cbn [fst snd].
    split; [done|]. split; [done|]. split; [exact Hall|].
    split; [done|]. split; [exact Hdone|].
    intros Hno. rewrite Hw. apply Forall_app. split.
    + eapply Forall_impl; [exact Hall|]. intros w [Hpath _].
      by rewrite Hpath, progress_path_other.
    + destruct Hfinal as [->|(records & headers & ->)]; [constructor|].
      by repeat constructor.
Qed.

End CheckpointPath.

Section OrdinaryNames.
Context {platform : Platform}.



(** C8.  When the decoded object has a declared key, other than
    [__proto__], whose value is the empty string, 0, false or null, the
    column receives the sentinel __undetectable__, not the decoded value:
    the source tests the value for truthiness, not the object for the key.
    (An assignment to [__proto__] creates no field.) *)
Theorem distribute_group_falsy (s : state) (row rowIndex : nat)
    (columns : list string) (apiResult : api_result) (r : Row)
    (props : list (string * value)) (colName : string) (v : value) :
  rows s !! row = Some r ->
  JSON_parse (unfence (result apiResult)) = Parsed (VObj props) ->
  colName ∈ columns ->
  colName <> "__proto__" ->
  row_get props colName = Some v ->
  v = VStr "" \/ v = VNum 0%float \/ v = VBool false \/ v = VNull ->
  exists s' r',
    distribute_group row rowIndex columns apiResult s = (Returned tt, s')
    /\ rows s' !! row = Some r'
    /\ row_get r' colName = Some undetectable.
Proof.
  intros Hr Hp Hin _ Hv Hfalsy.
  destruct (distribute_group_present row rowIndex columns apiResult s r Hr)
    as (evs & Hrun & _).
  eexists _, (distributed columns apiResult r). split; [exact Hrun|].
  split; [apply with_row_lookup; simpl; by eapply lookup_lt_Some|].
  rewrite (distributed_object _ _ _ props) by done. rewrite Hv.
  by destruct Hfalsy as [->|[->|[->| ->]]].
Qed.

(** X6.  A response that decodes to null gives every declared column the
    sentinel __undetectable__, no declared column being [__proto__], and
    leaves the other fields of the row alone: the read of the first column
    throws, and the catch block prints its two lines, the first with the
    message of that error. *)
Theorem distribute_group_null (row rowIndex : nat) (c0 : string)
    (columns : list string) (apiResult : api_result) (s : state) (r : Row) :
  rows s !! row = Some r ->
  JSON_parse (unfence (result apiResult)) = Parsed VNull ->
  "__proto__" ∉ c0 :: columns ->
  exists s' r',
    distribute_group row rowIndex (c0 :: columns) apiResult s = (Returned tt, s')
    /\ rows s' !! row = Some r'
    /\ (forall c, c ∈ c0 :: columns -> row_get r' c = Some undetectable)
    /\ (forall k, k ∉ c0 :: columns -> row_get r' k = row_get r k)
    /\ trace s'
       = trace s
         ++ [ConsoleError
               (RowParseFailed (rowIndex + 1)
                  (error_message (cannot_read "null" c0)));
             ConsoleError (ResponseShown (substring0 200 (result apiResult)))].
Proof.
  intros Hr Hp _.
  rewrite (distribute_group_exact _ _ _ _ _ r) by done.
  eexists _, _. split; [done|].
  split; [apply with_row_lookup; simpl; by eapply lookup_lt_Some|].
  unfold distributed, distribute_report. rewrite Hp. cbn [nullish Get].
  split; [|split; [|done]].
  - intros c Hc. by rewrite row_get_set_columns.
  - intros k Hk. by rewrite row_get_set_columns_other.
Qed.

(** X9.  Let no target column be [__proto__] or have a name made of
    digits.  However a batch ends, the row set has as many rows as before;
    a row outside the batch is unchanged; a row of the batch has its fields
    other than the target columns unchanged, its keys in their places, and
    after them only keys that are target columns. *)
Theorem processBatch_keeps_other_rows (batchStart batchEnd : nat)
    (columnInfo : column_info) (modelName prompt : string)
    (plugins webSearchOptions : option value) (maxRetries : nat) (s : state) :
  "__proto__" ∉ target_columns columnInfo ->
  Forall (fun k => numeric_name k = false) (target_columns columnInfo) ->
  rows_kept (fun i => batchStart <= i < batchEnd) (target_columns columnInfo)
    (rows s)
    (rows (processBatch batchStart batchEnd columnInfo modelName prompt plugins
             webSearchOptions maxRetries s).2).
Proof.
  intros _ _.
  destruct (processBatch _ _ _ _ _ _ _ _ s) as [o s'] eqn:Hrun.
  by eapply processBatch_rows_kept.
Qed.

(** X12.  Let no target of the column be the name of a property that every
    object inherits (see [Object_prototype_names]).  [processColumn] keeps
    the number of rows, and when it returns every row holds what the column
    asks for: a string under the name of a single column; a truthy value
    under every name of a group. *)
Theorem processColumn_fills_every_row (c : columnConfig) (path : string)
    (s : state) :
  Forall (fun k => inherited_name k = false)
    (target_columns (columnInfo_of c)) ->
  length (rows (processColumn c path s).2) = length (rows s)
  /\ match (processColumn c path s).1 with
     | Returned _ =>
         forall j r',
           rows (processColumn c path s).2 !! j = Some r' ->
           filled (columnInfo_of c) r'
     | Thrown _ => True
     | OutOfFuel => True
     end.
Proof.
  intros _.
  destruct (processColumn c path s) as [o s'] eqn:Hrun. cbn [fst snd].
  split; [by destruct (processColumn_rows_kept _ _ _ _ _ Hrun)|].
  destruct o as [stats|e|]; [|done..].
  intros j r' Hr'. by eapply processColumn_fills.
Qed.

(** X13.  Let no target of the configuration be [__proto__] or have a
    name made of digits.  However a run ends, the row set has as many rows
    as the input; in every row the fields that no entry of the
    configuration names as a target have their input values, the input keys
    are in their places, and the keys after them are targets of the
    configuration. *)
Theorem main_keeps_input_fields (cfg : config) (s : state) :
  "__proto__" ∉ config_targets (columns cfg) ->
  Forall (fun k => numeric_name k = false) (config_targets (columns cfg)) ->
  rows_kept (fun _ => True) (config_targets (columns cfg))
    (rows s) (rows (main cfg s).2).
Proof.
  intros _ _.
  destruct (main cfg s) as [o s'] eqn:Hrun. by eapply main_rows_kept.
Qed.

(** X14.  Let no target of the configuration be [__proto__] or have a
    name made of digits.  A run that completes ends with the write of the
    output file: all the rows, under the keys of the first row, which are
    the keys of the first input row followed by added target columns.
    Every row then has every target column of the configuration. *)
Theorem main_completed_writes_output (cfg : config) (s s' : state)
    (grand : column_stats) :
  "__proto__" ∉ config_targets (columns cfg) ->
  Forall (fun k => numeric_name k = false) (config_targets (columns cfg)) ->
  main cfg s = (Returned (Completed grand), s') ->
  exists evs r0 r0' added,
    trace s'
    = trace s ++ evs
      ++ [WriteCSV (outputFileName cfg) (rows s') (Object_keys r0')]
    /\ rows s !! 0 = Some r0 /\ rows s' !! 0 = Some r0'
    /\ Object_keys r0' = Object_keys r0 ++ added
    /\ Forall (fun k => k ∈ config_targets (columns cfg)) added
    /\ forall j r',
         rows s' !! j = Some r' -> has_fields (config_targets (columns cfg)) r'.
Proof.
  intros _ _ Hmain.
  destruct (main_completed _ _ _ _ Hmain)
    as (cs & s1 & r0' & Hcs & Hcols & Hr0' & -> & Hw).
  pose proof (main_rows_kept _ _ _ _ Hmain) as [Hlen Hkept]. cbn [rows] in *.
  destruct (runs_inv _ _ _ _ _ (process_columns_runs cs _ no_stats s) Hcols)
    as (evs & Ht & _).
  destruct (rows s !! 0) as [r0|] eqn:Hr0.
  2:{ apply lookup_ge_None in Hr0. apply lookup_lt_Some in Hr0'. lia. }
  destruct (Hkept 0 r0 r0' Hr0 Hr0') as [_ [_ (added & Hkeys & Hadded)]].
  exists evs, r0, r0', added. cbn [trace rows].
  split; [by rewrite Ht, <- app_assoc|]. split; [done|]. split; [done|].
  split; [done|]. split; [done|].
  intros j r' Hr'. rewrite <- (validate_columns_targets _ _ Hcs).
  by eapply process_columns_fills.
Qed.

(** X20.  Take a batch inside the row set that gives up, no target column
    being the name of a property that every object inherits.  Its events
    are those of its rounds and end with the final report of the rows
    left: rows of the batch that no round fulfilled, to which no result was
    assigned, reported with the summary of their rejections.  Every other
    row of the batch holds its result: what succeeded before the failure
    stays in the row set. *)
Theorem processBatch_keeps_partial_results (batchStart batchEnd : nat)
    (columnInfo : column_info) (modelName prompt : string)
    (plugins webSearchOptions : option value) (maxRetries : nat)
    (s s' : state) (e : js_error) :
  batchEnd <= length (rows s) ->
  Forall (fun k => inherited_name k = false) (target_columns columnInfo) ->
  processBatch batchStart batchEnd columnInfo modelName prompt plugins
    webSearchOptions maxRetries s = (Thrown e, s') ->
  exists evs done left failed before,
    trace s' = trace s ++ evs
    /\ batch_trace
         (fun i => task_request modelName prompt plugins webSearchOptions
                     (rows s !! i)) maxRetries 0
         (seq batchStart (batchEnd - batchStart)) evs done left
    /\ evs = before ++ final_report left maxRetries (summarize failed)
    /\ map settled_index failed = left
    /\ Forall (fun f => is_rejected f = true) failed
    /\ left <> []
    /\ (forall i, i ∈ left ->
                  batchStart <= i < batchEnd /\ rows s' !! i = rows s !! i)
    /\ forall i r',
         batchStart <= i < batchEnd -> i ∉ left ->
         rows s' !! i = Some r' -> filled columnInfo r'.
Proof.
  intros Hrange _ Hrun.
  destruct (processBatch_rounds batchStart batchEnd columnInfo modelName
              prompt plugins webSearchOptions maxRetries s Hrange)
    as (o & s1 & evs & done & left & Hrun' & Ht & Htrace & Hlen & _ & Hleft
        & Hgot & Ho).
  rewrite Hrun in Hrun'. injection Hrun' as <- <-.
  destruct Ho as [Hne _].
  destruct (batch_trace_report _ _ _ _ _ _ _ Htrace Hne)
    as (before & failed & Hevs & Hidx & Hall).
  pose proof (batch_trace_left _ _ _ _ _ _ _ Htrace) as Hsub.
  exists evs, done, left, failed, before.
  split; [exact Ht|]. split; [exact Htrace|]. split; [exact Hevs|].
  split; [exact Hidx|]. split; [exact Hall|]. split; [exact Hne|].
  split.
  { intros i Hi. split; [|by apply Hleft].
    apply (sublist_elem_of_nat _ _ _ Hsub) in Hi.
    apply elem_of_seq in Hi. lia. }
  intros i r' Hi Hnot Hr'.
  destruct (rows s !! i) as [r|] eqn:Hr.
  - destruct (Hgot i r Hi Hnot Hr) as [body Hbody].
    rewrite Hbody in Hr'. injection Hr' as <-. apply row_after_filled.
  - apply lookup_ge_None in Hr. apply lookup_lt_Some in Hr'. lia.
Qed.

End OrdinaryNames.

(** * The scenarios, checked *)

Section ScenarioChecks.
#[local] Existing Instance demo.



Lemma main_aborts_on_fatal_failure_witness :
  main three_columns second_column_fails
  = (Returned (Exited 1),
     {| rows := rows second_column_failed;
        world := world second_column_failed;
        trace := trace second_column_failed
                 ++ [ConsoleError
                       (FatalError "1 row(s) failed after 10 retries")] |})
  /\ rows second_column_failed = [[("Video", VStr "a"); ("A", VStr "x")]]
  /\ length (posts (trace second_column_failed)) = 12
  /\ map (fun w => w.1.1) (writes (trace second_column_failed))
     = ["out.progress"].
Proof.
  assert (nonempty (inputFileName three_columns) = true) as Hin by reflexivity.
  assert (nonempty (outputFileName three_columns) = true) as Hout by reflexivity.
  assert (validate_columns (columns three_columns)
          = Some ([Column "A" (summary_settings 10)]
                  ++ Column "B" (summary_settings 10)
                     :: [Column "C" (summary_settings 10)])) as Hcols
    by reflexivity.
  assert (rows second_column_fails <> []) as Hrows by discriminate.
  assert (process_columns [Column "A" (summary_settings 10)]
            (progress_path (outputFileName three_columns)) no_stats
            second_column_fails
          = (Returned (returned no_stats after_first_column),
             after_first_column.2)) as Hbefore
    by (vm_compute; reflexivity).
  assert (processColumn (Column "B" (summary_settings 10))
            (progress_path (outputFileName three_columns)) after_first_column.2
          = (Thrown (Error "1 row(s) failed after 10 retries"),
             second_column_failed)) as Hthrow.
  { assert ((processColumn (Column "B" (summary_settings 10)) "out.progress"
               after_first_column.2).1
            = Thrown (Error "1 row(s) failed after 10 retries")) as Hfailed
      by (vm_compute; reflexivity).
    rewrite <- Hfailed. exact (surjective_pairing _). }
  split.
  - exact (proj1 (main_aborts_on_fatal_failure three_columns
                    [Column "A" (summary_settings 10)]
                    [Column "C" (summary_settings 10)]
                    (Column "B" (summary_settings 10)) second_column_fails
                    after_first_column.2 _ _ _ Hin Hout Hcols Hrows Hbefore
                    Hthrow)).
  - split; [vm_compute; reflexivity|]. split; vm_compute; reflexivity.
Defined.

Lemma processBatch_agrees_with_previous_witness :
  processBatch 0 3 (SingleColumn "S") "m" "P {{Video}}" None None 10
    all_answered
  = (Returned (fulfilled_results (returned [] only_round)), only_round.2)
  /\ Previous.processBatch 0 3 "S" "m" "P {{Video}}" 10 all_answered
     = (Returned (Some (fulfilled_results (returned [] only_round))),
        only_round.2)
  /\ map (fun r => row_get r "S") (rows only_round.2)
     = [Some (VStr "a"); Some (VStr "b"); Some (VStr "c")].
Proof.
  assert (only_round = (Returned (returned [] only_round), only_round.2))
    as Hround by (vm_compute; reflexivity).
  assert (rejected (returned [] only_round) = []) as Hnone
    by (vm_compute; reflexivity).
  destruct (processBatch_agrees_with_previous 0 3 "S" "m" "P {{Video}}" 10
              all_answered only_round.2 (returned [] only_round) Hround Hnone)
    as (Hnew & Hold & _).
  split; [exact Hnew|]. split; [exact Hold|]. vm_compute. reflexivity.
Defined.

(** The error the controller raises is the same whichever rows failed: the
    row numbers are in the console report only. *)
Lemma processBatch_thrown_error_counterexample :
  (processBatch 0 2 (SingleColumn "S") "m" "P {{Video}}" None None
     default_maxRetries always_refused).1
  = Thrown (Error "2 row(s) failed after 10 retries")
  /\ (processBatch 1 3 (SingleColumn "S") "m" "P {{Video}}" None None
        default_maxRetries always_refused).1
     = Thrown (Error "2 row(s) failed after 10 retries")
  /\ reported_rows
       (trace (processBatch 0 2 (SingleColumn "S") "m" "P {{Video}}" None None
                 default_maxRetries always_refused).2) = [[1; 2]]
  /\ reported_rows
       (trace (processBatch 1 3 (SingleColumn "S") "m" "P {{Video}}" None None
                 default_maxRetries always_refused).2) = [[2; 3]].
Proof. repeat split; vm_compute; reflexivity. Qed.

Lemma fillPromptTemplate_without_placeholder_witness :
  fillPromptTemplate "Summarize this" None = inr "Summarize this".
Proof.
  apply fillPromptTemplate_without_placeholder.
  apply no_brace_no_placeholder.
  intros H%list_elem_of_In. vm_compute in H. intuition discriminate.
Defined.

Lemma fillPromptTemplate_malformed_name_witness :
  fillPromptTemplate "{{ Video}}" (Some [("Video", VStr "cats")])
  = inr "{{ Video}}".
Proof.
  apply (fillPromptTemplate_malformed_name " Video").
  - intros H%list_elem_of_In. vm_compute in H. intuition discriminate.
  - intros H%list_elem_of_In. vm_compute in H. intuition discriminate.
  - intros (c & t & E & Hc)%placeholder_name_head.
    injection E as <- _. discriminate.
Defined.

Lemma processRow_missing_row_witness :
  processRow 5 5 (SingleColumn "S") "m" "P {{Video}}" None None
    (demo_state one_row [] [])
  = (Thrown (cannot_read "undefined" "Video"), demo_state one_row [] []).
Proof.
  assert (rows (demo_state one_row [] []) !! 5 = None) as Hr by reflexivity.
  apply (proj1 (processRow_missing_row 5 5 "S" "m" "P {{Video}}" None None
                  (demo_state one_row [] []) Hr) "P " "Video" "").
  - apply no_brace_no_placeholder.
    intros H%list_elem_of_In. vm_compute in H. intuition discriminate.
  - apply name_word; [discriminate|].
    repeat (apply Forall_cons_2; [reflexivity|]). apply Forall_nil_2.
  - reflexivity.
Defined.

Lemma processRow_one_request_witness :
  exists filledPrompt,
    fillPromptTemplate "P {{Video}}" (Some [("Video", VStr "a")])
    = inr filledPrompt
    /\ processRow 0 0 (SingleColumn "S") "m" "P {{Video}}" None None
         (demo_state one_row [answer " x "] [])
       = match axios_post (row_request "m" filledPrompt None None)
                 (world (demo_state one_row [answer " x "] [])) with
         | (HttpOk body, w) =>
             (Returned (outcome_of (read_completion body) 0),
              {| rows := <[0 := row_after (SingleColumn "S")
                                  (read_completion body) [("Video", VStr "a")]]>
                           (rows (demo_state one_row [answer " x "] []));
                 world := w;
                 trace := trace (demo_state one_row [answer " x "] [])
                          ++ Post (row_request "m" filledPrompt None None)
                             :: task_report 0 (SingleColumn "S")
                                  (read_completion body) |})
         | (HttpFailed e, w) =>
             (Thrown e,
              {| rows := rows (demo_state one_row [answer " x "] []);
                 world := w;
                 trace := trace (demo_state one_row [answer " x "] [])
                          ++ [Post (row_request "m" filledPrompt None None)] |})
         end.
Proof.
  apply (processRow_one_request 0 0 (SingleColumn "S") "m" "P {{Video}}" None
           None (demo_state one_row [answer " x "] []) [("Video", VStr "a")]).
  reflexivity.
Defined.

Lemma main_rejects_invalid_witness :
  exists s',
    main empty_group second_column_fails = (Returned (Exited 1), s')
    /\ rows s' = rows second_column_fails
    /\ world s' = world second_column_fails
    /\ posts (trace s') = posts (trace second_column_fails)
    /\ writes (trace s') = writes (trace second_column_fails).
Proof.
  apply main_rejects_invalid. right. right. left.
  exists (Group "g" [] (summary_settings 10)). split.
  - apply list_elem_of_further, list_elem_of_here.
  - simpl. tauto.
Defined.

Lemma Previous_processBatch_resends_whole_batch_witness :
  exists evs,
    trace (Previous.processBatch 0 3 "S" "m" "P {{Video}}" 10 one_refusal).2
    = trace one_refusal ++ evs
    /\ length (posts evs) = (length (sleeps evs) + 1) * (3 - 0).
Proof.
  apply Previous_processBatch_resends_whole_batch. vm_compute. lia.
Defined.

Lemma unfence_keeps_other_tags_witness :
  unfence ("```" +:+ "JSON" +:+ newline +:+ doc_A +:+ newline +:+ "```")
  = "JSON" +:+ newline +:+ doc_A.
Proof.
  apply (unfence_keeps_other_tags "JSON" doc_A "J" (chars "SON"));
    reflexivity.
Defined.

Lemma unfence_unterminated_witness :
  unfence ("```" +:+ "json" +:+ newline +:+ doc_A) = doc_A.
Proof.
  eapply (unfence_unterminated "json" doc_A); try reflexivity. by right.
Defined.

Lemma processBatch_retries_failed_rows_only_witness :
  exists res s1 evs,
    @processBatch demo 0 3 (SingleColumn "S") "m" "P {{Video}}" None None 10
      one_refusal = (Returned res, s1)
    /\ length res = 3
    /\ trace s1 = trace one_refusal ++ evs
    /\ retried evs = [[2]]
    /\ length (posts evs) = 3 + 1.
Proof.
  assert (3 <= length (rows one_refusal)) as Hrange by (vm_compute; lia).
  destruct (proj1 (@processBatch_retries_failed_rows_only demo 0 3
                     (SingleColumn "S") "m" "P {{Video}}" None None 10
                     one_refusal Hrange))
    as (o & s' & evs & done & left & Hrun & Ht & _ & _ & _ & Hret).
  assert (exists res,
            (@processBatch demo 0 3 (SingleColumn "S") "m" "P {{Video}}" None
               None 10 one_refusal).1 = Returned res) as [res Hres]
    by (eexists; vm_compute; reflexivity).
  assert (retried
            (trace (@processBatch demo 0 3 (SingleColumn "S") "m" "P {{Video}}"
                      None None 10 one_refusal).2) = [[2]]) as Hretried
    by (vm_compute; reflexivity).
  rewrite Hrun in Hres, Hretried. cbn [fst snd] in Hres, Hretried.
  rewrite Ht in Hretried. change (trace one_refusal) with (@nil event) in Hretried.
  rewrite app_nil_l in Hretried.
  destruct (Hret res Hres) as (_ & Hlen & HK).
  exists res, s', evs. rewrite <- Hres. split; [exact Hrun|].
  split; [exact Hlen|]. split; [exact Ht|]. split; [exact Hretried|].
  exact (HK [2] Hretried).
Defined.

Lemma Previous_processBatch_resends_succeeded_rows_counterexample :
  (exists res,
     (Previous.processBatch 0 3 "S" "m" "P {{Video}}" 10 one_refusal).1
     = Returned (Some res)
     /\ length res = 3)
  /\ sleeps
       (trace (Previous.processBatch 0 3 "S" "m" "P {{Video}}" 10
                 one_refusal).2) = [2000]
  /\ length
       (posts
          (trace (Previous.processBatch 0 3 "S" "m" "P {{Video}}" 10
                    one_refusal).2)) = 6
  /\ 6 <> 3 + 1.
Proof.
  split; [|split; [|split]].
  - eexists. split; [vm_compute; reflexivity|reflexivity].
  - vm_compute; reflexivity.
  - vm_compute; reflexivity.
  - lia.
Qed.

Lemma processBatch_gives_up_witness :
  exists e s' evs left,
    processBatch 0 2 (SingleColumn "S") "m" "P {{Video}}" None None
      default_maxRetries second_row_refused = (Thrown e, s')
    /\ trace s' = trace second_row_refused ++ evs
    /\ left <> []
    /\ length (sleeps evs) = default_maxRetries
    /\ e = Error (pretty (length left) +:+ " row(s) failed after "
                  +:+ pretty default_maxRetries +:+ " retries")
    /\ ConsoleError (FailedRows (row_numbers left)) ∈ evs
    /\ (forall i, i ∈ left ->
                  0 <= i < 2
                  /\ rows s' !! i = rows second_row_refused !! i)
    /\ (forall i r,
          0 <= i < 2 -> i ∉ left -> rows second_row_refused !! i = Some r ->
          exists body,
            rows s' !! i
            = Some (row_after (SingleColumn "S") (read_completion body) r)).
Proof.
  assert (2 <= length (rows second_row_refused)) as Hrange
    by (vm_compute; lia).
  destruct (proj1 (@processBatch_gives_up demo 0 2 (SingleColumn "S") "m"
                     "P {{Video}}" None None default_maxRetries
                     second_row_refused) Hrange)
    as (o & s' & evs & done & left & Hrun & Ht & _ & Hleft & Hgot & Ho).
  assert (gave_up.1 = Thrown (Error "1 row(s) failed after 10 retries")) as H
    by (vm_compute; reflexivity).
  unfold gave_up in H. rewrite Hrun in H. cbn [fst] in H. subst o.
  destruct Ho as (Hne & Hs & He & failed & before & _ & _ & _ & Hin & _).
  exists (Error "1 row(s) failed after 10 retries"), s', evs, left.
  split; [exact Hrun|]. split; [exact Ht|]. split; [exact Hne|].
  split; [exact Hs|]. split; [exact He|]. split; [exact Hin|].
  split; [exact Hleft|exact Hgot].
Defined.

Lemma processBatch_backoff_witness :
  exists evs done left,
    trace (@processBatch demo 0 3 (SingleColumn "S") "m" "P {{Video}}" None
             None 10 one_refusal).2 = trace one_refusal ++ evs
    /\ batch_trace
         (fun i => task_request "m" "P {{Video}}" None None
                     (rows one_refusal !! i)) 10 0 (seq 0 (3 - 0)) evs done left
    /\ sleeps evs = [2 ^ 1 * 1000].
Proof.
  assert (3 <= length (rows one_refusal)) as Hrange by (vm_compute; lia).
  destruct (proj1 (proj2 (@processBatch_backoff demo 0 3 (SingleColumn "S") "m"
                            "P {{Video}}" None None 10 one_refusal)) Hrange)
    as (evs & done & left & Ht & Htrace).
  exists evs, done, left. split; [exact Ht|]. split; [exact Htrace|].
  assert (sleeps
            (trace (@processBatch demo 0 3 (SingleColumn "S") "m" "P {{Video}}"
                      None None 10 one_refusal).2) = [2 ^ 1 * 1000]) as Hs
    by (vm_compute; reflexivity).
  rewrite Ht in Hs. exact Hs.
Defined.

Lemma progress_path_replaces_csv_suffix_witness :
  progress_path "out.csv" = "out.progress"
  /\ exists evs checkpoints final,
       trace answered_run.2 = evs
       /\ writes evs = checkpoints ++ final
       /\ Forall (fun w => w.1.1 = "out.progress" /\ length w.1.2 = 1)
            checkpoints
       /\ length checkpoints = 1
       /\ exists records headers, final = [("out.csv", records, headers)].
Proof.
  destruct (progress_path_replaces_csv_suffix one_column
              (demo_state one_row [answer "x"] []))
    as (Hcsv & _ & _ & _ & _ & evs & checkpoints & final & Ht & Hw & Hall
        & Hfinal & Hdone & _).
  assert (progress_path "out.csv" = "out.progress") as Hpath.
  { apply (Hcsv "out" ".csv"). exists "c"%char, "s"%char, "v"%char.
    split; [reflexivity|]. split; [by left|]. split; by left. }
  split; [exact Hpath|].
  assert (answered_run.1 = Returned (Completed answered_stats)) as Hrun
    by (vm_compute; reflexivity).
  destruct (Hdone answered_stats Hrun) as (Hne & cs & Hcs & Hlen).
  exists evs, checkpoints, final. split; [exact Ht|]. split; [exact Hw|].
  change (outputFileName one_column) with "out.csv" in *.
  rewrite Hpath in Hall.
  split; [exact Hall|]. split.
  - injection Hcs as <-. exact Hlen.
  - destruct Hfinal as [->|Hfinal]; [done|exact Hfinal].
Defined.



Lemma distribute_group_falsy_witness :
  exists s' r',
    @distribute_group demo 0 0 ["A"; "B"] (demo_result doc_A0)
      (demo_state [[("Video", VStr "cats")]] [] []) = (Returned tt, s')
    /\ rows s' !! 0 = Some r'
    /\ row_get r' "A" = Some undetectable.
Proof.
  apply (@distribute_group_falsy demo _ 0 0 ["A"; "B"] (demo_result doc_A0)
           [("Video", VStr "cats")] [("A", VNum 0%float); ("B", VStr "y")]
           "A" (VNum 0%float)).
  - reflexivity.
  - reflexivity.
  - apply list_elem_of_here.
  - discriminate.
  - reflexivity.
  - right; left; reflexivity.
Defined.

Lemma distribute_group_null_witness :
  exists s' r',
    distribute_group 0 0 ["A"; "B"] (demo_result "null")
      (demo_state one_row [] []) = (Returned tt, s')
    /\ rows s' !! 0 = Some r'
    /\ (forall c, c ∈ ["A"; "B"] -> row_get r' c = Some undetectable)
    /\ (forall k, k ∉ ["A"; "B"]
                  -> row_get r' k = row_get [("Video", VStr "a")] k)
    /\ trace s'
       = trace (demo_state one_row [] [])
         ++ [ConsoleError
               (RowParseFailed (0 + 1) (error_message (cannot_read "null" "A")));
             ConsoleError (ResponseShown (substring0 200 "null"))].
Proof.
  apply (distribute_group_null 0 0 "A" ["B"] (demo_result "null")
           (demo_state one_row [] []) [("Video", VStr "a")]).
  - reflexivity.
  - reflexivity.
  - intros H. repeat (apply elem_of_cons in H as [H|H]; [discriminate|]).
    by apply elem_of_nil in H.
Defined.

Lemma processBatch_keeps_other_rows_witness :
  rows_kept (fun i => 0 <= i < 2) (target_columns (SingleColumn "S"))
    (rows second_row_refused) (rows gave_up.2).
Proof.
  apply (processBatch_keeps_other_rows 0 2 (SingleColumn "S") "m"
           "P {{Video}}" None None default_maxRetries second_row_refused).
  - intros H. repeat (apply elem_of_cons in H as [H|H]; [discriminate|]).
    by apply elem_of_nil in H.
  - repeat constructor.
Defined.

Lemma processColumn_fills_every_row_witness :
  length (rows (processColumn (Column "A" (summary_settings 10))
                  "out.progress" (demo_state one_row [answer "x"] [])).2)
  = length (rows (demo_state one_row [answer "x"] []))
  /\ forall j r',
       rows (processColumn (Column "A" (summary_settings 10)) "out.progress"
               (demo_state one_row [answer "x"] [])).2 !! j = Some r' ->
       filled (SingleColumn "A") r'.
Proof.
  assert (Forall (fun k => inherited_name k = false)
            (target_columns (columnInfo_of (Column "A" (summary_settings 10)))))
    as Hnames by (repeat constructor).
  destruct (processColumn_fills_every_row (Column "A" (summary_settings 10))
              "out.progress" (demo_state one_row [answer "x"] []) Hnames)
    as [Hlen Hfilled].
  split; [exact Hlen|].
  assert (exists stats,
            (processColumn (Column "A" (summary_settings 10)) "out.progress"
               (demo_state one_row [answer "x"] [])).1 = Returned stats)
    as [stats Hrun] by (eexists; vm_compute; reflexivity).
  rewrite Hrun in Hfilled. exact Hfilled.
Defined.

Lemma main_keeps_input_fields_witness :
  rows_kept (fun _ => True) (config_targets (columns one_column))
    (rows (demo_state one_row [answer "x"] [])) (rows answered_run.2).
Proof.
  apply (main_keeps_input_fields one_column
           (demo_state one_row [answer "x"] [])).
  - intros H. repeat (apply elem_of_cons in H as [H|H]; [discriminate|]).
    by apply elem_of_nil in H.
  - repeat constructor.
Defined.

Lemma main_completed_writes_output_witness :
  exists evs r0 r0' added,
    trace answered_run.2
    = trace (demo_state one_row [answer "x"] []) ++ evs
      ++ [WriteCSV "out.csv" (rows answered_run.2) (Object_keys r0')]
    /\ rows (demo_state one_row [answer "x"] []) !! 0 = Some r0
    /\ rows answered_run.2 !! 0 = Some r0'
    /\ Object_keys r0' = Object_keys r0 ++ added
    /\ Forall (fun k => k ∈ config_targets (columns one_column)) added
    /\ forall j r',
         rows answered_run.2 !! j = Some r' ->
         has_fields (config_targets (columns one_column)) r'.
Proof.
  assert (main one_column (demo_state one_row [answer "x"] [])
          = (Returned (Completed answered_stats), answered_run.2)) as Hrun.
  { assert (answered_run.1 = Returned (Completed answered_stats)) as H
      by (vm_compute; reflexivity).
    rewrite <- H. exact (surjective_pairing _). }
  refine (main_completed_writes_output one_column _ _ _ _ _ Hrun).
  - intros H. repeat (apply elem_of_cons in H as [H|H]; [discriminate|]).
    by apply elem_of_nil in H.
  - repeat constructor.
Defined.

Lemma processBatch_keeps_partial_results_witness :
  exists evs done left failed before,
    trace gave_up.2 = trace second_row_refused ++ evs
    /\ batch_trace
         (fun i => task_request "m" "P {{Video}}" None None
                     (rows second_row_refused !! i)) default_maxRetries 0
         (seq 0 (2 - 0)) evs done left
    /\ evs = before ++ final_report left default_maxRetries (summarize failed)
    /\ map settled_index failed = left
    /\ Forall (fun f => is_rejected f = true) failed
    /\ left <> []
    /\ (forall i, i ∈ left ->
                  0 <= i < 2
                  /\ rows gave_up.2 !! i = rows second_row_refused !! i)
    /\ forall i r',
         0 <= i < 2 -> i ∉ left ->
         rows gave_up.2 !! i = Some r' -> filled (SingleColumn "S") r'.
Proof.
  assert (processBatch 0 2 (SingleColumn "S") "m" "P {{Video}}" None None
            default_maxRetries second_row_refused
          = (Thrown (Error "1 row(s) failed after 10 retries"), gave_up.2))
    as Hrun.
  { assert (gave_up.1 = Thrown (Error "1 row(s) failed after 10 retries")) as H
      by (vm_compute; reflexivity).
    rewrite <- H. exact (surjective_pairing _). }
  refine (processBatch_keeps_partial_results 0 2 (SingleColumn "S") "m"
            "P {{Video}}" None None default_maxRetries second_row_refused
            gave_up.2 _ _ _ Hrun).
  - vm_compute. lia.
  - repeat constructor.
Defined.

End ScenarioChecks.
